(** * Osprey: streaming fabric and time-series store wrapper

    A shallow embedding of the parts of [main/lib/lib.py] and
    [lib/database.py] that the specification's testable properties talk
    about, together with the theorems that settle them.

    Conventions.
    - Python integers are [Z]; list indices and slices follow Python
      (negative indices count from the end, slices clamp).
    - A Python [dict] whose iteration order matters (columns of a ring,
      headers of a request) is an association list in insertion order; a
      [dict] used only as an index (socket registry, sessions, ports,
      bookmarks) is a [gmap].
    - A Python exception that escapes the modelled method is [None] of an
      [option] (or a named constructor where the kind matters).
    - Text is latin-1: [bytes] and [str] are both [list ascii], and
      [encode]/[decode] with iso-8859-1 are the identity on code points.
    - A header value or a response code is a [str] or an [int], as the
      callers store them; the parser stores [str]. *)

From stdpp Require Import gmap strings list fin_maps.
From Stdlib Require Import ZArith Ascii QArith.

Open Scope Z_scope.

(** ** Python list primitives *)

Module Py.

Section Lists.
Context {A : Type}.

(** Index normalisation of a slice bound: [None] is an omitted bound. *)
Definition clamp (len i : Z) : Z :=
  let j := if i <? 0 then i + len else i in
  Z.max 0 (Z.min len j).

(** [l[lo:hi]] *)
Definition slice (lo hi : option Z) (l : list A) : list A :=
  let len := Z.of_nat (length l) in
  let a := from_option (clamp len) 0 lo in
  let b := from_option (clamp len) len hi in
  take (Z.to_nat (b - a)) (drop (Z.to_nat a) l).

(** [l[i]], [IndexError] is [None]. *)
Definition getitem (i : Z) (l : list A) : option A :=
  let len := Z.of_nat (length l) in
  if (i <? - len) || (len <=? i) then None
  else l !! Z.to_nat (if i <? 0 then i + len else i).

(** [l[i] = x], [IndexError] is [None]. *)
Definition setitem (i : Z) (x : A) (l : list A) : option (list A) :=
  let len := Z.of_nat (length l) in
  if (i <? - len) || (len <=? i) then None
  else Some (<[Z.to_nat (if i <? 0 then i + len else i) := x]> l).

(** [[x] * n] *)
Definition repeat_list (x : A) (n : Z) : list A := replicate (Z.to_nat n) x.
End Lists.

(** [a % b]; [ZeroDivisionError] is [None].  For a non-zero divisor the
    sign of Python's remainder follows the divisor, as [Z.modulo] does. *)
Definition pymod (a b : Z) : option Z :=
  if b =? 0 then None else Some (a mod b).

(** An insertion-ordered [dict]. *)
Section Dict.
Context {K V : Type} `{EqDecision K}.

Fixpoint dget (k : K) (d : list (K * V)) : option V :=
  match d with
  | [] => None
  | (k', v) :: d' => if decide (k = k') then Some v else dget k d'
  end.

(** [d[k] = v]: an existing key keeps its position. *)
Fixpoint dset (k : K) (v : V) (d : list (K * V)) : list (K * V) :=
  match d with
  | [] => [(k, v)]
  | (k', v') :: d' =>
      if decide (k = k') then (k', v) :: d' else (k', v') :: dset k v d'
  end.

Definition dvalues (d : list (K * V)) : list V := snd <$> d.
Definition dkeys (d : list (K * V)) : list K := fst <$> d.
End Dict.

End Py.

(** ** GraphRingBuffer ([main/lib/lib.py]) *)

Module Ring.
Import Py.

Abbreviation column := (list Z) (only parsing).
Abbreviation table := (list (string * list Z)) (only parsing).

Record GraphRingBuffer := mkRing {
  r_size : Z;               (* self.size *)
  r_length : Z;             (* self.length *)
  r_tail : Z;               (* self.tail *)
  r_head : Z;               (* self.head *)
  r_names : list string;    (* self.names *)
  r_data : table;           (* self.data *)
  r_head_data : table;      (* self.head_data *)
  r_head_data_json : option table;
                            (* self.head_data_json: the table whose JSON
                               text it holds, None for the empty string *)
  r_read_events : list bool (* self.read_events, one flag per Event *)
}.

Definition set_data (d : table) (r : GraphRingBuffer) : GraphRingBuffer :=
  mkRing (r_size r) (r_length r) (r_tail r) (r_head r) (r_names r) d
         (r_head_data r) (r_head_data_json r) (r_read_events r).

Definition set_events (e : list bool) (r : GraphRingBuffer) : GraphRingBuffer :=
  mkRing (r_size r) (r_length r) (r_tail r) (r_head r) (r_names r) (r_data r)
         (r_head_data r) (r_head_data_json r) e.

(** [__init__]: the dict comprehension keeps one column per distinct name. *)
Definition init (column_names : list string) (size : Z) : GraphRingBuffer :=
  {| r_size := size; r_length := 0; r_tail := 0; r_head := 0;
     r_names := column_names;
     r_data := foldl (fun d name => dset name (repeat_list 0 size) d) [] column_names;
     r_head_data := [];
     r_head_data_json := None;
     r_read_events := [] |}.

Definition move_head (n : Z) (r : GraphRingBuffer) : option GraphRingBuffer :=
  h ← pymod (r_head r + n) (r_size r);
  Some (mkRing (r_size r) (r_length r) (r_tail r) h (r_names r) (r_data r)
               (r_head_data r) (r_head_data_json r) (r_read_events r)).

Definition move_tail (n : Z) (r : GraphRingBuffer) : option GraphRingBuffer :=
  t ← pymod (r_tail r + n) (r_size r);
  Some (mkRing (r_size r) (r_length r) t (r_head r) (r_names r) (r_data r)
               (r_head_data r) (r_head_data_json r) (r_read_events r)).

(** [sort]: every column becomes [col[tail:] + col[:tail]]. *)
Definition sort_col (tail : Z) (col : column) : column :=
  slice (Some tail) None col ++ slice None (Some tail) col.

Definition sort (r : GraphRingBuffer) : GraphRingBuffer :=
  set_data (prod_map id (sort_col (r_tail r)) <$> r_data r) r.

(** [update]: the pointers after [sort]; a ring that is full or overfull
    has [length] cut to [size]. *)
Definition update (r : GraphRingBuffer) : GraphRingBuffer :=
  if r_length r <? r_size r then
    mkRing (r_size r) (r_length r) 0 (r_length r) (r_names r) (r_data r)
           (r_head_data r) (r_head_data_json r) (r_read_events r)
  else
    mkRing (r_size r) (r_size r) 0 0 (r_names r) (r_data r)
           (r_head_data r) (r_head_data_json r) (r_read_events r).

(** The two branches of [set_size], per column. *)
Definition shrink_col (size old_size length : Z) (col : column) : column :=
  let extra := old_size - length in
  slice (Some (- size - extra)) (Some length) col.

Definition grow_col (size old_size : Z) (col : column) : column :=
  col ++ repeat_list 0 (size - old_size).

(** [set_size]; [self.size] is still the old size while the columns are
    rebuilt. *)
Definition set_size (size : Z) (r : GraphRingBuffer) : GraphRingBuffer :=
  if size =? r_size r then r
  else
    let r1 := sort r in
    let d :=
      if size <? r_size r1
      then prod_map id (shrink_col size (r_size r1) (r_length r1)) <$> r_data r1
      else prod_map id (grow_col size (r_size r1)) <$> r_data r1 in
    update (mkRing size (r_length r1) (r_tail r1) (r_head r1) (r_names r1) d
                   (r_head_data r1) (r_head_data_json r1) (r_read_events r1)).

(** [get_read_lock]: the token is the position of the new Event. *)
Definition get_read_lock (r : GraphRingBuffer) : nat * GraphRingBuffer :=
  (length (r_read_events r), set_events (r_read_events r ++ [true]) r).

(** One pass of the inner loop of [write]:
    [self.data[col][self.head] = data[col][i]] for every name. *)
Fixpoint write_row (i : Z) (new : table) (head : Z) (cols : list string)
    (d : table) : option table :=
  match cols with
  | [] => Some d
  | c :: cols' =>
      src ← dget c new;
      v ← getitem i src;
      dst ← dget c d;
      dst' ← setitem head v dst;
      write_row i new head cols' (dset c dst' d)
  end.

(** One turn of the outer loop of [write]: store row [i], advance [head],
    and advance [tail] when full or count the point. *)
Definition write_point (i : Z) (new : table) (r : GraphRingBuffer)
    : option GraphRingBuffer :=
  d ← write_row i new (r_head r) (r_names r) (r_data r);
  r1 ← move_head 1 (set_data d r);
  if r_size r1 =? r_length r1 then move_tail 1 r1
  else Some (mkRing (r_size r1) (r_length r1 + 1) (r_tail r1) (r_head r1)
                    (r_names r1) (r_data r1) (r_head_data r1)
                    (r_head_data_json r1) (r_read_events r1)).

Fixpoint write_points (idxs : list Z) (new : table) (r : GraphRingBuffer)
    : option GraphRingBuffer :=
  match idxs with
  | [] => Some r
  | i :: idxs' => r' ← write_point i new r; write_points idxs' new r'
  end.

(** [write]: the batch has as many rows as its first column; every read
    event is set at the end. *)
Definition write (new : table) (r : GraphRingBuffer) : option GraphRingBuffer :=
  let r0 := mkRing (r_size r) (r_length r) (r_tail r) (r_head r) (r_names r)
                   (r_data r) new (Some new) (r_read_events r) in
  first ← head (dvalues new);
  let n := length first in
  r1 ← write_points (Z.of_nat <$> seq 0 n) new r0;
  Some (set_events ((fun _ => true) <$> r_read_events r1) r1).

(** What a reader call yields: a value (Python's [None] is [Ret None]) or a
    wait on an Event that no write has set. *)
Inductive reply (A : Type) :=
  | Ret (a : option A) (r : GraphRingBuffer)
  | Blocked.
Arguments Ret {A} a r.
Arguments Blocked {A}.

Definition clear_event (ev : nat) (r : GraphRingBuffer) : GraphRingBuffer :=
  set_events (<[ev := false]> (r_read_events r)) r.

Definition is_set (ev : nat) (r : GraphRingBuffer) : bool :=
  default false (r_read_events r !! ev).

(** What [read] returns: [head_data], or the JSON text in
    [head_data_json]. *)
Inductive payload :=
  | Dict (t : table)
  | Json (t : option table).

Definition read (ev : nat) (json block : bool) (r : GraphRingBuffer)
    : reply payload :=
  if is_set ev r then
    Ret (Some (if json then Json (r_head_data_json r) else Dict (r_head_data r)))
        (clear_event ev r)
  else if block then Blocked
  else Ret None r.

(** [read_all]: the ring is rotated in place and handed out. *)
Definition read_all (ev : nat) (block : bool) (r : GraphRingBuffer) : reply table :=
  if is_set ev r then
    let r' := update (sort (clear_event ev r)) in
    Ret (Some (r_data r')) r'
  else if block then Blocked
  else Ret None r.

(** *** Structural predicates *)

(** The invariant as stated for the ring: [0 <= length <= size], every
    column has [size] slots, and [head == (tail + length) mod size]. *)
Definition invariant (r : GraphRingBuffer) : bool :=
  (0 <=? r_length r) && (r_length r <=? r_size r)
  && forallb (fun nc => Z.of_nat (length nc.2) =? r_size r) (r_data r)
  && (r_head r =? (r_tail r + r_length r) mod r_size r).

(** A usable ring also has a positive size and its tail inside it. *)
Definition tail_in_range (r : GraphRingBuffer) : bool :=
  (0 <? r_size r) && (0 <=? r_tail r) && (r_tail r <? r_size r).

(** The points a column holds, oldest first: [length] slots starting at
    [tail], wrapping around. *)
Definition chrono (r : GraphRingBuffer) (col : column) : column :=
  take (Z.to_nat (r_length r)) (sort_col (r_tail r) col).

(** The last [k] elements of a list. *)
Definition newest {A} (k : Z) (l : list A) : list A :=
  drop (length l - Z.to_nat k) l.

(** The rotation [sort] performs, on natural indices. *)
Definition rot {A} (t : nat) (l : list A) : list A := drop t l ++ take t l.

(** The invariant as a proposition. *)
Record inv (r : GraphRingBuffer) : Prop := {
  inv_length : 0 <= r_length r <= r_size r;
  inv_cols : Forall (fun nc : string * column => Z.of_nat (length nc.2) = r_size r)
                    (r_data r);
  inv_head : r_head r = (r_tail r + r_length r) mod r_size r
}.

(** What one written point does to the pointers. *)
Record step_facts (r r' : GraphRingBuffer) : Prop := {
  sf_inv : inv r';
  sf_tail : tail_in_range r' = true;
  sf_size : r_size r' = r_size r;
  sf_names : r_names r' = r_names r;
  sf_head : r_head r' = (r_head r + 1) mod r_size r;
  sf_length : r_length r' = Z.min (r_size r) (r_length r + 1)
}.

(** Sample rings: size 5 holding the two points 1, 2; and a full ring of
    size 3, with one reader, after the points 1, 2 and then 3, 4 were
    written (the oldest surviving point sits at index 1). *)
Definition ring_two_of_five : GraphRingBuffer :=
  mkRing 5 2 0 2 ["x"%string] [("x"%string, [1; 2; 0; 0; 0])]
         [("x"%string, [1; 2])] (Some [("x"%string, [1; 2])]) [].

Definition ring_full3 : GraphRingBuffer :=
  mkRing 3 3 1 1 ["x"%string] [("x"%string, [4; 2; 3])]
         [("x"%string, [3; 4])] (Some [("x"%string, [3; 4])]) [true].

(** The ring of size 5 with one reader, after the points 1, 2 were
    written. *)
Definition watched_two_of_five : GraphRingBuffer :=
  mkRing 5 2 0 2 ["x"%string] [("x"%string, [1; 2; 0; 0; 0])]
         [("x"%string, [1; 2])] (Some [("x"%string, [1; 2])]) [true].

End Ring.

(** ** Python floats, abstractly

    Wall-clock readings and the [time] column are Python floats.  The code
    only adds, subtracts, multiplies, compares and prints them, so the
    model is parametric in the number type, with no law assumed of the
    operations; [QFloat] instantiates it with the rationals, without
    rounding, for concrete runs on numbers that floats hold and combine
    exactly.  [trunc] is the integer that [str] prints before the point
    for a number it prints in plain decimal form, from 1 up to below 1e16
    in size (or zero): millisecond time stamps are of that kind.  Outside
    that range [str] prints an exponent or [-0], which the model does not
    cover. *)

Class FloatOps (F : Type) := {
  fadd : F -> F -> F;
  fsub : F -> F -> F;
  fmul : F -> F -> F;
  fltb : F -> F -> bool;          (* [a < b] *)
  of_Z : Z -> F;                  (* [float(n)] *)
  trunc : F -> Z;                 (* [int(str(x).split('.')[0])] *)
  nonzero : F -> bool             (* truthiness of a float *)
}.

#[export] Instance QFloat : FloatOps Q := {
  fadd := Qplus;
  fsub := Qminus;
  fmul := Qmult;
  fltb a b := negb (Qle_bool b a);
  of_Z := inject_Z;
  trunc q := Z.quot (Qnum q) (Zpos (Qden q));
  nonzero q := negb (Qnum q =? 0)
}.

(** ** PlaybackDatabase clock ([lib/database.py]) *)

Module Playback.
Section Clock.
Context {F : Type} `{FloatOps F}.

Record PlaybackDatabase := mkPlayback {
  playback_speed : F;       (* speed multiplier *)
  playback_active : bool;   (* whether playback is running *)
  start_time : F;           (* wall time playback was last started (ms) *)
  relative_stop_time : F    (* playback time at the last pause (ms) *)
}.

(** [__init__]; [wall1] and [wall2] are the two readings of [time()*1000]. *)
Definition init (wall1 wall2 : F) : PlaybackDatabase :=
  mkPlayback (of_Z 5) false wall1 wall2.

Definition is_streaming (db : PlaybackDatabase) : bool := playback_active db.

(** [time()]; [wall] is the reading of [time()*1000] made by the call. *)
Definition time (wall : F) (db : PlaybackDatabase) : F :=
  if is_streaming db then
    let diff := fmul (fsub wall (start_time db)) (playback_speed db) in
    fadd (relative_stop_time db) diff
  else relative_stop_time db.

Definition start (wall : F) (db : PlaybackDatabase) : PlaybackDatabase :=
  if is_streaming db then db
  else mkPlayback (playback_speed db) true wall (relative_stop_time db).

Definition stop (wall : F) (db : PlaybackDatabase) : PlaybackDatabase :=
  mkPlayback (playback_speed db) false (start_time db) (time wall db).

(** A client's calls, each with the wall-clock reading it makes. *)
Inductive call := CallTime (wall : F) | CallStart (wall : F) | CallStop (wall : F).

Definition step (db : PlaybackDatabase) (c : call) : PlaybackDatabase :=
  match c with
  | CallTime _ => db
  | CallStart w => start w db
  | CallStop w => stop w db
  end.

Definition is_start (c : call) : bool :=
  match c with CallStart _ => true | _ => false end.
End Clock.

(** Sample stores over the rationals: speed 5, started at wall time
    1000 ms with playback time 200 ms; running and paused. *)
Definition db_running : PlaybackDatabase (F := Q) := mkPlayback 5%Q true 1000%Q 200%Q.
Definition db_paused : PlaybackDatabase (F := Q) := mkPlayback 5%Q false 1000%Q 200%Q.

End Playback.

(** ** Base flags and the Node socket registry ([main/lib/lib.py]) *)

Module Nodes.

(** The messages of [remove_socket]; the text is kept symbolic. *)
Inductive message :=
  | RedundantRemove (socket_id node_name : string)          (* debug, level 2 *)
  | LiveRemove (handler_name socket_id node_name : string)  (* by throw *)
  | Removing (handler_name socket_id node_name : string).   (* debug, level 2 *)

#[export] Instance message_eq_dec : EqDecision message.
Proof. solve_decision. Defined.

(** Lines sent to [Base.display]: an error as [throw] formats it, or a
    message behind the [[time][process][thread]] prefix that [debug] puts
    before it. *)
Inductive line :=
  | Error (msg : message)
  | Debug (prefix : string) (msg : message).

#[export] Instance line_eq_dec : EqDecision line.
Proof. solve_decision. Defined.

(** The class-level state of [Base]. *)
Record Console := mkConsole {
  debug_level : Z;
  last_msg : option line;
  printed : list line
}.

Definition display (msg : line) (c : Console) : Console :=
  if decide (last_msg c = Some msg) then c
  else mkConsole (debug_level c) (Some msg) (printed c ++ [msg]).

(** [debug(msg, level)]; [prefix] is the text made of the reading of the
    clock and the names of the process and the thread. *)
Definition debug (prefix : string) (msg : message) (level : Z) (c : Console)
    : Console :=
  if level <=? debug_level c then display (Debug prefix msg) c else c.

(** The part of a SocketHandler the registry looks at. *)
Record SocketHandler := mkHandler {
  h_name : string;
  h_exit : bool
}.

Record Node := mkNode {
  n_name : string;
  n_exit : bool;       (* self.exit *)
  n_close : bool;      (* self.close *)
  sockets : gmap string SocketHandler
}.

(** [Base.halt]: sets the exit flag (and wakes the exit trigger). *)
Definition halt (n : Node) : Node :=
  mkNode (n_name n) true (n_close n) (sockets n).

(** [Base.shutdown(block=False)] *)
Definition shutdown (n : Node) : Node :=
  if n_close n && n_exit n then n
  else let n1 := halt n in mkNode (n_name n1) (n_exit n1) true (sockets n1).

(** [Base.throw(msg, trace=False)] *)
Definition throw (msg : message) (n : Node) (c : Console) : Node * Console :=
  (shutdown n, display (Error msg) c).

Definition add_socket (id : string) (h : SocketHandler) (n : Node) : Node :=
  mkNode (n_name n) (n_exit n) (n_close n) (<[id := h]> (sockets n)).

(** [remove_socket]; [prefix] is the prefix of the debug line of this
    call. *)
Definition remove_socket (prefix socket_id : string) (n : Node) (c : Console)
    : Node * Console :=
  match sockets n !! socket_id with
  | None => (n, debug prefix (RedundantRemove socket_id (n_name n)) 2 c)
  | Some handler =>
      if negb (h_exit handler) then
        throw (LiveRemove (h_name handler) socket_id (n_name n)) n c
      else
        let c1 := debug prefix (Removing (h_name handler) socket_id (n_name n)) 2 c in
        (mkNode (n_name n) (n_exit n) (n_close n) (delete socket_id (sockets n)), c1)
  end.

(** A Node holding one running handler, and a console that prints only
    errors. *)
Definition node_with_live_socket : Node :=
  mkNode "HOST" false false {[ "s1"%string := mkHandler "SOCKET" false ]}.

Definition quiet_console : Console := mkConsole 0 None [].

(** The prefix of a debug line. *)
Definition stamp : string := "[9:30:15:000250][MainProcess][HOST-RUN]".

End Nodes.

(** ** DatabaseController ([lib/database.py]) *)

Module Controller.

(** What [remove] reads of a bound store: [db.live] and [db.port]. *)
Inductive Database :=
  | LiveDatabase
  | PlaybackDatabase (port : Z) (file : string).

Definition live (db : Database) : bool :=
  match db with LiveDatabase => true | PlaybackDatabase _ _ => false end.

Record port_info := mkInfo {
  file : option string;   (* info['file'] *)
  count : Z               (* info['count'] *)
}.

(** Truthiness of [info['file']]: [None] and the empty string are false. *)
Definition has_file (i : port_info) : bool :=
  match file i with
  | Some f => negb (String.eqb f "")
  | None => false
  end.

Record DatabaseController := mkController {
  sessions : gmap string Database;   (* by session id *)
  playback_ports : gmap Z port_info;
  shut_down : list Z     (* ports whose backend was told to shut down *)
}.

Definition init : DatabaseController :=
  mkController ∅ (list_to_map ((fun p => (p, mkInfo None 0)) <$> [7000; 7001; 7002])) [].

Definition get (ID : string) (c : DatabaseController) : option Database :=
  sessions c !! ID.

(** How a call of [remove] ends. *)
Inductive outcome :=
  | Done (c : DatabaseController)
  | Raised (c : DatabaseController).   (* KeyError or DatabaseError *)

Section Remove.
(** Whether [PlaybackDatabase.shutdown] returns (it raises [DatabaseError]
    when the backend keeps answering). *)
Variable backend_stops : Z -> bool.

Definition remove (ID : string) (c : DatabaseController) : outcome :=
  match sessions c !! ID with
  | None => Done c
  | Some db =>
      match db with
      | LiveDatabase => Done c             (* [if db.live: return] *)
      | PlaybackDatabase port _ =>
          match playback_ports c !! port with
          | None => Raised c
          | Some info =>
              (* [if not info: return] never fires: [info] always has
                 its two keys *)
              if has_file info && (1 <? count info) then
                Done (mkController
                        (delete ID (sessions c))
                        (<[port := mkInfo (file info) (count info - 1)]> (playback_ports c))
                        (shut_down c))
              else if has_file info && (count info <=? 1) then
                if backend_stops port then
                  Done (mkController
                          (delete ID (sessions c))
                          (<[port := mkInfo None 0]> (playback_ports c))
                          (shut_down c ++ [port]))
                else Raised (mkController (sessions c) (playback_ports c)
                                          (shut_down c ++ [port]))
              else
                Done (mkController (delete ID (sessions c)) (playback_ports c)
                                   (shut_down c))
          end
      end
  end.
End Remove.

(** A controller with one live session. *)
Definition controller_with_live : DatabaseController :=
  mkController {[ "sid"%string := LiveDatabase ]} (playback_ports init) [].

End Controller.

(** ** Database: bookmarks, ids, write_data and read_data ([lib/database.py]) *)

Module Store.

(** A stream id as text [ms] or [ms-seq], kept structured. *)
Record redis_id := mkId {
  id_ms : Z;
  id_seq : option Z
}.

#[export] Instance redis_id_eq_dec : EqDecision redis_id.
Proof. solve_decision. Defined.

(** The order redis puts on ids; a missing sequence number counts as 0. *)
Definition id_ltb (a b : redis_id) : bool :=
  (id_ms a <? id_ms b)
  || ((id_ms a =? id_ms b) && (default 0 (id_seq a) <? default 0 (id_seq b))).

Fixpoint strictly_increasing (ids : list redis_id) : bool :=
  match ids with
  | a :: (b :: _) as rest => id_ltb a b && strictly_increasing rest
  | _ => true
  end.

(** The value a call hands back. *)
Inductive returned (R : Type) :=
  | PyNone
  | Value (r : R)
  | Raises.              (* an exception leaves the method *)
Arguments PyNone {R}.
Arguments Value {R} r.
Arguments Raises {R}.

Section Store.
Context {F : Type} `{FloatOps F}.

Definition time_to_redis (unix_time : F) : redis_id :=
  mkId (trunc unix_time) None.

Definition redis_to_time (redis_time : redis_id) : F := of_Z (id_ms redis_time).

Record Bookmark := mkBookmark {
  locked : bool;                 (* state of self._lock *)
  first_id : option redis_id;
  last_id : option redis_id;
  first_time : option F;
  last_time : option F;
  end_id : option redis_id;
  sample_rate : option Z;
  write : option Z;              (* last written integer millisecond *)
  seq : option Z                 (* last written sequence number *)
}.

(** [Bookmark.__init__] *)
Definition new_bookmark : Bookmark :=
  mkBookmark false None None None None None None None None.

(** [Bookmark.lock(block=False)]: [Lock.acquire] answers [True] when it
    took the lock and [False] when the lock was already held. *)
Definition lock (b : Bookmark) : bool * Bookmark :=
  if locked b then (false, b)
  else (true, mkBookmark true (first_id b) (last_id b) (first_time b)
                         (last_time b) (end_id b) (sample_rate b) (write b) (seq b)).

(** [Bookmark.release]; releasing a free lock raises [ValueError]. *)
Definition release (b : Bookmark) : option Bookmark :=
  if locked b then
    Some (mkBookmark false (first_id b) (last_id b) (first_time b)
                     (last_time b) (end_id b) (sample_rate b) (write b) (seq b))
  else None.

(** [Bookmarks.get]: the bookmark of a stream, created when missing. *)
Definition get (ID : string) (bs : gmap string Bookmark)
    : Bookmark * gmap string Bookmark :=
  match bs !! ID with
  | Some b => (b, bs)
  | None => (new_bookmark, <[ID := new_bookmark]> bs)
  end.

Definition truthy_int (o : option Z) : bool :=
  match o with Some n => negb (n =? 0) | None => false end.

Definition truthy_float (o : option F) : bool :=
  match o with Some x => nonzero x | None => false end.

Definition set_write_seq (w s : option Z) (b : Bookmark) : Bookmark :=
  mkBookmark (locked b) (first_id b) (last_id b) (first_time b) (last_time b)
             (end_id b) (sample_rate b) w s.

(** [validate_redis_time]; [None] is the [TypeError] of [None + 1]. *)
Definition validate_redis_time (redis_id : redis_id) (stream : string)
    (bs : gmap string Bookmark) : option (Store.redis_id * gmap string Bookmark) :=
  let '(bookmark, bs1) := get stream bs in
  let last_write := write bookmark in
  if negb (truthy_int last_write) then Some (redis_id, bs1)
  else
    if decide (Some (id_ms redis_id) = last_write) then
      s ← seq bookmark;
      Some (mkId (id_ms redis_id) (Some (s + 1)),
            <[stream := set_write_seq (Some (id_ms redis_id)) (Some (s + 1)) bookmark]> bs1)
    else
      Some (redis_id,
            <[stream := set_write_seq (Some (id_ms redis_id)) (Some 0) bookmark]> bs1).

(** A column of the input dictionary: one value or a sequence. *)
Inductive cell := Scalar (x : F) | Seq (xs : list F).

Definition valid_list (c : cell) : bool :=
  match c with Seq _ => true | Scalar _ => false end.

Definition cell_size (c : cell) : option nat :=
  match c with Seq xs => Some (length xs) | Scalar _ => None end.

(** An [XADD] handed to the backend. *)
Record xadd := mkXadd {
  x_key : string;
  x_id : redis_id;
  x_row : list (string * F)
}.

(** Row [i] of a batch: [{key: data[key][i]}]. *)
Fixpoint row_at (i : nat) (data : list (string * cell)) : option (list (string * F)) :=
  match data with
  | [] => Some []
  | (k, c) :: rest =>
      match c with
      | Seq xs => v ← xs !! i; r ← row_at i rest; Some ((k, v) :: r)
      | Scalar _ => None
      end
  end.

Fixpoint write_rows (stream : string) (data : list (string * cell))
    (times : list F) (idxs : list nat) (bs : gmap string Bookmark)
    : option (list xadd * gmap string Bookmark) :=
  match idxs with
  | [] => Some ([], bs)
  | i :: rest =>
      d ← row_at i data;
      t ← times !! i;
      '(redis_id, bs1) ← validate_redis_time (time_to_redis t) stream bs;
      '(cmds, bs2) ← write_rows stream data times rest bs1;
      Some (mkXadd ("stream:" +:+ stream) redis_id d :: cmds, bs2)
  end.

Definition all_same_size (data : list (string * cell)) : bool :=
  match data with
  | [] => false
  | (_, c) :: rest =>
      forallb (fun kc => bool_decide (cell_size kc.2 = cell_size c)) rest
  end.

(** [write_data] up to the point where the commands leave for the
    backend ([pipe.execute()] for a batch, [redis.xadd] for a single
    point): the commands, in order, and the bookmarks afterwards; [None]
    is a [DatabaseError] raised by the checks of [write_data] itself.  What
    the backend answers, which may raise a [DatabaseError] of its own, is
    not modelled. *)
Definition write_data (stream : string) (data : list (string * cell))
    (bs : gmap string Bookmark) : option (list xadd * gmap string Bookmark) :=
  match Py.dget "time" data with
  | None => None
  | Some time_col =>
      if negb (all_same_size data) then None
      else
        match head (Py.dvalues data), time_col with
        | Some (Seq first), Seq times =>
            write_rows stream data times (List.seq 0 (length first)) bs
        | Some (Scalar _), Scalar t =>
            '(redis_id, bs1) ← validate_redis_time (time_to_redis t) stream bs;
            row ← mapM (fun kc => match kc.2 with
                                  | Scalar x => Some (kc.1, x)
                                  | Seq _ => None
                                  end) data;
            Some ([mkXadd ("stream:" +:+ stream) redis_id row], bs1)
        | _, _ => None
        end
  end.

(** A sequence of [write_data] calls on one stream. *)
Fixpoint write_all (stream : string) (batches : list (list (string * cell)))
    (bs : gmap string Bookmark) : option (list xadd * gmap string Bookmark) :=
  match batches with
  | [] => Some ([], bs)
  | data :: rest =>
      '(cmds1, bs1) ← write_data stream data bs;
      '(cmds2, bs2) ← write_all stream rest bs1;
      Some (cmds1 ++ cmds2, bs2)
  end.

(** The ids of the commands a write queued. *)
Definition sent_ids (r : option (list xadd * gmap string Bookmark))
    : option (list redis_id) :=
  match r with
  | Some (cmds, _) => Some (x_id <$> cmds)
  | None => None
  end.

(** No write has been recorded for the stream: its bookmark is missing
    or its [write] field is still [None]. *)
Definition never_written (stream : string) (bs : gmap string Bookmark) : Prop :=
  match bs !! stream with
  | Some b => write b = None
  | None => True
  end.

(** An id without a sequence number. *)
Definition plain_id (c : xadd) : Prop := id_seq (x_id c) = None.

(** *** read_data *)

Definition entry : Type := redis_id * list (string * string).

Inductive read_from := FromId (id : redis_id) | FromNew.   (* an id, or '$' *)

Inductive query :=
  | XRevRange (key : string) (count : Z)
  | XRead (key : string) (start : read_from) (block : option Z).

Section Read.
(** The reply of the backend to a query, through the decoding client
    ([self.redis]) or the raw one ([self.bytes_redis]); [[]] is the empty
    reply. *)
Variable backend : bool -> query -> list entry.
(** The conversion loops and [json.dumps], by ([numerical], [decode],
    [to_json]); [None] when [float()] rejects a value. *)
Context {R : Type}.
Variable render : bool -> bool -> bool -> list entry -> option R.
(** [self.start_time] *)
Variable start_time : option F.

Definition set_first (t : option F) (i : option redis_id) (b : Bookmark) : Bookmark :=
  mkBookmark (locked b) i (last_id b) t (last_time b) (end_id b)
             (sample_rate b) (write b) (seq b).

Definition set_last (t : option F) (i : option redis_id) (b : Bookmark) : Bookmark :=
  mkBookmark (locked b) (first_id b) i (first_time b) t (end_id b)
             (sample_rate b) (write b) (seq b).

(** [read_data]; [now1] and [now2] are the readings of [self.time()]
    made before the query and when the bookmark is updated. *)
Definition read_data (stream : option string) (count : option Z)
    (max_time : option F) (numerical to_json decode : bool)
    (now1 now2 : F) (bs : gmap string Bookmark)
    : returned R * gmap string Bookmark :=
  match stream with
  | None => (PyNone, bs)
  | Some stream =>
      let '(bookmark, bs0) := get stream bs in
      let '(acquired, b1) := lock bookmark in
      let bs1 := <[stream := b1]> bs0 in
      if acquired then (PyNone, bs1)
      else
        let numerical := if decode then numerical else false in
        let key := "stream:" +:+ stream in
        let response :=
          if truthy_int count then backend decode (XRevRange key (default 0 count))
          else
            match last_id b1 with
            | Some last_read_id =>
                if truthy_float (last_time b1) then
                  let last_read_time := default (of_Z 0) (last_time b1) in
                  let time_since_last := fsub now1 last_read_time in
                  let window := fmul (default (of_Z 0) max_time) (of_Z 1000) in
                  let last_read_id :=
                    if truthy_float max_time && fltb window time_since_last
                    then time_to_redis
                           (fadd (redis_to_time last_read_id)
                                 (fsub time_since_last window))
                    else last_read_id in
                  backend decode (XRead key (FromId last_read_id) None)
                else backend decode (XRead key FromNew (Some 1000))
            | None => backend decode (XRead key FromNew (Some 1000))
            end in
        match last response with
        | None =>
            match release b1 with
            | Some b2 => (PyNone, <[stream := b2]> bs1)
            | None => (Raises, bs1)
            end
        | Some newest =>
            let b2 :=
              if negb (truthy_float (first_time b1))
              then set_first start_time (Some newest.1) b1 else b1 in
            let b3 := set_last (Some now2) (Some newest.1) b2 in
            match render numerical decode to_json response with
            | None => (Raises, <[stream := b3]> bs1)
            | Some result =>
                match release b3 with
                | Some b4 => (Value result, <[stream := b4]> bs1)
                | None => (Raises, <[stream := b3]> bs1)
                end
            end
        end
  end.
End Read.
End Store.

(** Sample inputs over the rationals: time stamps in tenths of a
    millisecond, a backend holding one entry, and two reads in a row. *)
Definition tenths (n : Z) : Q := Qmake n 10.

Definition one_entry : list entry :=
  [(mkId 1000 (Some 0), [("time"%string, "1000.5"%string)])].

Definition first_call :=
  read_data (F := Q) (fun _ _ => one_entry) (fun _ _ _ resp => Some resp) (Some 0%Q)
            (Some "s"%string) (Some 1) None true false true 5000%Q 5001%Q ∅.

Definition second_call :=
  read_data (F := Q) (fun _ _ => one_entry) (fun _ _ _ resp => Some resp) (Some 0%Q)
            (Some "s"%string) (Some 1) None true false true 6000%Q 6001%Q first_call.2.

End Store.

(** ** The framed request codec and the SocketHandler parser ([main/lib/lib.py]) *)

Module Codec.
Import Py.

Abbreviation text := (list ascii) (only parsing).

Definition txt (s : string) : list ascii := String.list_ascii_of_string s.

Definition CR : ascii := ascii_of_nat 13.
Definition LF : ascii := ascii_of_nat 10.
Definition CRLF : text := [CR; LF].
Definition SP : ascii := " "%char.

(** *** [str] methods on latin-1 text *)

(** [str.isspace] on one character below 256. *)
Definition isspace (c : ascii) : bool :=
  let n := N_of_ascii c in
  ((9 <=? n) && (n <=? 13) || (28 <=? n) && (n <=? 32) || (n =? 133) || (n =? 160))%N.

(** [str.lower] on one character below 256. *)
Definition lower_char (c : ascii) : ascii :=
  let n := N_of_ascii c in
  if ((65 <=? n) && (n <=? 90) || (192 <=? n) && (n <=? 222) && negb (n =? 215))%N
  then ascii_of_N (n + 32) else c.

Definition lower (s : text) : text := lower_char <$> s.

Fixpoint lstrip (s : text) : text :=
  match s with
  | c :: s' => if isspace c then lstrip s' else s
  | [] => []
  end.

Definition rstrip (s : text) : text := reverse (lstrip (reverse s)).

Definition strip (s : text) : text := rstrip (lstrip s).

(** [s.split()]: maximal runs of non-blank characters. *)
Fixpoint split_words (cur : text) (s : text) : list (list ascii) :=
  match s with
  | [] => match cur with [] => [] | _ => [cur] end
  | c :: s' =>
      if isspace c then
        match cur with
        | [] => split_words [] s'
        | _ => cur :: split_words [] s'
        end
      else split_words (cur ++ [c]) s'
  end.

Definition split (s : text) : list (list ascii) := split_words [] s.

(** [s.split(sep)] for a one-character separator. *)
Fixpoint split_on_from (sep : ascii) (cur : text) (s : text) : list (list ascii) :=
  match s with
  | [] => [cur]
  | c :: s' =>
      if decide (c = sep) then cur :: split_on_from sep [] s'
      else split_on_from sep (cur ++ [c]) s'
  end.

Definition split_on (sep : ascii) (s : text) : list (list ascii) :=
  split_on_from sep [] s.

(** [a, b = s.split(sep, 1)]; [None] is the [ValueError] of unpacking a
    one-element list. *)
Fixpoint split_once (sep : ascii) (s : text) : option (list ascii * list ascii) :=
  match s with
  | [] => None
  | c :: s' =>
      if decide (c = sep) then Some ([], s')
      else '(a, b) ← split_once sep s'; Some (c :: a, b)
  end.

Fixpoint startswith (p s : text) : bool :=
  match p, s with
  | [], _ => true
  | c :: p', d :: s' => bool_decide (c = d) && startswith p' s'
  | _ :: _, [] => false
  end.

(** [needle in hay] for strings. *)
Fixpoint contains (needle hay : text) : bool :=
  startswith needle hay
  || match hay with
     | [] => false
     | _ :: hay' => contains needle hay'
     end.

(** A decimal digit of latin-1. *)
Definition digit (c : ascii) : option Z :=
  let n := N_of_ascii c in
  if ((48 <=? n) && (n <=? 57))%N then Some (Z.of_N n - 48) else None.

(** The blanks [int] skips at both ends: those of C (tab to carriage
    return, and the space) and the two blanks of latin-1 above 127.  The
    separators 28 to 31, which [str.strip] removes, are none of them. *)
Definition int_space (c : ascii) : bool :=
  let n := N_of_ascii c in
  ((9 <=? n) && (n <=? 13) || (n =? 32) || (n =? 133) || (n =? 160))%N.

Fixpoint int_skip (s : text) : text :=
  match s with
  | c :: s' => if int_space c then int_skip s' else s
  | [] => []
  end.

(** Digits after the first one: a single underscore may stand between
    two digits. *)
Fixpoint int_from (acc : Z) (s : text) : option Z :=
  match s with
  | [] => Some acc
  | c :: s' =>
      if decide (c = "_"%char) then
        match s' with
        | [] => None
        | d :: s'' => v ← digit d; int_from (10 * acc + v) s''
        end
      else v ← digit c; int_from (10 * acc + v) s'
  end.

Definition int_unsigned (s : text) : option Z :=
  match s with
  | [] => None
  | c :: s' => v ← digit c; int_from v s'
  end.

(** [int(s)] for a [str]: blanks, an optional sign, digits, blanks;
    [None] is the [ValueError]. *)
Definition int (s : text) : option Z :=
  match reverse (int_skip (reverse (int_skip s))) with
  | [] => None
  | c :: ds =>
      if decide (c = "+"%char) then int_unsigned ds
      else if decide (c = "-"%char) then Z.opp <$> int_unsigned ds
      else int_unsigned (c :: ds)
  end.

(** [str(n)] for an integer: [fuel] bounds the number of digits. *)
Fixpoint digits (fuel : nat) (n : Z) (acc : list ascii) : list ascii :=
  let d := ascii_of_N (Z.to_N (48 + n mod 10)) in
  match fuel with
  | O => d :: acc
  | S fuel' => if n <? 10 then d :: acc else digits fuel' (n / 10) (d :: acc)
  end.

Definition str_of_int (n : Z) : list ascii :=
  if n <? 0 then "-"%char :: digits (Z.to_nat (- n)) (- n) []
  else digits (Z.to_nat n) n [].

(** What a header value or a response code can be: the parser stores
    [str], [add_content] and [add_response] store [int]. *)
Inductive value :=
  | Str (s : list ascii)
  | Int (n : Z).

#[export] Instance value_eq_dec : EqDecision value.
Proof. solve_decision. Defined.

(** [str(v)], which is also what ["{}".format(v)] prints. *)
Definition str (v : value) : list ascii :=
  match v with
  | Str s => s
  | Int n => str_of_int n
  end.

(** [int(v)] *)
Definition to_int (v : value) : option Z :=
  match v with
  | Str s => int s
  | Int n => Some n
  end.

(** Truthiness of an optional string. *)
Definition truthy (o : option (list ascii)) : bool :=
  match o with Some (_ :: _) => true | _ => false end.

(** Truthiness of an optional value. *)
Definition truthy_val (o : option value) : bool :=
  match o with
  | Some (Str (_ :: _)) => true
  | Some (Int n) => negb (n =? 0)
  | _ => false
  end.

(** ["{}".format(x)] for an optional string. *)
Definition fmt (o : option (list ascii)) : list ascii :=
  default (txt "None") o.

(** ["{}".format(x)] for an optional value. *)
Definition fmt_val (o : option value) : list ascii :=
  match o with
  | Some v => str v
  | None => txt "None"
  end.

(** *** Request *)

(** The data of a Request.  [origin], the handler a request came in on,
    and the marker [header_received] that the parser sets are left
    out. *)
Record Request := mkRequest {
  method : option (list ascii);
  code : option value;
  message : option (list ascii);
  version : list ascii;
  path : option (list ascii);
  queries : list (list ascii * list ascii);
  header : list (list ascii * value);
  content : option (list ascii)
}.

(** [Request.__init__] with no method. *)
Definition new_request : Request :=
  mkRequest None None None (txt "HTTP/1.1") None [] [] None.

Definition verify (r : Request) : bool :=
  if truthy (method r) && truthy_val (code r) then false
  else if negb (truthy (method r)) && negb (truthy_val (code r))
          && bool_decide (header r <> []) then false
  else true.

Definition format_request_line (r : Request) : list ascii :=
  if truthy (method r) then
    fmt (method r) ++ [SP] ++ fmt (path r) ++ [SP] ++ version r ++ CRLF
  else if truthy_val (code r) then
    version r ++ [SP] ++ fmt_val (code r) ++ [SP] ++ fmt (message r) ++ CRLF
  else [].

Definition format_header_line (kv : list ascii * value) : list ascii :=
  kv.1 ++ txt ": " ++ str kv.2 ++ CRLF.

Definition format_headers (r : Request) : list ascii :=
  concat (format_header_line <$> header r)
  ++ match header r with [] => [] | _ => CRLF end.

(** [get_data]; [None] when [verify] fails. *)
Definition get_data (r : Request) : option (list ascii) :=
  if negb (verify r) then None
  else Some (format_request_line r ++ format_headers r
             ++ match content r with Some c => c | None => CRLF end).

(** *** SocketHandler *)

Record SocketHandler := mkHandler {
  h_exit : bool;                (* self.exit *)
  h_close : bool;               (* self.close *)
  pull_buffer : list ascii;     (* bytes still to come, then end of stream *)
  request : Request             (* the request being parsed *)
}.

Definition set_request (r : Request) (h : SocketHandler) : SocketHandler :=
  mkHandler (h_exit h) (h_close h) (pull_buffer h) r.

Definition set_buffer (b : list ascii) (h : SocketHandler) : SocketHandler :=
  mkHandler (h_exit h) (h_close h) b (request h).

Definition set_header (hdr : list (list ascii * value)) (r : Request) : Request :=
  mkRequest (method r) (code r) (message r) (version r) (path r) (queries r)
            hdr (content r).

Definition set_content (c : option (list ascii)) (r : Request) : Request :=
  mkRequest (method r) (code r) (message r) (version r) (path r) (queries r)
            (header r) c.

(** [Base.shutdown]; [throw] is [shutdown] followed by printing. *)
Definition shutdown (h : SocketHandler) : SocketHandler :=
  mkHandler true true (pull_buffer h) (request h).

(** [pull_buffer.readline()]: up to and including the next LF, or what is
    left before the end of the stream. *)
Fixpoint readline (buf : text) : list ascii * list ascii :=
  match buf with
  | [] => ([], [])
  | c :: b =>
      if decide (c = LF) then ([c], b)
      else let '(l, r) := readline b in (c :: l, r)
  end.

(** [data[-2:] != CRLF] *)
Definition ends_crlf (data : text) : bool :=
  bool_decide (slice (Some (-2)) None data = CRLF).

(** How a read ends. *)
Inductive read_result :=
  | Got (data : list ascii) (h : SocketHandler)
  | Failed (h : SocketHandler)      (* the method returned None after shutdown *)
  | Raised (h : SocketHandler)      (* an exception left the method *)
  | Spins.                          (* the loop never ends: nothing more
                                       arrives and the line is not complete *)

(** The [while] loop of [read(length, line=True)].  Each turn with bytes
    left consumes at least one of them, so [fuel] counts the bytes left. *)
Fixpoint read_line_loop (fuel : nat) (length : Z) (data : text)
    (h : SocketHandler) : read_result :=
  if bool_decide (data <> []) && negb (ends_crlf data) && negb (h_exit h) then
    let '(more, rest) := readline (pull_buffer h) in
    let data' := data ++ more in
    let h' := set_buffer rest h in
    if length <? Z.of_nat (List.length data') then Failed (shutdown h')
    else
      match fuel with
      | O => Spins
      | S fuel' => read_line_loop fuel' length data' h'
      end
  else
    match data with
    | [] => Failed (shutdown h)
    | _ => Got (strip data) h
    end.

(** [read(length, line=True)] *)
Definition read_line (length : Z) (h : SocketHandler) : read_result :=
  let '(data, rest) := readline (pull_buffer h) in
  read_line_loop (List.length rest) length data (set_buffer rest h).

(** The [while] loop of [read(length, line=False, decode=False)]. *)
Fixpoint read_exact_loop (fuel : nat) (length : Z) (data : text)
    (h : SocketHandler) : read_result :=
  if bool_decide (data <> []) && (Z.of_nat (List.length data) <? length)
     && negb (h_exit h) then
    match fuel with
    | O => Spins
    | S fuel' =>
        let length' := length - Z.of_nat (List.length data) in
        let more := take (Z.to_nat length') (pull_buffer h) in
        let rest := drop (Z.to_nat length') (pull_buffer h) in
        read_exact_loop fuel' length' (data ++ more) (set_buffer rest h)
    end
  else
    match data with
    | [] => Failed (shutdown h)
    | _ => Got data h
    end.

(** [read(length, line=False, decode=False)].  [pull_buffer.read(n)]
    reads to the end of the stream for [n = -1] and raises [ValueError]
    below that; for [n >= 0] it returns [n] bytes, or fewer at the end of
    the stream.  The buffered reader makes room for [n] bytes first: [n] is
    taken to be a size it can allocate (it raises [OverflowError] from
    [2^63] on, and [MemoryError] where memory runs short). *)
Definition read_exact (length : Z) (h : SocketHandler) : read_result :=
  if length <? -1 then Raised h
  else
    let n := if length =? -1 then List.length (pull_buffer h)
             else Z.to_nat length in
    let data := take n (pull_buffer h) in
    let rest := drop n (pull_buffer h) in
    read_exact_loop (Z.to_nat length) length data (set_buffer rest h).

(** How a parsing step ends. *)
Inductive parsed :=
  | Parsed (h : SocketHandler)      (* returned True *)
  | Rejected (h : SocketHandler)    (* returned False or None, or raised *)
  | Hangs.

(** [dict([pair.split('=') for pair in query.split('&')])]; [None] is the
    [ValueError] for a pair that does not split in two. *)
Definition add_pair (acc : option (list (list ascii * list ascii))) (item : list ascii)
    : option (list (list ascii * list ascii)) :=
  d ← acc;
  match split_on "="%char item with
  | [k; v] => Some (dset k v d)
  | _ => None
  end.

Definition parse_query (query : text) : option (list (list ascii * list ascii)) :=
  foldl add_pair (Some []) (split_on "&"%char query).

(** What the three words of a start line do to the request. *)
Inductive filled :=
  | Filled (r : Request)
  | Malformed                    (* not three words: [throw], [return False] *)
  | QueryError (r : Request).    (* [ValueError] while the query is taken
                                    apart; [r] is what the assignments made
                                    before it left of the request *)

Definition fill_request_line (words : list (list ascii)) (r : Request) : filled :=
  match words with
  | [w0; w1; w2] =>
      if startswith (txt "HTTP/") w0 then
        Filled (mkRequest (method r) (Some (Str w1)) (Some w2) w0 (path r)
                          (queries r) (header r) (content r))
      else if bool_decide ("?"%char ∈ w1) then
        match split_on "?"%char w1 with
        | [p; q] =>
            match parse_query q with
            | Some qs =>
                Filled (mkRequest (Some w0) (code r) (message r) w2 (Some p) qs
                                  (header r) (content r))
            | None =>
                QueryError (mkRequest (Some w0) (code r) (message r) w2 (Some p)
                                      (queries r) (header r) (content r))
            end
        | _ =>
            QueryError (mkRequest (Some w0) (code r) (message r) w2 (path r)
                                  (queries r) (header r) (content r))
        end
      else
        Filled (mkRequest (Some w0) (code r) (message r) w2 (Some w1) (queries r)
                          (header r) (content r))
  | _ => Malformed
  end.

(** [parse_request_line]; blank lines are skipped.  The [ValueError] of a
    query leaves [parse_request] and is caught in [_run], which shuts the
    handler down. *)
Fixpoint parse_request_line_loop (fuel : nat) (h : SocketHandler) : parsed :=
  match read_line 256 h with
  | Spins => Hangs
  | Failed h' | Raised h' => Rejected h'
  | Got [] h' =>
      match fuel with
      | O => Hangs
      | S fuel' => parse_request_line_loop fuel' h'
      end
  | Got line h' =>
      match fill_request_line (split line) (request h') with
      | Filled r => Parsed (set_request r h')
      | Malformed => Rejected (shutdown h')
      | QueryError r => Rejected (shutdown (set_request r h'))
      end
  end.

Definition parse_request_line (h : SocketHandler) : parsed :=
  parse_request_line_loop (List.length (pull_buffer h)) h.

(** [parse_header]: [n] is the number of turns of the [for] loop left. *)
Fixpoint parse_header_loop (n : nat) (h : SocketHandler) : parsed :=
  match n with
  | O => Rejected (shutdown h)            (* "Too many headers" *)
  | S n' =>
      match read_line 1024 h with
      | Spins => Hangs
      | Failed h' | Raised h' => Rejected h'
      | Got [] h' => Parsed h'
      | Got line h' =>
          match split_once ":"%char line with
          | None => Rejected (shutdown h')
          | Some (key, val) =>
              let r := request h' in
              let r' := set_header (dset (lower key) (Str (strip val)) (header r)) r in
              parse_header_loop n' (set_request r' h')
          end
      end
  end.

Definition parse_header (h : SocketHandler) : parsed := parse_header_loop 32 h.

Definition host_keywords : list (list ascii) := [txt "webredirect"; txt "ddnsfree"].
Definition agent_keywords : list (list ascii) :=
  [txt "nimbostratus"; txt "cloudsystemnetworks"; txt "bot"].

(** The test of [validate].  [host_string] is the one-element tuple
    [(header.get('host'),)], so [keyword in host_string] compares the
    keyword with the whole header value; [agent_string] is the value, so
    [keyword in agent_string] is a substring test on a string (as the
    parser stores it).  On a number other than 0 it raises [TypeError],
    which [_run] answers with the shutdown a banned peer gets. *)
Definition banned (hdr : list (list ascii * value)) : bool :=
  let host_string : list (option value) := [dget (txt "host") hdr] in
  let agent_string := dget (txt "user-agent") hdr in
  let host_hit :=
    existsb (fun keyword => bool_decide (Some (Str keyword) ∈ host_string))
            host_keywords in
  let agent_hit :=
    match agent_string with
    | Some (Str s) =>
        truthy (Some s) && existsb (fun keyword => contains keyword s) agent_keywords
    | Some (Int n) => negb (n =? 0)
    | None => false
    end in
  host_hit || agent_hit.

(** [validate]: a banned peer is shut down through [throw]. *)
Definition validate (h : SocketHandler) : bool * SocketHandler :=
  let valid := negb (banned (header (request h))) in
  (valid, if valid then h else shutdown h).

Definition parse_content (h : SocketHandler) : parsed :=
  let length := dget (txt "content-length") (header (request h)) in
  if truthy_val length then
    match length ≫= to_int with
    | None => Rejected (shutdown h)       (* ValueError, caught in _run *)
    | Some n =>
        match read_exact n h with
        | Spins => Hangs
        | Failed h' => Rejected h'
        | Raised h' => Rejected (shutdown h')   (* caught in _run *)
        | Got data h' =>
            Parsed (set_request (set_content (Some data) (request h')) h')
        end
    end
  else Parsed h.

(** What [parse_request] hands to the read loop. *)
Inductive parse_outcome :=
  | Dispatch (r : Request) (h : SocketHandler)   (* a request for Node.HANDLE *)
  | NoRequest (h : SocketHandler)                (* returned None *)
  | Stuck.

Definition parse_request (h : SocketHandler) : parse_outcome :=
  match parse_request_line h with
  | Hangs => Stuck
  | Rejected h1 => NoRequest h1
  | Parsed h1 =>
      match parse_header h1 with
      | Hangs => Stuck
      | Rejected h2 => NoRequest h2
      | Parsed h2 =>
          match validate h2 with
          | (false, h3) => NoRequest h3
          | (true, h3) =>
              match parse_content h3 with
              | Hangs => Stuck
              | Rejected h4 => NoRequest h4
              | Parsed h4 => Dispatch (request h4) (set_request new_request h4)
              end
          end
      end
  end.

(** A handler about to read [bytes]. *)
Definition listening (bytes : text) : SocketHandler :=
  mkHandler false false bytes new_request.

(** *** Requests that survive the wire *)

(** A non-empty word without blanks. *)
Definition token (t : text) : bool :=
  bool_decide (t <> []) && forallb (fun c => negb (isspace c)) t.

(** A header the parser reads back as written: the key has no colon or
    line feed and does not start with a blank; the value, as it prints,
    has no line feed and no blank at either end. *)
Definition header_ok (kv : list ascii * value) : bool :=
  bool_decide (LF ∉ kv.1) && bool_decide (":"%char ∉ kv.1)
  && bool_decide (lstrip kv.1 = kv.1)
  && bool_decide (LF ∉ str kv.2) && bool_decide (strip (str kv.2) = str kv.2).

(** A value as the parser stores it: the text it prints as. *)
Definition as_text (v : value) : value := Str (str v).

(** The header mapping as the parser stores it: keys lowercased, a later
    header replacing an earlier one with the same lowercased key, every
    value the text it prints as. *)
Definition lowered (hs : list (list ascii * value))
    : list (list ascii * value) :=
  foldl (fun d kv => dset (lower kv.1) (as_text kv.2) d) [] hs.

(** The request as the parser stores it. *)
Definition decoded (r : Request) : Request :=
  mkRequest (method r) (as_text <$> code r) (message r) (version r) (path r)
            (queries r) (lowered (header r)) (content r).

(** The request with its header keys lowercased and nothing else
    changed. *)
Definition lower_keys (r : Request) : Request :=
  set_header (foldl (fun d kv => dset (lower kv.1) kv.2 d) [] (header r)) r.

Definition request_line_ok (r : Request) : bool :=
  match method r, code r with
  | Some m, None =>
      token m && negb (startswith (txt "HTTP/") m)
      && match path r with
         | Some p => token p && bool_decide ("?"%char ∉ p)
         | None => false
         end
      && token (version r) && bool_decide (message r = None)
  | None, Some c =>
      truthy_val (Some c) && token (str c)
      && match message r with Some m => token m | None => false end
      && token (version r) && startswith (txt "HTTP/") (version r)
      && bool_decide (path r = None)
  | _, _ => false
  end.

Definition content_ok (r : Request) : bool :=
  let length := dget (txt "content-length") (lowered (header r)) in
  match content r with
  | None => negb (truthy_val length)
  | Some c =>
      bool_decide (c <> [])
      && bool_decide (length ≫= to_int = Some (Z.of_nat (List.length c)))
  end.

Definition well_formed (r : Request) : bool :=
  request_line_ok r
  && bool_decide (queries r = [])
  && forallb header_ok (header r)
  && (List.length (header r) <? 32)%nat
  && negb (banned (lowered (header r)))
  && content_ok r.

(** What the encoder leaves in the stream after the frame proper: the
    end-of-transmission CRLF of a body-less request that has headers. *)
Definition trailer (r : Request) : list ascii :=
  match content r, header r with
  | None, _ :: _ => CRLF
  | _, _ => []
  end.

(** The request the parser holds once the start line of [r] is read. *)
Definition started (r : Request) : Request :=
  mkRequest (method r) (as_text <$> code r) (message r) (version r) (path r)
            [] [] None.

(** Sample requests and frames. *)
Definition sign_on : Request :=
  mkRequest (Some (txt "SIGN_ON")) None None (txt "HTTP/1.1") (Some (txt "/")) []
            [(txt "Name", Str (txt "sense-1")); (txt "device", Str (txt "pi-A"));
             (txt "content-length", Int 3)]
            (Some (txt "abc")).

Definition get_with_query : Request :=
  mkRequest (Some (txt "GET")) None None (txt "HTTP/1.1") (Some (txt "/stream"))
            [(txt "id", txt "7")] [] None.

Definition long_header_line : list ascii :=
  txt "x: " ++ replicate 1995 "a"%char ++ CRLF.

Definition long_start_line : list ascii :=
  txt "GET /" ++ replicate 300 "a"%char ++ txt " HTTP/1.1" ++ CRLF.

Definition denied_host_frame : list ascii :=
  txt "POST /up HTTP/1.1" ++ CRLF ++ txt "host: a.webredirect.org" ++ CRLF
  ++ txt "content-length: 3" ++ CRLF ++ CRLF ++ txt "abc".

End Codec.

(** ** DataBuffer ([main/lib/lib.py]) *)

Module Buffers.
Section DataBuffer.
(** What the buffer holds: bytes, or whatever [write] is handed. *)
Context {D : Type}.

Record DataBuffer := mkBuffer {
  data : D;                  (* self.data *)
  read_events : list bool    (* self.read_events, one flag per Event *)
}.

(** [__init__]; [empty] is [b'']. *)
Definition init (empty : D) : DataBuffer := mkBuffer empty [].

(** [get_read_lock]: the token is the position of the new Event, which
    starts out set. *)
Definition get_read_lock (b : DataBuffer) : nat * DataBuffer :=
  (length (read_events b), mkBuffer (data b) (read_events b ++ [true])).

(** What [read] yields: a value ([Ret None] is Python's [None]) or a wait
    on an Event that no write has set. *)
Inductive reply :=
  | Ret (a : option D) (b : DataBuffer)
  | Blocked.

Definition is_set (event : nat) (b : DataBuffer) : bool :=
  default false (read_events b !! event).

Definition clear (event : nat) (b : DataBuffer) : DataBuffer :=
  mkBuffer (data b) (<[event := false]> (read_events b)).

(** [read]; the [json] argument is unused by the source. *)
Definition read (event : nat) (block : bool) (b : DataBuffer) : reply :=
  if block then
    if is_set event b then Ret (Some (data b)) (clear event b) else Blocked
  else
    if is_set event b then Ret (Some (data b)) (clear event b)
    else Ret None b.

(** [write]: the slot is overwritten and every Event is set. *)
Definition write (new_data : D) (b : DataBuffer) : DataBuffer :=
  mkBuffer new_data ((fun _ => true) <$> read_events b).

(** A run of writes with no read in between. *)
Definition write_all (ws : list D) (b : DataBuffer) : DataBuffer :=
  foldl (fun b w => write w b) b ws.
End DataBuffer.
Arguments DataBuffer D : clear implicits.
Arguments reply D : clear implicits.

(** A buffer with two readers, both waiting. *)
Definition two_waiting_readers : DataBuffer Z := mkBuffer 0 [false; false].

End Buffers.

(** ** Building requests and streaming chunks ([main/lib/lib.py]) *)

Module Wire.
Import Py Codec.

(** A decimal digit. *)
Definition isdigit (c : ascii) : bool := bool_decide (is_Some (digit c)).

(** Every character of latin-1. *)
Definition all_ascii : list ascii := ascii_of_nat <$> seq 0 256.

(** The bytes of a frame: start line, header lines, blank line, body. *)
Definition frame (r : Request) : list ascii :=
  format_request_line r ++ concat (format_header_line <$> header r) ++ CRLF
  ++ default [] (content r).

(** The handler once the start line and the headers of [r] are read and
    [rest] is still to come. *)
Definition at_body (r : Request) (rest : list ascii) (h : SocketHandler)
    : SocketHandler :=
  set_request (set_header (lowered (header r)) (started r)) (set_buffer rest h).

(** *** The [add_] methods of Request *)

Definition add_request (m p v : text) (r : Request) : Request :=
  mkRequest (Some m) (code r) (message r) v (Some p) (queries r) (header r)
            (content r).

(** [Request.__init__(method)]: [add_request] runs before the defaults of
    [version] and [path] are assigned, which then overwrite what it set. *)
Definition init (m : option (list ascii)) : Request :=
  let r1 := if truthy m
            then add_request (default [] m) (txt "/") (txt "HTTP/1.1") new_request
            else new_request in
  mkRequest (method r1) None None (txt "HTTP/1.1") None [] [] None.

(** [self.header[keyword.lower()] = value] *)
Definition add_header (keyword : text) (value : Codec.value) (r : Request)
    : Request :=
  set_header (dset (lower keyword) value (header r)) r.

(** The table of [add_response]. *)
Definition messages (code : Z) : option (list ascii) :=
  if code =? 200 then Some (txt "OK")
  else if code =? 204 then Some (txt "No Content")
  else if code =? 301 then Some (txt "Moved Permanently")
  else if code =? 304 then Some (txt "Not Modified")
  else if code =? 308 then Some (txt "Permanent Redirect")
  else if code =? 404 then Some (txt "Not Found")
  else if code =? 405 then Some (txt "Method Not Allowed")
  else None.

(** [add_response] for an integer code, which is stored as it is; [date]
    is the text [get_date()] returns, [None] is the [KeyError] for a code
    outside the table. *)
Definition add_response (code : Z) (date : text) (r : Request) : option Request :=
  msg ← messages code;
  let r1 := mkRequest (method r) (Some (Int code)) (Some msg) (version r)
                      (path r) (queries r) (header r) (content r) in
  Some (add_header (txt "Date") (Str date)
          (add_header (txt "Server") (Str (txt "StreamingServer Python/3.7.3")) r1)).

(** [add_content] for a [str] or [bytes] argument; the length is stored
    as the integer [len(data)]. *)
Definition add_content (content : text) (r : Request) : Request :=
  let r1 := if truthy (Some content)
            then add_header (txt "content-length")
                            (Int (Z.of_nat (length content))) r
            else r in
  set_content (Some content) r1.

(** A request put together with the [add_] methods: start line, headers
    in the order given, then the body. *)
Definition build (m p v : text) (hs : list (list ascii * value)) (c : text)
    : Request :=
  add_content c
    (foldl (fun r kv => add_header kv.1 kv.2 r) (add_request m p v new_request) hs).

(** A request with every value replaced by the text it prints as. *)
Definition printed (r : Request) : Request :=
  mkRequest (method r) (as_text <$> code r) (message r) (version r) (path r)
            (queries r) (prod_map id as_text <$> header r) (content r).

(** What holds of every header mapping filled through lowercased keys. *)
Record tidy (d : list (list ascii * value)) : Prop := {
  tidy_nodup : NoDup d.*1;
  tidy_lower : Forall (fun kv => lower kv.1 = kv.1) d;
  tidy_ok : Forall (fun kv => header_ok kv = true) d
}.

(** *** Query strings *)

(** [k1=v1&k2=v2...], the text [parse_query] takes apart. *)
Fixpoint query_string (kvs : list (list ascii * list ascii)) : list ascii :=
  match kvs with
  | [] => []
  | [(k, v)] => k ++ "="%char :: v
  | (k, v) :: rest => k ++ "="%char :: v ++ "&"%char :: query_string rest
  end.

(** A character that may stand in a key or value of a query. *)
Definition query_char (c : ascii) : bool :=
  negb (isspace c) && negb (bool_decide (c ∈ ["?"; "&"; "="]%char)).

(** The keys and values of a query are made of query characters. *)
Definition query_ok (kvs : list (list ascii * list ascii)) : bool :=
  forallb (fun kv => forallb query_char kv.1 && forallb query_char kv.2) kvs.

(** *** Multipart streams *)

(** [chunk_header]: the boundary line, and for a browser the content
    type. *)
Definition chunk_header (browser : bool) : list ascii :=
  txt "--DATA" ++ CRLF
  ++ (if browser then txt "content-type:image/jpeg" ++ CRLF else []).

(** One turn of the sending loop of [send_multipart]: the packet for
    [data]. *)
Definition packet (browser : bool) (data : text) : list ascii :=
  chunk_header browser
  ++ (txt "Content-Length:" ++ str_of_int (Z.of_nat (length data)) ++ CRLF)
  ++ CRLF ++ data ++ CRLF.

(** One turn of the sending loop: a blocking read of the buffer, then one
    packet pushed after [out].  [None] when the read waits for the next
    write. *)
Definition send_turn (browser : bool) (lock : nat)
    (b : Buffers.DataBuffer (list ascii)) (out : list ascii)
    : option (Buffers.DataBuffer (list ascii) * list ascii) :=
  match Buffers.read lock true b with
  | Buffers.Ret (Some data) b' => Some (b', out ++ packet browser data)
  | _ => None
  end.

(** The local variables of [parse_multipart]. *)
Record chunk_state := mkChunk {
  boundary : bool;
  headers : bool;
  chunk_length : option Z
}.

Definition no_chunk : chunk_state := mkChunk false false None.

(** How the [for] loop over the chunk headers ends. *)
Inductive chunk_headers :=
  | HeadersDone (len : option Z) (h : SocketHandler)   (* blank line: break *)
  | TooMany (len : option Z) (h : SocketHandler)       (* the [else] of the loop *)
  | Bad (h : SocketHandler)                            (* an exception: "BAD" *)
  | HeadersHang.

(** The [for] loop; [n] turns are left.  A failed read leaves [line] as
    [None], whose [split] raises; [int] is applied to the text after the
    colon as it is. *)
Fixpoint chunk_header_loop (n : nat) (len : option Z) (h : SocketHandler)
    : chunk_headers :=
  match n with
  | O => TooMany len (shutdown h)
  | S n' =>
      match read_line 256 h with
      | Spins => HeadersHang
      | Failed h' | Raised h' => Bad (shutdown h')
      | Got [] h' => HeadersDone len h'
      | Got line h' =>
          match split_once ":"%char line with
          | None => Bad (shutdown h')
          | Some (key, val) =>
              if decide (lower key = txt "content-length") then
                match int val with
                | None => Bad (shutdown h')
                | Some l => chunk_header_loop n' (Some l) h'
                end
              else chunk_header_loop n' len h'
          end
      end
  end.

(** How [parse_multipart] ends. *)
Inductive multipart :=
  | Ended (h : SocketHandler) (b : Buffers.DataBuffer (option (list ascii)))
  | Waits.                    (* a read that never returns *)

(** The [while] loop.  Every turn consumes at least one byte or sets the
    exit flag, so [fuel] counts the bytes left, plus two. *)
Fixpoint parse_multipart_loop (fuel : nat) (st : chunk_state) (h : SocketHandler)
    (b : Buffers.DataBuffer (option (list ascii))) : multipart :=
  if h_exit h then Ended h b
  else
    match fuel with
    | O => Waits
    | S fuel' =>
        if negb (boundary st) then
          match read_line 32 h with
          | Spins => Waits
          | Raised h' => Ended (shutdown h') b
          | Got [] h' => parse_multipart_loop fuel' st h' b
          | Got _ h' | Failed h' =>
              parse_multipart_loop fuel'
                (mkChunk true (headers st) (chunk_length st)) h' b
          end
        else if negb (headers st) then
          match chunk_header_loop 5 (chunk_length st) h with
          | HeadersHang => Waits
          | Bad h' => Ended h' b
          | TooMany len h' =>
              parse_multipart_loop fuel' (mkChunk true false len) h' b
          | HeadersDone len h' =>
              parse_multipart_loop fuel' (mkChunk true true len) h' b
          end
        else
          match chunk_length st with
          | Some l =>
              if l =? 0 then Ended (shutdown h) b
              else
                match read_exact l h with
                | Spins => Waits
                | Raised h' => Ended (shutdown h') b    (* "BAD" *)
                | Failed h' =>
                    parse_multipart_loop fuel' no_chunk h' (Buffers.write None b)
                | Got data h' =>
                    parse_multipart_loop fuel' no_chunk h'
                      (Buffers.write (Some data) b)
                end
          | None => Ended (shutdown h) b
          end
    end.

Definition parse_multipart (h : SocketHandler)
    (b : Buffers.DataBuffer (option (list ascii))) : multipart :=
  parse_multipart_loop (S (S (length (pull_buffer h)))) no_chunk h b.

(** Sample data: two image chunks, and a request built with the [add_]
    methods. *)
Definition two_frames : list (list ascii) := [txt "JPEG-1"; txt "JPEG-22"].

Definition thirty_two_headers : list (list ascii * value) :=
  replicate 32 (txt "x", Str (txt "1")).

Definition crawler : Request :=
  mkRequest (Some (txt "GET")) None None (txt "HTTP/1.1") (Some (txt "/")) []
            [(txt "User-Agent", Str (txt "Mozilla/5.0 (compatible; examplebot/2.1)"))]
            None.

Definition hello : Request :=
  mkRequest (Some (txt "INIT")) None None (txt "HTTP/1.1") (Some (txt "/")) []
            [(txt "client", Str (txt "pi-A"))] None.

Definition ingest : Request :=
  build (txt "INGEST") (txt "/") (txt "HTTP/1.1")
        [(txt "Name", Str (txt "cam-1")); (txt "NAME", Str (txt "cam-2"))]
        (txt "payload").

End Wire.

(** ** Host and worker nodes, and the socket hand-over ([main/lib/lib.py]) *)

Module Hosts.
Import Nodes.

(** What a SocketPackage carries besides the raw socket: the id of the
    handler it was made from ([None] for a raw socket) and the fields of
    the request.  [__init__] sets the request attributes only when a
    request is given; [p_request = None] is a package without them. *)
Record SocketPackage := mkPackage {
  p_id : option string;
  p_request : option Codec.Request
}.

(** [SocketPackage(sock, request)]; [handler_id] is [sock.id] when [sock] is
    a SocketHandler. *)
Definition pack (handler_id : option string) (request : option Codec.Request)
    : SocketPackage :=
  mkPackage handler_id request.

(** [unpack]: the id, the new handler and the request.  [fresh] is the
    uuid a handler without an id gives itself; [None] is the
    [AttributeError] of reading [self.request] on a package made without a
    request. *)
Definition unpack (fresh : string) (p : SocketPackage)
    : option (string * SocketHandler * Codec.Request) :=
  match p_request p with
  | None => None
  | Some req =>
      let id := match p_id p with
                | Some i => if String.eqb i "" then fresh else i
                | None => fresh
                end in
      Some (id, mkHandler "SOCKET" false, req)
  end.

Record WorkerNode := mkWorker {
  worker_node : Node;
  source_id : option string     (* self.source_id *)
}.

Record HostNode := mkHost {
  host_node : Node;
  automatic_shutdown : bool;    (* self.automatic_shutdown *)
  pipes : gmap string string    (* worker id to the name of its pipe *)
}.

Section Logging.
(** [Base.debug] (with its level) or [Base.display] (no level) of a line
    whose text [message] does not keep: any effect on the console. *)
Variable say : option Z -> Console -> Console.

(** [handler.halt()] on the handler registered under [id]: the registry
    holds the handler itself, so its exit flag changes there. *)
Definition halt_socket (id : string) (n : Node) : Node :=
  mkNode (n_name n) (n_exit n) (n_close n)
         (alter (fun h => mkHandler (h_name h) true) id (sockets n)).

(** [Node.transfer_socket(pipe, socket_handler, request)]: [handler_id] is
    the id of [socket_handler] when it is a handler, [request] the id of
    [request.origin] with the request; [outbox] is what the pipe was sent.
    [None] is the [AttributeError] of [request.origin] on the default
    [request=None]; [prefix] is the prefix of the debug line of
    [remove_socket]. *)
Definition transfer_socket (prefix : string) (handler_id : option string)
    (request : option (string * Codec.Request)) (n : Node) (c : Console)
    (outbox : list SocketPackage)
    : option (Node * Console * list SocketPackage) :=
  match request with
  | None => None
  | Some (origin_id, req) =>
      let n1 := halt_socket origin_id n in
      let outbox' := outbox ++ [pack handler_id (Some req)] in
      let '(n2, c2) := remove_socket prefix origin_id n1 c in
      Some (n2, say (Some 2) c2, outbox')
  end.

(** The synchronous part of [Node.HANDLE(request)]: a request method
    starts a thread for [_execute] (kept in the list of started calls), a
    response code is ignored, neither is an error raised through
    [throw]. *)
Definition HANDLE (req : Codec.Request) (n : Node) (c : Console)
    (started : list Codec.Request) : Node * Console * list Codec.Request :=
  if Codec.truthy (Codec.method req) then (n, c, started ++ [req])
  else if Codec.truthy_val (Codec.code req) then (n, c, started)
  else (shutdown n, say None c, started).

(** [Node.receive_socket(package)]; [handler.run()] only starts threads. *)
Definition receive_socket (fresh : string) (p : SocketPackage) (n : Node)
    (c : Console) (started : list Codec.Request)
    : option (Node * Console * list Codec.Request) :=
  let c0 := say (Some 2) c in
  match unpack fresh p with
  | None => None
  | Some (id, handler, req) =>
      let name := if decide (Codec.method req = Some (Codec.txt "SIGN_ON"))
                  then "DATA-SOURCE"%string else "REQUESTER"%string in
      let '(n1, c1, started') := HANDLE req n c0 started in
      let n2 := add_socket id (mkHandler name (h_exit handler)) n1 in
      Some (n2, say (Some 2) c1, started')
  end.

(** [WorkerNode.remove_socket]; [None] is the [KeyError] of
    [self.sockets[socket_id]] in the log line. *)
Definition worker_remove_socket (prefix socket_id : string) (w : WorkerNode)
    (c : Console) : option (WorkerNode * Console) :=
  if decide (Some socket_id = source_id w) then
    match sockets (worker_node w) !! socket_id with
    | None => None
    | Some _ =>
        Some (mkWorker (shutdown (worker_node w)) (source_id w), say (Some 2) c)
    end
  else
    let '(n, c') := remove_socket prefix socket_id (worker_node w) c in
    Some (mkWorker n (source_id w), c').

(** [HostNode.remove_worker]; [None] is the [AttributeError] of
    [pipe.name] in the log line for an id that is not in the index. *)
Definition remove_worker (pipe_id : string) (h : HostNode) (c : Console)
    : option (HostNode * Console) :=
  match pipes h !! pipe_id with
  | None => None
  | Some _ =>
      let left := delete pipe_id (pipes h) in
      if automatic_shutdown h && bool_decide (left = ∅) then
        Some (mkHost (shutdown (host_node h)) (automatic_shutdown h) left,
              say (Some 1) c)
      else Some (mkHost (host_node h) (automatic_shutdown h) left, c)
  end.
End Logging.

(** A console effect for concrete runs: nothing is printed. *)
Definition silent (level : option Z) (c : Console) : Console := c.

(** A host with two workers, and a worker whose data source is still
    running. *)
Definition host_of_two : HostNode :=
  mkHost (mkNode "HOST" false false ∅) true
         {[ "w1"%string := "WORKER-1"%string; "w2"%string := "WORKER-2"%string ]}.

Definition worker_with_source : WorkerNode :=
  mkWorker node_with_live_socket (Some "s1"%string).

End Hosts.

(** ** DatabaseController: binding sessions ([lib/database.py]) *)

Module Ports.
Import Controller.

(** The ports in the order the dictionary lists them; its keys never
    change after [__init__]. *)
Definition port_order : list Z := [7000; 7001; 7002].

(** The [for] loop of [new_playback] over the ports still to visit:
    [port] is the candidate so far, the flag tells whether the loop ended
    in [break]. *)
Fixpoint find_port (wanted : string) (ports : list Z) (table : gmap Z port_info)
    (port : option Z) : option Z * bool :=
  match ports with
  | [] => (port, false)
  | p :: rest =>
      match table !! p with
      | None => find_port wanted rest table port
      | Some info =>
          if negb (has_file info) then find_port wanted rest table (Some p)
          else if decide (file info = Some wanted) then (Some p, true)
          else find_port wanted rest table port
      end
  end.

Section Ports.
Variable backend_stops : Z -> bool.

(** [new_playback(file, ID)]: how the call ends and the servers it
    started with [start_playback_server]. *)
Definition new_playback (wanted ID : string) (c : DatabaseController)
    : outcome * list (string * Z) :=
  match find_port wanted port_order (playback_ports c) None with
  | (None, _) => (Raised c, [])            (* no ports available *)
  | (Some port, found) =>
      let servers := if found then [] else [(wanted, port)] in
      match playback_ports c !! port with
      | None => (Raised c, servers)
      | Some info =>
          let c1 := mkController
                      (sessions c)
                      (<[port := mkInfo (Some wanted) (count info + 1)]>
                         (playback_ports c))
                      (shut_down c) in
          if count info + 1 <=? 0 then (Raised c1, servers)
          else
            match remove backend_stops ID c1 with
            | Raised c2 => (Raised c2, servers)
            | Done c2 =>
                (Done (mkController
                         (<[ID := PlaybackDatabase port wanted]> (sessions c2))
                         (playback_ports c2) (shut_down c2)),
                 servers)
            end
      end
  end.

(** [new_live(ID)]; [live_answers] tells whether the live backend answers
    the [START_TIME] query that [LiveDatabase.__init__] makes. *)
Definition new_live (live_answers : bool) (ID : string) (c : DatabaseController)
    : outcome :=
  match remove backend_stops ID c with
  | Raised c1 => Raised c1
  | Done c1 =>
      if live_answers then
        Done (mkController (<[ID := LiveDatabase]> (sessions c1))
                           (playback_ports c1) (shut_down c1))
      else Raised c1
  end.
End Ports.

(** Whether a store is a playback store on [port]. *)
Definition bound_to (port : Z) (db : Database) : bool :=
  match db with
  | PlaybackDatabase p _ => bool_decide (p = port)
  | LiveDatabase => false
  end.

(** The sessions bound to [port]. *)
Definition on_port (port : Z) (c : DatabaseController) : gmap string Database :=
  filter (fun kv => bound_to port kv.2 = true) (sessions c).

(** What a binding adds to the count of [port]. *)
Definition weight (port : Z) (o : option Database) : nat :=
  match o with
  | Some db => if bound_to port db then 1 else 0
  | None => 0
  end.

(** The reference counts are exact: every port counts the sessions bound
    to it (one more for the port [pending], whose count [new_playback] has
    raised before it binds the session), a port in use has a file, and a
    session's file is its port's. *)
Record counted_plus (pending : option Z) (c : DatabaseController) : Prop := {
  counted_keys : forall p, is_Some (playback_ports c !! p) <-> p ∈ port_order;
  counted_size : forall p info, playback_ports c !! p = Some info ->
                   count info
                   = Z.of_nat (size (on_port p c))
                     + (if decide (pending = Some p) then 1 else 0);
  counted_used : forall p info, playback_ports c !! p = Some info ->
                   0 < count info -> has_file info = true;
  counted_file : forall ID p f, sessions c !! ID = Some (PlaybackDatabase p f) ->
                   exists info, playback_ports c !! p = Some info
                                /\ file info = Some f
}.

Definition counted (c : DatabaseController) : Prop := counted_plus None c.

(** Whether some port already serves the file. *)
Definition serves (wanted : string) (c : DatabaseController) : bool :=
  existsb (fun p => match playback_ports c !! p with
                    | Some info => has_file info
                                   && bool_decide (file info = Some wanted)
                    | None => false
                    end) port_order.

(** Controllers serving one file to one and to two sessions, and a
    backend that always obeys the shutdown. *)
Definition one_viewer : DatabaseController :=
  mkController {[ "a"%string := PlaybackDatabase 7002 "run.rdb" ]}
               (<[7002 := mkInfo (Some "run.rdb"%string) 1]> (playback_ports init))
               [].

Definition two_viewers : DatabaseController :=
  mkController {[ "a"%string := PlaybackDatabase 7002 "run.rdb";
                  "b"%string := PlaybackDatabase 7002 "run.rdb" ]}
               (<[7002 := mkInfo (Some "run.rdb"%string) 2]> (playback_ports init))
               [].

Definition obedient (port : Z) : bool := true.

End Ports.

(** ** Sample batches for [write_data] *)

Module Batches.
Import Store.

Section Rows.
Context {F : Type} `{FloatOps F}.

(** Row [i] of a batch of sequences holds, for every column in order, the
    [i]-th value of that column under the column's key. *)
Definition row_of (i : nat) (data : list (string * cell)) (row : list (string * F))
    : Prop :=
  Forall2 (fun (kc : string * cell) (kv : string * F) =>
             kv.1 = kc.1 /\ exists xs, kc.2 = Seq xs /\ xs !! i = Some kv.2)
          data row.
End Rows.

(** Three rows of two columns, and a batch whose columns differ in
    length. *)
Definition three_rows : list (string * cell (F := Q)) :=
  [("time"%string, Seq [tenths 10002; tenths 20007; tenths 30000]);
   ("x"%string, Seq [1%Q; 2%Q; 3%Q])].

Definition ragged : list (string * cell (F := Q)) :=
  [("time"%string, Seq [tenths 10002; tenths 10007]);
   ("x"%string, Seq [1%Q])].

End Batches.

(** * Theorems *)

(** ** Facts about the ring buffer *)

Module RingFacts.
Import Py Ring.

Section Slices.
Context {A : Type}.
Implicit Types l : list A.

Lemma slice_from l (t : Z) :
  0 <= t <= Z.of_nat (length l) ->
  slice (Some t) None l = drop (Z.to_nat t) l.
Proof.
  intros Ht. unfold slice, clamp. simpl.
  destruct (Z.ltb_spec t 0); [lia|].
  rewrite Z.min_r, Z.max_r by lia.
  apply take_ge. rewrite length_drop. lia.
Qed.

Lemma slice_upto l (t : Z) :
  0 <= t <= Z.of_nat (length l) ->
  slice None (Some t) l = take (Z.to_nat t) l.
Proof.
  intros Ht. unfold slice, clamp. simpl.
  destruct (Z.ltb_spec t 0); [lia|].
  rewrite Z.min_r, Z.max_r by lia.
  by rewrite Z.sub_0_r.
Qed.

(** A window whose start is given from the end and is in range. *)
Lemma slice_window l (a b : Z) :
  a < 0 -> 0 <= a + Z.of_nat (length l) <= b -> b <= Z.of_nat (length l) ->
  slice (Some a) (Some b) l
  = take (Z.to_nat (b - (a + Z.of_nat (length l))))
         (drop (Z.to_nat (a + Z.of_nat (length l))) l).
Proof.
  intros Ha Hlo Hhi. unfold slice, clamp. simpl.
  destruct (Z.ltb_spec a 0); [|lia].
  destruct (Z.ltb_spec b 0); [lia|].
  rewrite !Z.min_r, !Z.max_r by lia. done.
Qed.

(** A window whose start lies before the first element starts at 0. *)
Lemma slice_window_clamped l (a b : Z) :
  a + Z.of_nat (length l) <= 0 -> 0 <= b <= Z.of_nat (length l) ->
  slice (Some a) (Some b) l = take (Z.to_nat b) l.
Proof.
  intros Ha Hb. unfold slice, clamp. simpl.
  destruct (Z.ltb_spec b 0); [lia|].
  rewrite (Z.min_r _ b), (Z.max_r 0 b) by lia.
  destruct (Z.ltb_spec a 0).
  - rewrite Z.max_l by lia. by rewrite Z.sub_0_r.
  - assert (a = 0) as -> by lia. rewrite Z.min_r, Z.max_r by lia.
    by rewrite Z.sub_0_r.
Qed.
End Slices.

Lemma sort_col_rotate (t : Z) (col : column) :
  0 <= t <= Z.of_nat (length col) ->
  sort_col t col = drop (Z.to_nat t) col ++ take (Z.to_nat t) col.
Proof.
  intros Ht. unfold sort_col. by rewrite slice_from, slice_upto.
Qed.

Lemma sort_col_length (t : Z) (col : column) :
  0 <= t <= Z.of_nat (length col) -> length (sort_col t col) = length col.
Proof.
  intros Ht. rewrite sort_col_rotate by done.
  rewrite length_app, length_drop, length_take. lia.
Qed.

Lemma sort_col_0 (col : column) : sort_col 0 col = col.
Proof.
  rewrite sort_col_rotate by lia. simpl. by rewrite app_nil_r.
Qed.

(** *** Rotations and single-slot updates *)

Section Rotation.
Context {A : Type}.
Implicit Types l : list A.

Lemma rot_length t l : length (rot t l) = length l.
Proof. unfold rot. rewrite length_app, length_drop, length_take. lia. Qed.

(** Writing the slot that lies [j] places after [t] (cyclically) is
    writing place [j] of the rotated list. *)
Lemma rot_insert t j l v :
  (t < length l)%nat -> (j < length l)%nat ->
  rot t (<[((t + j) mod length l)%nat := v]> l) = <[j := v]> (rot t l).
Proof.
  intros Ht Hj. unfold rot.
  destruct (decide (t + j < length l)%nat) as [Hlt|Hge].
  - rewrite Nat.mod_small by done.
    rewrite drop_insert_ge, take_insert_ge by lia.
    rewrite insert_app_l by (rewrite length_drop; lia).
    do 2 f_equal. lia.
  - assert (((t + j) mod length l)%nat = (t + j - length l)%nat) as ->.
    { rewrite <- (Nat.mod_small (t + j - length l) (length l)) by lia.
      replace (t + j)%nat with ((t + j - length l) + 1 * length l)%nat at 1 by lia.
      by rewrite Nat.Div0.mod_add. }
    rewrite drop_insert_lt, take_insert_lt by lia.
    replace j with (length (drop t l) + (t + j - length l))%nat at 2
      by (rewrite length_drop; lia).
    by rewrite insert_app_r.
Qed.

(** Advancing the rotation point by one moves the first element last. *)
Lemma rot_succ t l :
  (t < length l)%nat ->
  rot ((t + 1) mod length l) l = drop 1 (rot t l) ++ take 1 (rot t l).
Proof.
  intros Ht. unfold rot.
  assert (length (drop t l) = length l - t)%nat as Hd by apply length_drop.
  rewrite drop_app_le, take_app_le by lia. rewrite drop_drop.
  destruct (decide (t + 1 < length l)%nat) as [Hlt|Hge].
  - rewrite Nat.mod_small by done.
    rewrite <- app_assoc. f_equal. by rewrite <- take_take_drop.
  - assert (t + 1 = length l)%nat as Heq by lia.
    rewrite Heq, Nat.Div0.mod_same.
    rewrite drop_0, take_0, app_nil_r, (drop_ge l (length l)) by lia. simpl.
    rewrite <- (take_drop t l) at 1. f_equal.
    symmetry. apply take_ge. lia.
Qed.

Lemma newest_all (k : Z) l : Z.of_nat (length l) <= k -> newest k l = l.
Proof.
  intros Hk. unfold newest.
  by replace (length l - Z.to_nat k)%nat with 0%nat by lia.
Qed.

Lemma newest_length (k : Z) l :
  0 <= k -> Z.of_nat (length (newest k l)) = Z.min k (Z.of_nat (length l)).
Proof. intros Hk. unfold newest. rewrite length_drop. lia. Qed.

Lemma newest_app_newest (k : Z) l1 l2 :
  Z.of_nat (length l2) <= k ->
  newest k (newest (k - Z.of_nat (length l2)) l1 ++ l2) = newest k (l1 ++ l2).
Proof.
  intros Hk.
  rewrite (newest_all k (_ ++ l2))
    by (rewrite length_app, Nat2Z.inj_add, newest_length; lia).
  unfold newest. rewrite drop_app, length_app.
  replace (length l1 + length l2 - Z.to_nat k - length l1)%nat with 0%nat by lia.
  simpl. do 2 f_equal. lia.
Qed.

Lemma newest_newest_app (k : Z) l1 l2 :
  0 <= k -> newest k (newest k l1 ++ l2) = newest k (l1 ++ l2).
Proof.
  intros Hk.
  destruct (decide (Z.of_nat (length l1) <= k)) as [Hle|Hgt].
  - by rewrite (newest_all k l1).
  - pose proof (newest_length k l1 Hk) as Hn.
    unfold newest at 1 3.
    rewrite !length_app, !drop_app.
    replace (length (newest k l1) + length l2 - Z.to_nat k
             - length (newest k l1))%nat
      with (length l1 + length l2 - Z.to_nat k - length l1)%nat by lia.
    f_equal. unfold newest. rewrite drop_drop. f_equal.
    rewrite length_drop. lia.
Qed.
End Rotation.

Lemma sort_col_rot (t : Z) (col : column) :
  0 <= t <= Z.of_nat (length col) -> sort_col t col = rot (Z.to_nat t) col.
Proof. apply sort_col_rotate. Qed.

(** *** Dictionaries and item assignment *)

Section DictFacts.
Context {K V : Type} `{EqDecision K}.
Implicit Types d : list (K * V).

Lemma dget_dset_eq k v d : dget k (dset k v d) = Some v.
Proof.
  induction d as [|[k' v'] d IH]; simpl.
  - by rewrite decide_True.
  - destruct (decide (k = k')) as [->|Hne]; simpl.
    + by rewrite decide_True.
    + by rewrite decide_False.
Qed.

Lemma dget_dset_ne k k' v d : k <> k' -> dget k' (dset k v d) = dget k' d.
Proof.
  intros Hne. induction d as [|[k2 v2] d IH]; simpl.
  - by rewrite decide_False.
  - destruct (decide (k = k2)) as [->|Hne2]; simpl.
    + by rewrite !decide_False.
    + destruct (decide (k' = k2)); [done|]. exact IH.
Qed.

Lemma dget_elem k v d : dget k d = Some v -> (k, v) ∈ d.
Proof.
  induction d as [|[k' v'] d IH]; simpl; [done|].
  destruct (decide (k = k')) as [->|Hne].
  - intros [= ->]. apply list_elem_of_here.
  - intros Hd. apply list_elem_of_further. by apply IH.
Qed.

Lemma dset_Forall (P : V -> Prop) k v d :
  Forall (fun nc : K * V => P nc.2) d -> P v ->
  Forall (fun nc : K * V => P nc.2) (dset k v d).
Proof.
  intros Hd Hv. induction Hd as [|[k' v'] d Hx Hd IH]; simpl.
  - by constructor.
  - destruct (decide (k = k')); constructor; done.
Qed.

Lemma dget_Forall (P : V -> Prop) k v d :
  Forall (fun nc : K * V => P nc.2) d -> dget k d = Some v -> P v.
Proof.
  intros Hd Hk%dget_elem. rewrite Forall_forall in Hd. exact (Hd _ Hk).
Qed.
End DictFacts.

Lemma setitem_in_range {A} (h : Z) (v : A) (l : list A) :
  0 <= h < Z.of_nat (length l) ->
  setitem h v l = Some (<[Z.to_nat h := v]> l).
Proof.
  intros Hh. unfold setitem.
  destruct (Z.ltb_spec h (- Z.of_nat (length l))); [lia|].
  destruct (Z.leb_spec (Z.of_nat (length l)) h); [lia|]. simpl.
  destruct (Z.ltb_spec h 0); [lia|done].
Qed.

Lemma setitem_length {A} (h : Z) (v : A) (l l' : list A) :
  setitem h v l = Some l' -> length l' = length l.
Proof.
  unfold setitem. destruct (_ || _); [done|].
  intros [= <-]. apply length_insert.
Qed.

Lemma setitem_twice {A} (h : Z) (v : A) (l l' : list A) :
  setitem h v l = Some l' -> setitem h v l' = Some l'.
Proof.
  unfold setitem. destruct (_ || _) eqn:E; [done|].
  intros [= <-]. rewrite length_insert, E. f_equal.
  apply list_insert_insert_eq.
Qed.

(** What one pass over the names does to the table: a named column gets
    the new value in slot [head]; the others are untouched. *)
Lemma write_row_spec i new h cols d d' :
  write_row i new h cols d = Some d' ->
  forall name,
    dget name d'
    = if decide (name ∈ cols)
      then col ← dget name d; src ← dget name new; v ← getitem i src;
           setitem h v col
      else dget name d.
Proof.
  revert d. induction cols as [|c cols IH]; intros d Hw name; simpl in Hw.
  - injection Hw as <-. by rewrite decide_False by apply not_elem_of_nil.
  - destruct (dget c new) as [src|] eqn:Hsrc; [|done]. simpl in Hw.
    destruct (getitem i src) as [v|] eqn:Hv; [|done]. simpl in Hw.
    destruct (dget c d) as [dst|] eqn:Hdst; [|done]. simpl in Hw.
    destruct (setitem h v dst) as [dst'|] eqn:Hset; [|done]. simpl in Hw.
    rewrite (IH _ Hw name).
    destruct (decide (name = c)) as [->|Hne].
    + rewrite dget_dset_eq, Hdst, Hsrc. simpl. rewrite Hv. simpl.
      assert (c ∈ c :: cols) as Hhere by apply list_elem_of_here.
      rewrite (decide_True (P := c ∈ c :: cols)) by exact Hhere.
      destruct (decide (c ∈ cols)); [|by rewrite Hset].
      rewrite Hset. exact (setitem_twice _ _ _ _ Hset).
    + rewrite dget_dset_ne by done.
      destruct (decide (name ∈ cols)) as [Hin|Hnin].
      * by rewrite (decide_True (P := name ∈ c :: cols)) by (by apply list_elem_of_further).
      * rewrite (decide_False (P := name ∈ c :: cols)); [done|].
        intros [?|?]%elem_of_cons; done.
Qed.

Lemma write_row_cols i new h cols d d' (n : nat) :
  write_row i new h cols d = Some d' ->
  Forall (fun nc : string * column => length nc.2 = n) d ->
  Forall (fun nc : string * column => length nc.2 = n) d'.
Proof.
  revert d. induction cols as [|c cols IH]; intros d Hw Hd; simpl in Hw.
  - by injection Hw as <-.
  - destruct (dget c new) as [src|] eqn:Hsrc; [|done]. simpl in Hw.
    destruct (getitem i src) as [v|] eqn:Hv; [|done]. simpl in Hw.
    destruct (dget c d) as [dst|] eqn:Hdst; [|done]. simpl in Hw.
    destruct (setitem h v dst) as [dst'|] eqn:Hset; [|done]. simpl in Hw.
    apply (IH _ Hw).
    apply (dset_Forall (fun c : column => length c = n)); [done|].
    rewrite (setitem_length _ _ _ _ Hset).
    exact (dget_Forall (fun c : column => length c = n) _ _ _ Hd Hdst).
Qed.

(** *** The invariant, unfolded *)

Lemma invariant_inv r : invariant r = true <-> inv r.
Proof.
  unfold invariant.
  rewrite !andb_true_iff, !Z.leb_le, Z.eqb_eq, forallb_forall.
  split.
  - intros [[[H1 H2] H3] H4]. split; [lia| |done].
    apply Forall_forall. intros nc Hnc.
    apply list_elem_of_In in Hnc. specialize (H3 _ Hnc). by apply Z.eqb_eq.
  - intros [H1 H2 H3]. repeat split; try lia.
    intros nc Hnc. apply list_elem_of_In in Hnc.
    rewrite Forall_forall in H2. specialize (H2 _ Hnc). by apply Z.eqb_eq.
Qed.

Lemma tail_in_range_spec r :
  tail_in_range r = true <-> 0 < r_size r /\ 0 <= r_tail r < r_size r.
Proof.
  unfold tail_in_range. rewrite !andb_true_iff, !Z.ltb_lt, Z.leb_le. lia.
Qed.

Lemma fmap_cols_ext (f g : column -> column) (d : table) (P : column -> Prop) :
  Forall (fun nc : string * column => P nc.2) d ->
  (forall c, P c -> f c = g c) ->
  prod_map id f <$> d = prod_map id g <$> d.
Proof.
  intros Hd Hfg. apply Forall_fmap_ext_1.
  eapply Forall_impl; [exact Hd|].
  intros [n c] Hc. unfold prod_map. simpl in *. by rewrite Hfg.
Qed.

Lemma fmap_cols_compose (f g : column -> column) (d : table) :
  prod_map id f <$> (prod_map id g <$> d) = prod_map id (f ∘ g) <$> d.
Proof.
  induction d as [|[n c] d IH]; [done|]. rewrite !fmap_cons, IH. done.
Qed.

Lemma fmap_cols_id (d : table) : prod_map id (sort_col 0) <$> d = d.
Proof.
  induction d as [|[n c] d IH]; [done|].
  rewrite fmap_cons, IH. unfold prod_map. simpl. by rewrite sort_col_0.
Qed.

Lemma chrono_length r col :
  0 <= r_tail r <= r_size r -> 0 <= r_length r <= r_size r ->
  Z.of_nat (length col) = r_size r ->
  Z.of_nat (length (chrono r col)) = r_length r.
Proof.
  intros Ht Hl Hc. unfold chrono.
  rewrite length_take, sort_col_length by lia. lia.
Qed.

(** Shrinking below the fill level keeps the last [k] points of a column. *)
Lemma shrink_col_newest r k col :
  0 <= r_tail r <= r_size r -> 0 <= r_length r <= r_size r ->
  Z.of_nat (length col) = r_size r ->
  0 <= k <= r_length r -> (0 < k \/ r_length r < r_size r) ->
  shrink_col k (r_size r) (r_length r) (sort_col (r_tail r) col)
  = newest k (chrono r col).
Proof.
  intros Ht Hl Hc Hk Hk'. unfold shrink_col, newest.
  pose proof (sort_col_length (r_tail r) col ltac:(lia)) as Hs.
  rewrite slice_window by lia.
  unfold chrono. rewrite length_take, Hs.
  rewrite take_drop_commute. f_equal; [lia|]. f_equal. lia.
Qed.

(** *** Writing points *)

Lemma write_row_src i new h cols d d' name :
  write_row i new h cols d = Some d' -> name ∈ cols ->
  exists src v, dget name new = Some src /\ getitem i src = Some v.
Proof.
  revert d. induction cols as [|c cols IH]; intros d Hw Hin; simpl in Hw.
  - by apply not_elem_of_nil in Hin.
  - destruct (dget c new) as [src|] eqn:Hsrc; [|done]. simpl in Hw.
    destruct (getitem i src) as [v|] eqn:Hv; [|done]. simpl in Hw.
    destruct (dget c d) as [dst|] eqn:Hdst; [|done]. simpl in Hw.
    destruct (setitem h v dst) as [dst'|] eqn:Hset; [|done]. simpl in Hw.
    apply elem_of_cons in Hin as [->|Hin]; [by eauto|]. by eapply IH.
Qed.

Lemma write_point_facts i new r r' :
  inv r -> tail_in_range r = true -> write_point i new r = Some r' ->
  step_facts r r'.
Proof.
  intros [Hl Hc Hh] Ht Hw. pose proof Ht as Ht'%tail_in_range_spec.
  unfold write_point in Hw.
  destruct (write_row _ _ _ _ _) as [d|] eqn:Hrow; [|done]. simpl in Hw.
  unfold move_head, move_tail, pymod in Hw. simpl in Hw.
  assert ((r_size r =? 0) = false) as E by (apply Z.eqb_neq; lia).
  rewrite E in Hw. simpl in Hw.
  assert (Forall (fun nc : string * column => Z.of_nat (length nc.2) = r_size r) d)
    as Hd.
  { eapply Forall_impl.
    - apply (write_row_cols _ _ _ _ _ _ (Z.to_nat (r_size r)) Hrow).
      eapply Forall_impl; [exact Hc|]. intros ? ?. simpl in *. lia.
    - intros ? ?. simpl in *. lia. }
  destruct (Z.eqb_spec (r_size r) (r_length r)) as [Hfull|Hnot];
    rewrite ?E in Hw; simpl in Hw.
  - injection Hw as <-. split; simpl; try done; try lia.
    + split; simpl; [lia|done|].
      rewrite Hh, <- Hfull.
      rewrite Zplus_mod_idemp_l, Zplus_mod_idemp_l. f_equal. lia.
    + apply tail_in_range_spec. simpl.
      pose proof (Z.mod_pos_bound (r_tail r + 1) (r_size r)). lia.
  - injection Hw as <-. split; simpl; try done; try lia.
    split; simpl; [lia|done|].
    rewrite Hh, Zplus_mod_idemp_l. f_equal. lia.
Qed.

Lemma head_slot r :
  inv r -> tail_in_range r = true ->
  0 <= r_head r < r_size r
  /\ Z.to_nat (r_head r)
     = ((Z.to_nat (r_tail r) + Z.to_nat (r_length r)) mod Z.to_nat (r_size r))%nat.
Proof.
  intros [Hl Hc Hh] Ht%tail_in_range_spec.
  pose proof (Z.mod_pos_bound (r_tail r + r_length r) (r_size r)).
  split; [lia|].
  rewrite Hh, Z2Nat.inj_mod, Z2Nat.inj_add by lia. done.
Qed.

(** One written point extends the chronological contents of every named
    column, dropping the oldest point when the ring is full. *)
Lemma write_point_chrono i new r r' name col :
  inv r -> tail_in_range r = true -> write_point i new r = Some r' ->
  name ∈ r_names r -> dget name (r_data r) = Some col ->
  exists src v col',
    dget name new = Some src /\ getitem i src = Some v
    /\ dget name (r_data r') = Some col'
    /\ chrono r' col' = newest (r_size r) (chrono r col ++ [v]).
Proof.
  intros Hinv Ht Hw Hin Hcol.
  pose proof (head_slot r Hinv Ht) as [Hhead Hslot].
  pose proof Hinv as [Hl Hc Hh]. pose proof Ht as Ht'%tail_in_range_spec.
  pose proof (dget_Forall (fun c : column => Z.of_nat (length c) = r_size r)
                _ _ _ Hc Hcol) as Hlen. simpl in Hlen.
  unfold write_point in Hw.
  destruct (write_row _ _ _ _ _) as [d|] eqn:Hrow; [|done]. simpl in Hw.
  destruct (write_row_src _ _ _ _ _ _ _ Hrow Hin) as (src & v & Hsrc & Hv).
  pose proof (write_row_spec _ _ _ _ _ _ Hrow name) as Hd.
  rewrite decide_True, Hcol, Hsrc in Hd by done. simpl in Hd.
  rewrite Hv in Hd. simpl in Hd.
  rewrite setitem_in_range in Hd by lia.
  exists src, v, (<[Z.to_nat (r_head r) := v]> col).
  split; [done|]. split; [done|].
  unfold move_head, move_tail, pymod in Hw. simpl in Hw.
  assert ((r_size r =? 0) = false) as E by (apply Z.eqb_neq; lia).
  rewrite E in Hw. simpl in Hw.
  assert (length col = Z.to_nat (r_size r)) as Hlen' by lia.
  destruct (Z.eqb_spec (r_size r) (r_length r)) as [Hfull|Hnot];
    rewrite ?E in Hw; simpl in Hw;
    injection Hw as <-; simpl; (split; [done|]); unfold chrono; simpl.
  - (* full: the oldest point is overwritten *)
    pose proof (Z.mod_pos_bound (r_tail r + 1) (r_size r) ltac:(lia)) as Hb.
    rewrite (sort_col_rot (r_tail r)) by lia.
    rewrite sort_col_rot
      by (rewrite length_insert;
          generalize dependent ((r_tail r + 1) mod r_size r); intros; lia).
    rewrite Z2Nat.inj_mod, Z2Nat.inj_add by lia.
    rewrite Hslot, <- Hfull, <- Hlen'.
    rewrite take_ge by (rewrite rot_length, length_insert; lia).
    rewrite take_ge by (rewrite rot_length; lia).
    replace (Z.to_nat 1) with 1%nat by done.
    rewrite <- (length_insert col ((Z.to_nat (r_tail r) + length col) mod length col) v)
      at 1.
    rewrite rot_succ by (rewrite length_insert; lia).
    replace ((Z.to_nat (r_tail r) + length col) mod length col)%nat
      with ((Z.to_nat (r_tail r) + 0) mod length col)%nat
      by (rewrite Nat.add_0_r, <- Nat.Div0.add_mod_idemp_r, Nat.Div0.mod_same,
            Nat.add_0_r; done).
    rewrite rot_insert by lia.
    pose proof (rot_length (Z.to_nat (r_tail r)) col) as Hrl.
    destruct (rot (Z.to_nat (r_tail r)) col) as [|x xs]; simpl in Hrl; [lia|].
    unfold newest. simpl. rewrite length_app. simpl.
    replace (S (length xs + 1) - Z.to_nat (r_size r))%nat with 1%nat by lia.
    simpl. by rewrite drop_0, take_0.
  - (* not full: the point fills the slot after the newest one *)
    rewrite !sort_col_rot by (rewrite ?length_insert; lia).
    rewrite Hslot, <- Hlen'.
    rewrite rot_insert by lia.
    rewrite Z2Nat.inj_add by lia. replace (Z.to_nat 1) with 1%nat by done.
    rewrite Nat.add_1_r.
    erewrite take_S_r
      by (apply list_lookup_insert_eq; rewrite rot_length; lia).
    rewrite take_insert_ge by lia.
    rewrite newest_all; [done|].
    rewrite length_app, length_take, rot_length. simpl. lia.
Qed.

Lemma write_points_facts idxs new r r' :
  inv r -> tail_in_range r = true -> write_points idxs new r = Some r' ->
  inv r' /\ tail_in_range r' = true
  /\ r_size r' = r_size r /\ r_names r' = r_names r
  /\ r_head r' = (r_head r + Z.of_nat (length idxs)) mod r_size r
  /\ r_length r' = Z.min (r_size r) (r_length r + Z.of_nat (length idxs)).
Proof.
  revert r. induction idxs as [|i idxs IH]; intros r Hinv Ht Hw; simpl in Hw.
  - injection Hw as <-. pose proof Hinv as [Hl Hc Hh].
    apply tail_in_range_spec in Ht as Ht'.
    do 4 (split; [done|]). simpl. split.
    + rewrite Z.add_0_r, Hh, Z.mod_mod; [done|lia].
    + lia.
  - destruct (write_point i new r) as [r1|] eqn:H1; [|done]. simpl in Hw.
    destruct (write_point_facts _ _ _ _ Hinv Ht H1) as [Hi1 Ht1 Hs1 Hn1 Hh1 Hl1].
    destruct (IH r1 Hi1 Ht1 Hw) as (Hi & Ht2 & Hs & Hn & Hh & Hl).
    apply tail_in_range_spec in Ht as Ht'.
    do 2 (split; [done|]). do 2 (split; [congruence|]). split.
    + rewrite Hh, Hh1, Hs1, Zplus_mod_idemp_l. f_equal. simpl length. lia.
    + rewrite Hl, Hl1, Hs1. simpl length. lia.
Qed.

Lemma write_points_chrono idxs new r r' name col src :
  inv r -> tail_in_range r = true -> write_points idxs new r = Some r' ->
  name ∈ r_names r -> dget name (r_data r) = Some col ->
  dget name new = Some src ->
  exists vs col',
    Forall2 (fun i v => getitem i src = Some v) idxs vs
    /\ dget name (r_data r') = Some col'
    /\ chrono r' col' = newest (r_size r) (chrono r col ++ vs).
Proof.
  intros Hinv Ht Hw Hin Hcol Hsrc.
  revert r col Hinv Ht Hw Hin Hcol.
  induction idxs as [|i idxs IH]; intros r col Hinv Ht Hw Hin Hcol;
    simpl in Hw.
  - injection Hw as <-.
    exists [], col. repeat split; try done.
    rewrite app_nil_r, newest_all; [done|].
    pose proof Hinv as [Hl Hc Hh]. apply tail_in_range_spec in Ht.
    pose proof (dget_Forall (fun c : column => Z.of_nat (length c) = r_size r)
                  _ _ _ Hc Hcol) as Hlen. simpl in Hlen.
    pose proof (chrono_length r col ltac:(lia) Hl Hlen). lia.
  - destruct (write_point i new r) as [r1|] eqn:H1; [|done]. simpl in Hw.
    destruct (write_point_facts _ _ _ _ Hinv Ht H1) as [Hi1 Ht1 Hs1 Hn1 Hh1 Hl1].
    destruct (write_point_chrono _ _ _ _ _ _ Hinv Ht H1 Hin Hcol)
      as (src' & v & col1 & Hsrc' & Hv & Hcol1 & Hch1).
    assert (src' = src) as -> by congruence.
    destruct (IH r1 col1 Hi1 Ht1 Hw ltac:(congruence) Hcol1)
      as (vs & col' & Hvs & Hcol' & Hch).
    exists (v :: vs), col'. split; [by constructor|]. split; [done|].
    rewrite Hch, Hch1, Hs1.
    apply tail_in_range_spec in Ht.
    rewrite newest_newest_app by lia. by rewrite <- app_assoc.
Qed.

Lemma getitem_lookup {A} (n : nat) (l : list A) v :
  getitem (Z.of_nat n) l = Some v -> l !! n = Some v.
Proof.
  unfold getitem. destruct (_ || _); [done|].
  destruct (Z.ltb_spec (Z.of_nat n) 0); [lia|]. by rewrite Nat2Z.id.
Qed.

Lemma getitem_range {A} (n : nat) (l vs : list A) :
  Forall2 (fun i v => getitem i l = Some v) (Z.of_nat <$> seq 0 n) vs ->
  vs = take n l.
Proof.
  revert vs. induction n as [|n IH]; intros vs H.
  - apply Forall2_nil_inv_l in H as ->. by rewrite take_0.
  - rewrite seq_S, fmap_app in H. simpl in H.
    apply Forall2_app_inv_l in H as (vs1 & vs2 & H1 & H2 & ->).
    apply Forall2_cons_inv_l in H2 as (v & vs3 & Hv & H3 & ->).
    apply Forall2_nil_inv_l in H3 as ->.
    rewrite (IH _ H1). symmetry. apply take_S_r. by apply getitem_lookup.
Qed.

(** A batch of [m] rows leaves the invariant in place, advances [head] by
    [m] modulo [size] and fills the ring up to at most [size] points. *)
Lemma write_facts new r r' first :
  inv r -> tail_in_range r = true -> write new r = Some r' ->
  head (dvalues new) = Some first ->
  inv r' /\ tail_in_range r' = true /\ r_size r' = r_size r
  /\ r_head r' = (r_head r + Z.of_nat (length first)) mod r_size r
  /\ r_length r' = Z.min (r_size r) (r_length r + Z.of_nat (length first))
  /\ r_length r' - r_length r <= r_size r - r_length r.
Proof.
  intros Hinv Ht Hw Hfirst. unfold write in Hw. rewrite Hfirst in Hw.
  simpl in Hw.
  destruct (write_points _ _ _) as [r1|] eqn:H1; [|done]. simpl in Hw.
  injection Hw as <-.
  apply write_points_facts in H1 as (Hi & Ht1 & Hs & Hn & Hh & Hl);
    [| by destruct Hinv | done].
  simpl in *. rewrite length_fmap, length_seq in Hh, Hl.
  pose proof Hi as [Hi1 Hi2 Hi3]. simpl in *.
  do 2 (split; [done|]). repeat split; try done; lia.
Qed.

(** The points of a column after a batch: the old points followed by the
    new ones, of which the last [size] survive. *)
Lemma write_chrono new r r' first name col src :
  inv r -> tail_in_range r = true -> write new r = Some r' ->
  head (dvalues new) = Some first ->
  name ∈ r_names r -> dget name (r_data r) = Some col ->
  dget name new = Some src ->
  exists col',
    dget name (r_data r') = Some col'
    /\ chrono r' col' = newest (r_size r) (chrono r col ++ take (length first) src).
Proof.
  intros Hinv Ht Hw Hfirst Hin Hcol Hsrc. unfold write in Hw.
  rewrite Hfirst in Hw. simpl in Hw.
  destruct (write_points _ _ _) as [r1|] eqn:H1; [|done]. simpl in Hw.
  injection Hw as <-.
  eapply (write_points_chrono _ _ _ _ name col src) in H1
    as (vs & col' & Hvs & Hcol' & Hch); try done; [|by destruct Hinv].
  apply getitem_range in Hvs as ->.
  exists col'. split; [done|]. exact Hch.
Qed.

Lemma is_set_set_size ev k r : is_set ev (set_size k r) = is_set ev r.
Proof.
  unfold set_size, is_set, update, sort. simpl.
  destruct (k =? r_size r); [done|]. simpl.
  by destruct (r_length r <? k).
Qed.

Lemma read_all_sorted ev block r :
  is_set ev r = true -> r_tail r = 0 ->
  read_all ev block r
  = Ret (Some (r_data r)) (update (clear_event ev r)).
Proof.
  intros Hev Ht. unfold read_all. rewrite Hev.
  assert (sort (clear_event ev r) = clear_event ev r) as ->.
  { unfold sort, clear_event, set_events, set_data. simpl.
    rewrite Ht, fmap_cols_id. done. }
  f_equal. unfold update. simpl. by destruct (r_length r <? r_size r).
Qed.

Lemma set_size_shrink r k :
  inv r -> tail_in_range r = true -> 0 < k <= r_length r -> k < r_size r ->
  set_size k r
  = mkRing k k 0 0 (r_names r)
      (prod_map id (fun col => newest k (chrono r col)) <$> r_data r)
      (r_head_data r) (r_head_data_json r) (r_read_events r).
Proof.
  intros [Hl Hc Hh] Ht%tail_in_range_spec Hk Hks. unfold set_size.
  destruct (Z.eqb_spec k (r_size r)); [lia|].
  unfold sort, update. simpl.
  destruct (Z.ltb_spec k (r_size r)); [|lia].
  destruct (Z.ltb_spec (r_length r) k); [lia|].
  f_equal. rewrite fmap_cols_compose.
  apply (fmap_cols_ext _ _ _ (fun c => Z.of_nat (length c) = r_size r)); [exact Hc|].
  intros c Hlen. simpl. apply shrink_col_newest; lia.
Qed.

Lemma set_size_grow r k :
  inv r -> tail_in_range r = true -> r_size r < k ->
  set_size k r
  = mkRing k (r_length r) 0 (r_length r) (r_names r)
      (prod_map id (fun col => sort_col (r_tail r) col
                               ++ repeat_list 0 (k - r_size r)) <$> r_data r)
      (r_head_data r) (r_head_data_json r) (r_read_events r).
Proof.
  intros [Hl Hc Hh] Ht%tail_in_range_spec Hk. unfold set_size.
  destruct (Z.eqb_spec k (r_size r)); [lia|].
  unfold sort, update. simpl.
  destruct (Z.ltb_spec k (r_size r)); [lia|].
  destruct (Z.ltb_spec (r_length r) k); [|lia].
  f_equal. by rewrite fmap_cols_compose.
Qed.

(** *** Which operations keep the invariant *)

Lemma newest_cols_length r k :
  inv r -> tail_in_range r = true -> 0 <= k <= r_length r ->
  Forall (fun nc : string * column => Z.of_nat (length nc.2) = k)
         (prod_map id (fun col => newest k (chrono r col)) <$> r_data r).
Proof.
  intros [Hl Hc Hh] Ht%tail_in_range_spec Hk.
  apply Forall_fmap. eapply Forall_impl; [exact Hc|].
  intros [n c] Hlen. simpl in *.
  pose proof (chrono_length r c ltac:(lia) Hl Hlen) as Hcl.
  rewrite newest_length; lia.
Qed.

(** [set_size k] re-establishes the invariant when the new size does not
    exceed the fill level, or is at least the old size. *)
Lemma set_size_inv r k :
  inv r -> tail_in_range r = true ->
  0 < k <= r_length r \/ r_size r <= k ->
  inv (set_size k r) /\ tail_in_range (set_size k r) = true.
Proof.
  intros Hinv Ht Hk. pose proof Hinv as [Hl Hc Hh].
  pose proof Ht as Ht'%tail_in_range_spec.
  destruct (decide (k = r_size r)) as [->|Hne].
  { unfold set_size. by rewrite Z.eqb_refl. }
  destruct Hk as [Hk|Hk].
  - rewrite set_size_shrink by (done || lia). split.
    + split; simpl; [lia| |by rewrite Z.add_0_l, Z.mod_same by lia].
      by apply newest_cols_length; [..|lia].
    + apply tail_in_range_spec. simpl. lia.
  - rewrite set_size_grow by (done || lia). split.
    + split; simpl; [lia| |by rewrite Z.add_0_l, Z.mod_small by lia].
      apply Forall_fmap. eapply Forall_impl; [exact Hc|].
      intros [n c] Hlen. simpl in *. unfold repeat_list.
      rewrite length_app, sort_col_length, length_replicate by lia. lia.
    + apply tail_in_range_spec. simpl. lia.
Qed.

Lemma read_inv ev json block r x r' :
  inv r -> read ev json block r = Ret x r' -> inv r'.
Proof.
  intros [Hl Hc Hh]. unfold read.
  destruct (is_set ev r); [|destruct block]; intros [= <- <-]; by split.
Qed.

Lemma read_all_inv ev block r x r' :
  inv r -> tail_in_range r = true -> read_all ev block r = Ret x r' ->
  inv r' /\ tail_in_range r' = true.
Proof.
  intros Hinv Ht. pose proof Hinv as [Hl Hc Hh].
  pose proof Ht as Ht'%tail_in_range_spec. unfold read_all.
  destruct (is_set ev r); [|destruct block]; intros [= <- <-]; [|done].
  unfold update, sort, clear_event. simpl.
  assert (Forall (fun nc : string * column => Z.of_nat (length nc.2) = r_size r)
            (prod_map id (sort_col (r_tail r)) <$> r_data r)) as Hc'.
  { apply Forall_fmap. eapply Forall_impl; [exact Hc|].
    intros [n c] Hlen. simpl in *. rewrite sort_col_length; lia. }
  destruct (Z.ltb_spec (r_length r) (r_size r)); split;
    try (apply tail_in_range_spec; simpl; lia);
    split; simpl; try done; try lia.
  - by rewrite Z.add_0_l, Z.mod_small by lia.
  - by rewrite Z.add_0_l, Z.mod_same by lia.
Qed.

Lemma ring_two_of_five_written :
  write [("x"%string, [1; 2])] (init ["x"%string] 5) = Some ring_two_of_five.
Proof. reflexivity. Qed.

Lemma ring_full3_written :
  write [("x"%string, [1; 2])] (get_read_lock (init ["x"%string] 3)).2
    ≫= write [("x"%string, [3; 4])]
  = Some ring_full3.
Proof. reflexivity. Qed.

(** C10 (code defect): on a ring of size 5 holding 2 points, [set_size 3]
    leaves each column with 2 slots while [size] becomes 3, so the
    invariant no longer holds, and the next write indexes past the end of
    the column. *)
Theorem set_size_above_fill_breaks_invariant :
  invariant ring_two_of_five = true
  /\ r_size (set_size 3 ring_two_of_five) = 3
  /\ r_data (set_size 3 ring_two_of_five) = [("x"%string, [1; 2])]
  /\ invariant (set_size 3 ring_two_of_five) = false
  /\ write [("x"%string, [7])] (set_size 3 ring_two_of_five) = None.
Proof. repeat split. Qed.

Lemma set_size_read_all_newest_aux r k ev block :
  inv r -> tail_in_range r = true -> is_set ev r = true ->
  0 < k < r_length r ->
  exists r',
    read_all ev block (set_size k r) = Ret (Some (r_data r')) r'
    /\ r_data r' = prod_map id (fun col => newest k (chrono r col)) <$> r_data r.
Proof.
  intros Hinv Ht Hev Hk. pose proof Hinv as [Hl Hc Hh].
  exists (update (clear_event ev (set_size k r))). rewrite read_all_sorted;
    [|by rewrite is_set_set_size|by rewrite set_size_shrink by (done || lia)].
  rewrite set_size_shrink by (done || lia). unfold update, clear_event. simpl.
  by rewrite Z.ltb_irrefl.
Qed.

(** C7 (code defect): a ring of size 5 with one reader takes two points;
    [set_size 3] keeps both but leaves the column two slots long (the
    shrink slice does not pad, the defect of C10), and [set_size 1] then
    slices [col[-2:2]], the whole column: [read_all] hands out both points
    where the last one alone was to survive. *)
Theorem shrink_after_short_shrink_keeps_older_points :
  write [("x"%string, [1; 2])] (get_read_lock (init ["x"%string] 5)).2
  = Some watched_two_of_five
  /\ invariant watched_two_of_five = true
  /\ r_length watched_two_of_five = 2
  /\ r_length (set_size 3 watched_two_of_five) = 2
  /\ r_data (set_size 3 watched_two_of_five) = [("x"%string, [1; 2])]
  /\ is_set 0 (set_size 1 (set_size 3 watched_two_of_five)) = true
  /\ (exists r', read_all 0 true (set_size 1 (set_size 3 watched_two_of_five))
                 = Ret (Some [("x"%string, [1; 2])]) r')
  /\ newest 1 [1; 2] = [2].
Proof.
  split; [by vm_compute|]. do 5 (split; [by vm_compute|]).
  split; [|by vm_compute]. eexists. by vm_compute.
Qed.

(** X29.  Resizing a ring that satisfies the invariant, read by a reader
    whose token is set: for [0 < k < n], [set_size k] followed by
    [read_all] returns, for every column, exactly the last [k] of the [n]
    points held, oldest first; growing the ring keeps every point held
    (oldest first, from index 0) and appends [k - size] zeros to each
    column. *)
Theorem set_size_read_all_newest (r : GraphRingBuffer) (k : Z) (ev : nat)
    (block : bool) :
  invariant r = true -> tail_in_range r = true -> is_set ev r = true ->
  (0 < k < r_length r ->
   exists r',
     read_all ev block (set_size k r) = Ret (Some (r_data r')) r'
     /\ r_data r'
        = prod_map id (fun col => newest k (chrono r col)) <$> r_data r
     /\ Forall (fun nc : string * column => Z.of_nat (length nc.2) = k) (r_data r')
     /\ r_size r' = k /\ r_length r' = k)
  /\ (r_size r < k ->
      exists r',
        read_all ev block (set_size k r) = Ret (Some (r_data r')) r'
        /\ r_data r'
           = prod_map id (fun col => sort_col (r_tail r) col
                                     ++ repeat_list 0 (k - r_size r)) <$> r_data r
        /\ prod_map id (chrono r') <$> r_data r'
           = prod_map id (chrono r) <$> r_data r
        /\ r_size r' = k /\ r_length r' = r_length r).
Proof.
  intros Hinv%invariant_inv Ht Hev.
  pose proof Hinv as [Hl Hc Hh]. pose proof Ht as Ht'%tail_in_range_spec.
  split; intros Hk.
  - exists (update (clear_event ev (set_size k r))). rewrite read_all_sorted;
      [|by rewrite is_set_set_size|by rewrite set_size_shrink by (done || lia)].
    rewrite set_size_shrink by (done || lia). unfold update, clear_event. simpl.
    rewrite Z.ltb_irrefl. simpl.
    split; [reflexivity|]. simpl. split; [done|]. split; [|done].
    apply Forall_fmap. eapply Forall_impl; [exact Hc|].
    intros [n c] Hlen. simpl in *. unfold newest.
    pose proof (chrono_length r c ltac:(lia) Hl Hlen) as Hcl.
    rewrite length_drop. lia.
  - exists (update (clear_event ev (set_size k r))). rewrite read_all_sorted;
      [|by rewrite is_set_set_size|by rewrite set_size_grow].
    rewrite set_size_grow by done. unfold update, clear_event. simpl.
    destruct (Z.ltb_spec (r_length r) k); [|lia]. simpl.
    split; [reflexivity|]. simpl. split; [done|]. split; [|done].
    rewrite fmap_cols_compose.
    apply (fmap_cols_ext _ _ _ (fun c => Z.of_nat (length c) = r_size r)); [exact Hc|].
    intros c Hlen. unfold chrono. simpl.
    pose proof (sort_col_length (r_tail r) c ltac:(lia)) as Hs.
    rewrite sort_col_0.
    rewrite take_app_le by lia. done.
Qed.

(** A ring of size 3 with tail 1, shrunk to 2 and grown to 5. *)
Lemma set_size_read_all_newest_witness :
  (exists r', read_all 0 true (set_size 2 ring_full3) = Ret (Some (r_data r')) r'
     /\ r_data r' = [("x"%string, [3; 4])])
  /\ (exists r', read_all 0 true (set_size 5 ring_full3) = Ret (Some (r_data r')) r'
     /\ r_data r' = [("x"%string, [2; 3; 4; 0; 0])]).
Proof.
  destruct (set_size_read_all_newest ring_full3 2 0%nat true eq_refl eq_refl eq_refl)
    as [H1 _].
  destruct (set_size_read_all_newest ring_full3 5 0%nat true eq_refl eq_refl eq_refl)
    as [_ H2].
  split.
  - destruct (H1 ltac:(simpl; lia)) as (r' & Hr & Hd & _). exists r'. by split.
  - destruct (H2 ltac:(simpl; lia)) as (r' & Hr & Hd & _). exists r'. by split.
Defined.

(** On a full ring [set_size 0] truncates nothing (the slice starts at
    [-0]), and [read_all] returns all three points instead of none. *)
Lemma set_size_zero_keeps_every_point :
  0 <= 0 < r_length ring_full3
  /\ (exists r', read_all 0 true (set_size 0 ring_full3)
                 = Ret (Some [("x"%string, [2; 3; 4])]) r')
  /\ prod_map id (fun col => newest 0 (chrono ring_full3 col)) <$> r_data ring_full3
     = [("x"%string, [])].
Proof. split; [simpl; lia|]. split; [eexists|]; reflexivity. Qed.

(** *** From a fresh ring to a resized one *)

Lemma init_columns (names : list string) (size : Z) (acc : table) (name : string) :
  (name ∈ names \/ dget name acc = Some (repeat_list 0 size)) ->
  dget name (foldl (fun d n => dset n (repeat_list 0 size) d) acc names)
  = Some (repeat_list 0 size).
Proof.
  revert acc. induction names as [|n names IH]; intros acc Hin; simpl.
  - destruct Hin as [Hin|Hin]; [by apply not_elem_of_nil in Hin|done].
  - apply IH. destruct (decide (name = n)) as [->|Hne].
    + right. apply dget_dset_eq.
    + destruct Hin as [[?|?]%elem_of_cons|Hin]; [done|by left|].
      right. by rewrite dget_dset_ne.
Qed.

Lemma init_cols_length (names : list string) (size : Z) (acc : table) :
  0 <= size ->
  Forall (fun nc : string * column => Z.of_nat (length nc.2) = size) acc ->
  Forall (fun nc : string * column => Z.of_nat (length nc.2) = size)
         (foldl (fun d n => dset n (repeat_list 0 size) d) acc names).
Proof.
  intros Hs. revert acc. induction names as [|n names IH]; intros acc Hacc; simpl.
  - done.
  - apply IH.
    apply (dset_Forall (fun c : column => Z.of_nat (length c) = size)); [done|].
    unfold repeat_list. rewrite length_replicate. lia.
Qed.

Lemma init_inv (names : list string) (size : Z) :
  0 < size -> inv (init names size) /\ tail_in_range (init names size) = true.
Proof.
  intros Hs. split.
  - split; simpl; [lia| |by rewrite Z.mod_0_l by lia].
    apply init_cols_length; [lia|constructor].
  - apply tail_in_range_spec. simpl. lia.
Qed.

Lemma dget_fmap_cols (f : column -> column) (name : string) (d : table) :
  dget name (prod_map id f <$> d) = f <$> dget name d.
Proof.
  induction d as [|[n c] d IH]; [done|]. simpl.
  by destruct (decide (name = n)).
Qed.

Lemma newest_newest {A} (k m : Z) (l : list A) :
  0 <= k <= m -> newest k (newest m l) = newest k l.
Proof.
  intros Hk. unfold newest. rewrite drop_drop, length_drop. f_equal. lia.
Qed.

(** End to end: write one batch of points into a fresh ring, shrink the
    ring below the number of points it holds, and read everything: each
    named column comes back as the last [k] points of the batch, oldest
    first. *)
Lemma written_then_resized (names : list string) (size k : Z) (new : table)
    (first src : column) (name : string) (r : GraphRingBuffer) (ev : nat)
    (block : bool) :
  0 < size -> write new (init names size) = Some r ->
  head (dvalues new) = Some first -> name ∈ names ->
  dget name new = Some src -> length src = length first ->
  0 < k < r_length r -> is_set ev r = true ->
  exists r',
    read_all ev block (set_size k r) = Ret (Some (r_data r')) r'
    /\ dget name (r_data r') = Some (newest k src)
    /\ r_length r = Z.min size (Z.of_nat (length src)).
Proof.
  intros Hs Hw Hfirst Hin Hsrc Hlen Hk Hev.
  destruct (init_inv names size Hs) as [Hi Ht].
  destruct (write_facts new _ _ first Hi Ht Hw Hfirst)
    as (Hi' & Ht' & Hsize & _ & Hl & _).
  pose proof (init_columns names size [] name (or_introl Hin)) as Hcol.
  destruct (write_chrono new _ _ first name _ src Hi Ht Hw Hfirst Hin Hcol Hsrc)
    as (col' & Hcol' & Hch).
  simpl in Hsize, Hl.
  rewrite <- Hlen, take_ge in Hch by lia.
  assert (chrono (init names size) (repeat_list 0 size) = []) as Hnil
    by (unfold chrono; simpl; apply take_0).
  rewrite Hnil, app_nil_l in Hch.
  change (r_size (init names size)) with size in Hch.
  destruct (set_size_read_all_newest_aux r k ev block Hi' Ht' Hev Hk)
    as (r' & Hread & Hdata).
  exists r'. split; [done|]. split; [|lia].
  rewrite Hdata, dget_fmap_cols, Hcol'. simpl. rewrite Hch.
  f_equal. apply newest_newest. lia.
Qed.

End RingFacts.

(** ** Facts about the playback clock *)

Module PlaybackFacts.
Import Playback.

Section Clock.
Context {F : Type} `{FloatOps F}.
Implicit Types (db : PlaybackDatabase (F := F)) (w : F).

Lemma time_active db w :
  playback_active db = true ->
  time w db = fadd (relative_stop_time db)
                   (fmul (fsub w (start_time db)) (playback_speed db)).
Proof. intros Ha. unfold time, is_streaming. by rewrite Ha. Qed.

Lemma time_paused db w :
  playback_active db = false -> time w db = relative_stop_time db.
Proof. intros Ha. unfold time, is_streaming. by rewrite Ha. Qed.

Lemma start_active db w : playback_active db = true -> start w db = db.
Proof. intros Ha. unfold start, is_streaming. by rewrite Ha. Qed.

Lemma stop_paused db w : playback_active (stop w db) = false.
Proof. done. Qed.

Lemma start_idempotent db w w' : start w' (start w db) = start w db.
Proof.
  unfold start, is_streaming. destruct (playback_active db) eqn:Ha; simpl.
  - by rewrite Ha.
  - done.
Qed.

(** Calls other than [start] keep a paused store paused and keep its
    frozen value. *)
Lemma paused_run db (calls : list call) :
  playback_active db = false ->
  forallb (fun c => negb (is_start c)) calls = true ->
  playback_active (foldl step db calls) = false
  /\ relative_stop_time (foldl step db calls) = relative_stop_time db.
Proof.
  revert db. induction calls as [|c calls IH]; intros db Hp Hc; [done|].
  simpl in Hc. apply andb_true_iff in Hc as [Hc1 Hc2].
  destruct c as [w|w|w]; simpl in *; try done.
  - by apply IH.
  - destruct (IH (stop w db) eq_refl Hc2) as [IH1 IH2].
    split; [done|]. rewrite IH2. simpl. by apply time_paused.
Qed.

(** C6: [time] follows the playback formula while active and returns
    [relative_stop_time] while paused; [start] on an active store changes
    nothing, so a second [start] never does; after [stop], every later
    [time] call returns the value frozen by [stop], whatever the wall
    clock reads and whatever calls other than [start] happen in between. *)
Theorem playback_clock db (w w0 w1 : F) (calls : list call) :
  (playback_active db = true ->
     time w db = fadd (relative_stop_time db)
                      (fmul (fsub w (start_time db)) (playback_speed db))
     /\ start w db = db)
  /\ (playback_active db = false -> time w db = relative_stop_time db)
  /\ start w1 (start w0 db) = start w0 db
  /\ (forallb (fun c => negb (is_start c)) calls = true ->
      time w1 (foldl step (stop w0 db) calls) = time w0 db).
Proof.
  split; [|split; [|split]].
  - intros Ha. split; [by apply time_active | by apply start_active].
  - apply time_paused.
  - apply start_idempotent.
  - intros Hc.
    destruct (paused_run (stop w0 db) calls eq_refl Hc) as [Hp Hr].
    by rewrite time_paused, Hr.
Qed.
End Clock.

(** The clock at a store started at wall time 1000 ms with playback time
    200 ms and speed 5, read at wall time 1010 ms; and paused runs. *)
Lemma playback_clock_witness :
  (time 1010%Q db_running = (200 + (1010 - 1000) * 5)%Q
   /\ start 1010%Q db_running = db_running)
  /\ time 1010%Q db_paused = 200%Q
  /\ time 3000%Q (foldl step (stop 1010%Q db_running)
                    [CallTime 1500%Q; CallStop 2000%Q; CallTime 2500%Q])
     = time 1010%Q db_running.
Proof.
  destruct (playback_clock db_running 1010%Q 1010%Q 3000%Q
              [CallTime 1500%Q; CallStop 2000%Q; CallTime 2500%Q])
    as (H1 & _ & _ & H3).
  destruct (playback_clock db_paused 1010%Q 1010%Q 3000%Q []) as (_ & H2 & _).
  split; [exact (H1 eq_refl)|]. split; [exact (H2 eq_refl)|exact (H3 eq_refl)].
Defined.

End PlaybackFacts.

(** ** Facts about the socket registry *)

Module NodeFacts.
Import Nodes.

Lemma remove_socket_absent prefix id n c :
  sockets n !! id = None ->
  (remove_socket prefix id n c).1 = n.
Proof. intros Hn. unfold remove_socket. by rewrite Hn. Qed.

Lemma remove_socket_absent_log prefix id n c :
  sockets n !! id = None ->
  (remove_socket prefix id n c).2 = debug prefix (RedundantRemove id (n_name n)) 2 c.
Proof. intros Hn. unfold remove_socket. by rewrite Hn. Qed.

Lemma shutdown_flags n : n_exit (shutdown n) = true /\ n_close (shutdown n) = true.
Proof.
  unfold shutdown. destruct (n_close n) eqn:Hc, (n_exit n) eqn:He; simpl; auto.
Qed.

Lemma shutdown_idem n : shutdown (shutdown n) = shutdown n.
Proof.
  destruct (shutdown_flags n) as [He Hc].
  unfold shutdown at 1. by rewrite He, Hc.
Qed.

Lemma remove_socket_live prefix id n c h :
  sockets n !! id = Some h -> h_exit h = false ->
  (remove_socket prefix id n c).1 = shutdown n
  /\ (remove_socket prefix id n c).2 = display (Error (LiveRemove (h_name h) id (n_name n))) c.
Proof. intros Hn Hh. unfold remove_socket. by rewrite Hn, Hh. Qed.

Lemma remove_socket_halted prefix id n c h :
  sockets n !! id = Some h -> h_exit h = true ->
  (remove_socket prefix id n c).1
  = mkNode (n_name n) (n_exit n) (n_close n) (delete id (sockets n)).
Proof. intros Hn Hh. unfold remove_socket. by rewrite Hn, Hh. Qed.

(** C8 (amended): [remove_socket] leaves the registry and the flags alone
    for an unknown id; for a handler whose exit flag is not set it leaves
    the registry alone, prints the error, and (through [throw]) sets the
    Node's own exit and close flags; in every case a second call with the
    same id changes neither the registry nor the flags again. *)
Theorem remove_socket_frame prefix prefix' id n c c' :
  (sockets n !! id = None ->
     (remove_socket prefix id n c).1 = n
     /\ (remove_socket prefix id n c).2
        = debug prefix (RedundantRemove id (n_name n)) 2 c)
  /\ (forall h, sockets n !! id = Some h -> h_exit h = false ->
       sockets (remove_socket prefix id n c).1 = sockets n
       /\ n_exit (remove_socket prefix id n c).1 = true
       /\ n_close (remove_socket prefix id n c).1 = true
       /\ (remove_socket prefix id n c).2
          = display (Error (LiveRemove (h_name h) id (n_name n))) c)
  /\ (remove_socket prefix' id (remove_socket prefix id n c).1 c').1
     = (remove_socket prefix id n c).1.
Proof.
  split; [|split].
  - intros Hn. split; [by apply remove_socket_absent|by apply remove_socket_absent_log].
  - intros h Hn Hh.
    destruct (remove_socket_live prefix id n c h Hn Hh) as [-> ->].
    destruct (shutdown_flags n) as [He Hc].
    repeat split; try done.
    unfold shutdown. by destruct (_ && _).
  - destruct (sockets n !! id) as [h|] eqn:Hn.
    + destruct (h_exit h) eqn:Hh.
      * rewrite (remove_socket_halted prefix id n c h Hn Hh).
        apply remove_socket_absent. simpl. apply lookup_delete_eq.
      * destruct (remove_socket_live prefix id n c h Hn Hh) as [-> _].
        assert (sockets (shutdown n) !! id = Some h) as Hn'.
        { unfold shutdown. by destruct (_ && _). }
        destruct (remove_socket_live prefix' id (shutdown n) c' h Hn' Hh) as [-> _].
        apply shutdown_idem.
    + rewrite (remove_socket_absent prefix id n c Hn).
      by apply remove_socket_absent.
Qed.

(** The amended C8 at a Node holding one running handler. *)
Lemma remove_socket_frame_witness :
  (remove_socket stamp "s2" node_with_live_socket quiet_console).1 = node_with_live_socket
  /\ sockets (remove_socket stamp "s1" node_with_live_socket quiet_console).1
     = sockets node_with_live_socket
  /\ n_exit (remove_socket stamp "s1" node_with_live_socket quiet_console).1 = true
  /\ n_close (remove_socket stamp "s1" node_with_live_socket quiet_console).1 = true.
Proof.
  destruct (remove_socket_frame stamp stamp "s2" node_with_live_socket quiet_console
              quiet_console)
    as (H1 & _ & _).
  destruct (remove_socket_frame stamp stamp "s1" node_with_live_socket quiet_console
              quiet_console)
    as (_ & H2 & _).
  destruct (H1 eq_refl) as [Ha _].
  destruct (H2 (mkHandler "SOCKET" false) eq_refl eq_refl) as (Hb & Hc & Hd & _).
  repeat split; assumption.
Defined.

(** C8 as stated: removing a running handler does not leave the Node's
    exit and close flags unchanged. *)
Lemma remove_live_socket_sets_node_flags :
  n_exit node_with_live_socket = false
  /\ n_close node_with_live_socket = false
  /\ n_exit (remove_socket stamp "s1" node_with_live_socket quiet_console).1 = true
  /\ n_close (remove_socket stamp "s1" node_with_live_socket quiet_console).1 = true.
Proof. repeat split. Qed.

End NodeFacts.

(** ** Facts about the store controller *)

Module ControllerFacts.
Import Controller.

Section Remove.
Variable backend_stops : Z -> bool.

Lemma remove_unbound ID c :
  sessions c !! ID = None -> remove backend_stops ID c = Done c.
Proof. intros Hs. unfold remove. by rewrite Hs. Qed.

(** A live binding survives [remove]. *)
Lemma remove_live ID c db :
  sessions c !! ID = Some db -> live db = true ->
  remove backend_stops ID c = Done c /\ get ID c = Some db.
Proof. intros Hs Hl. unfold remove, get. rewrite Hs. by destruct db. Qed.

(** A playback binding with other sessions left on its port. *)
Lemma remove_playback_shared ID c port f info :
  sessions c !! ID = Some (PlaybackDatabase port f) ->
  playback_ports c !! port = Some info ->
  has_file info = true -> 1 < count info ->
  exists c', remove backend_stops ID c = Done c'
    /\ get ID c' = None
    /\ playback_ports c' !! port = Some (mkInfo (file info) (count info - 1))
    /\ shut_down c' = shut_down c.
Proof.
  intros Hs Hp Hf Hc. unfold remove. rewrite Hs, Hp, Hf.
  destruct (Z.ltb_spec 1 (count info)); [|lia]. simpl.
  eexists. split; [done|]. unfold get. simpl.
  by rewrite lookup_delete_eq, lookup_insert_eq.
Qed.

(** The last playback binding of a port. *)
Lemma remove_playback_last ID c port f info :
  sessions c !! ID = Some (PlaybackDatabase port f) ->
  playback_ports c !! port = Some info ->
  has_file info = true -> count info <= 1 -> backend_stops port = true ->
  exists c', remove backend_stops ID c = Done c'
    /\ get ID c' = None
    /\ playback_ports c' !! port = Some (mkInfo None 0)
    /\ shut_down c' = shut_down c ++ [port].
Proof.
  intros Hs Hp Hf Hc Hb. unfold remove. rewrite Hs, Hp, Hf, Hb.
  destruct (Z.ltb_spec 1 (count info)); [lia|].
  destruct (Z.leb_spec (count info) 1); [|lia]. simpl.
  eexists. split; [done|]. unfold get. simpl.
  by rewrite lookup_delete_eq, lookup_insert_eq.
Qed.
End Remove.

(** C9 (code defect): [remove] returns early for a live store, so the
    binding is still there afterwards. *)
Theorem remove_keeps_live_binding :
  forall backend_stops,
    remove backend_stops "sid" controller_with_live = Done controller_with_live
    /\ get "sid" controller_with_live = Some LiveDatabase.
Proof.
  intros b. by apply (remove_live b "sid" controller_with_live LiveDatabase).
Qed.

End ControllerFacts.

(** ** Facts about the store wrapper *)

Module StoreFacts.
Import Store.

Section Writes.
Context {F : Type} `{FloatOps F}.
Implicit Types (bs : gmap string (Bookmark (F := F))).

Lemma never_written_get stream bs :
  never_written stream bs ->
  write (get stream bs).1 = None /\ never_written stream (get stream bs).2.
Proof.
  unfold never_written, get. destruct (bs !! stream) as [b|] eqn:Hb; simpl.
  - intros Hw. by rewrite Hb.
  - intros _. by rewrite lookup_insert_eq.
Qed.

(** [validate_redis_time] returns on its first test and never stores the
    millisecond it was given. *)
Lemma validate_never_written id stream bs :
  never_written stream bs ->
  validate_redis_time id stream bs = Some (id, (get stream bs).2).
Proof.
  intros [Hw _]%never_written_get. unfold validate_redis_time.
  destruct (get stream bs) as [b bs1]. simpl in *. by rewrite Hw.
Qed.

Lemma write_rows_plain stream data times idxs bs cmds bs' :
  never_written stream bs ->
  write_rows stream data times idxs bs = Some (cmds, bs') ->
  Forall plain_id cmds /\ never_written stream bs'
  /\ Forall2 (fun i c => time_to_redis <$> times !! i = Some (x_id c)) idxs cmds.
Proof.
  revert bs cmds. induction idxs as [|i idxs IH]; intros bs cmds Hn Hw;
    simpl in Hw.
  - injection Hw as <- <-. by repeat constructor.
  - destruct (row_at i data) as [d|]; [|done]. simpl in Hw.
    destruct (times !! i) as [t|] eqn:Ht; [|done]. simpl in Hw.
    rewrite validate_never_written in Hw by done. simpl in Hw.
    destruct (write_rows _ _ _ idxs _) as [[cmds1 bs2]|] eqn:Hrest; [|done].
    simpl in Hw. injection Hw as <- <-.
    apply never_written_get in Hn as [_ Hn].
    destruct (IH _ _ Hn Hrest) as (H1 & H2 & H3).
    split; [by constructor|]. split; [done|].
    constructor; [|done]. by rewrite Ht.
Qed.

Lemma write_data_plain stream data bs cmds bs' :
  never_written stream bs ->
  write_data stream data bs = Some (cmds, bs') ->
  Forall plain_id cmds /\ never_written stream bs'.
Proof.
  intros Hn. unfold write_data.
  destruct (Py.dget "time" data) as [time_col|]; [|done].
  destruct (negb (all_same_size data)); [done|].
  destruct (head (Py.dvalues data)) as [[x|first]|]; [|..|done];
    destruct time_col as [t|times]; try done.
  - rewrite validate_never_written by done. simpl.
    destruct (mapM _ data) as [row|]; [|done]. simpl.
    intros [= <- <-]. apply never_written_get in Hn as [_ Hn].
    split; [by repeat constructor|done].
  - intros Hw. by destruct (write_rows_plain _ _ _ _ _ _ _ Hn Hw) as (?&?&_).
Qed.

(** However many batches are written to a stream, and however close in
    time, no id ever carries a sequence number. *)
Lemma write_all_plain stream batches bs cmds bs' :
  never_written stream bs ->
  write_all stream batches bs = Some (cmds, bs') ->
  Forall plain_id cmds /\ never_written stream bs'.
Proof.
  revert bs cmds. induction batches as [|data batches IH]; intros bs cmds Hn Hw;
    simpl in Hw.
  - injection Hw as <- <-. by split.
  - destruct (write_data stream data bs) as [[cmds1 bs1]|] eqn:H1; [|done].
    simpl in Hw.
    destruct (write_all stream batches bs1) as [[cmds2 bs2]|] eqn:H2; [|done].
    simpl in Hw. injection Hw as <- <-.
    destruct (write_data_plain _ _ _ _ _ Hn H1) as [Hp1 Hn1].
    destruct (IH _ _ Hn1 H2) as [Hp2 Hn2].
    split; [by apply Forall_app|done].
Qed.
End Writes.

(** C2 (code defect): two single-point writes whose time stamps, 1000.2 ms
    and 1000.7 ms, fall in the same millisecond get the same id [1000]
    with no sequence number, because [validate_redis_time] never records
    the first write; the ids are neither distinct nor increasing. *)
Theorem same_millisecond_ids_collide :
  sent_ids
    (write_all "s"
       [[("time"%string, Scalar (tenths 10002)); ("x"%string, Scalar 1%Q)];
        [("time"%string, Scalar (tenths 10007)); ("x"%string, Scalar 2%Q)]] ∅)
  = Some [mkId 1000 None; mkId 1000 None]
  /\ strictly_increasing [mkId 1000 None; mkId 1000 None] = false
  /\ sent_ids
       (write_data "s" [("time"%string, Seq [tenths 10002; tenths 10007]);
                        ("x"%string, Seq [1%Q; 2%Q])] ∅)
     = Some [mkId 1000 None; mkId 1000 None].
Proof. vm_compute. repeat split. Qed.

Section Reads.
Context {F : Type} `{FloatOps F} {R : Type}.
Variable backend : bool -> query -> list entry.
Variable render : bool -> bool -> bool -> list entry -> option R.
Variable start_time : option F.
Implicit Types (bs : gmap string (Bookmark (F := F))).

(** With the lock free, [read_data] takes it, returns [None] at once and
    keeps it. *)
Lemma read_data_free_lock stream count max_time numerical to_json decode
    now1 now2 bs :
  locked (get stream bs).1 = false ->
  read_data backend render start_time (Some stream) count max_time
            numerical to_json decode now1 now2 bs
  = (PyNone, <[stream := (lock (get stream bs).1).2]> (get stream bs).2)
  /\ locked (lock (get stream bs).1).2 = true.
Proof.
  intros Hl. unfold read_data.
  destruct (get stream bs) as [b bs0]. simpl in *.
  unfold lock. rewrite Hl. done.
Qed.

(** With the lock held (by whoever), a counted [read_data] goes on to
    query, moves the bookmark and releases the lock. *)
Lemma read_data_held_lock stream n max_time (numerical to_json decode : bool)
    now1 now2 bs (b : Bookmark (F := F)) (newest : entry) (result : R) :
  bs !! stream = Some b -> locked b = true -> n <> 0 ->
  last (backend decode (XRevRange ("stream:" +:+ stream) n)) = Some newest ->
  render (if decode then numerical else false) decode to_json
         (backend decode (XRevRange ("stream:" +:+ stream) n)) = Some result ->
  exists b',
    read_data backend render start_time (Some stream) (Some n) max_time
              numerical to_json decode now1 now2 bs
    = (Value result, <[stream := b']> bs)
    /\ locked b' = false
    /\ last_id b' = Some newest.1
    /\ last_time b' = Some now2.
Proof.
  intros Hb Hl Hn Hlast Hrender. unfold read_data, get. rewrite Hb.
  unfold lock. rewrite Hl. simpl.
  destruct (Z.eqb_spec n 0); [done|]. simpl.
  rewrite Hlast, Hrender.
  destruct (negb (truthy_float (first_time b)));
    unfold release, set_last, set_first; simpl; rewrite Hl;
    (eexists; split; [by rewrite insert_insert_eq|done]).
Qed.
End Reads.

(** C1 (code defect): the first [read_data] on a stream finds the lock
    free, takes it, returns [None] and never releases it; the second call
    finds the lock held and, instead of returning [None], reads, moves the
    bookmark and releases a lock it did not take. *)
Theorem read_data_lock_test_inverted :
  first_call.1 = PyNone
  /\ locked <$> first_call.2 !! "s"%string = Some true
  /\ last_id <$> first_call.2 !! "s"%string = Some None
  /\ second_call.1 = Value one_entry
  /\ last_id <$> second_call.2 !! "s"%string = Some (Some (mkId 1000 (Some 0)))
  /\ locked <$> second_call.2 !! "s"%string = Some false.
Proof. vm_compute. repeat split. Qed.

End StoreFacts.

(** ** Facts about the codec *)

Module CodecFacts.
Import Py Codec.

(** *** Lines *)

Lemma readline_line (l rest : list ascii) :
  LF ∉ l -> readline (l ++ LF :: rest) = (l ++ [LF], rest).
Proof.
  induction l as [|c l IH]; intros Hl.
  - done.
  - apply not_elem_of_cons in Hl as [Hc Hl].
    cbn [readline app]. rewrite decide_False by done.
    fold (l ++ LF :: rest). by rewrite IH.
Qed.

Lemma ends_crlf_app (l : list ascii) : ends_crlf (l ++ CRLF) = true.
Proof.
  unfold ends_crlf. apply bool_decide_eq_true.
  unfold slice, clamp. simpl. rewrite length_app. simpl.
  replace (Z.of_nat (length l + 2)) with (Z.of_nat (length l) + 2) by lia.
  destruct (Z.ltb_spec (-2) 0); [|lia].
  rewrite Z.min_r, Z.max_r by lia.
  replace (Z.to_nat (-2 + (Z.of_nat (length l) + 2))) with (length l) by lia.
  rewrite drop_app_length. apply take_ge. simpl. lia.
Qed.

(** A line that ends in CRLF is returned whole, whatever [length] is: the
    maximum is only looked at inside the loop, which such a line skips. *)
Lemma read_line_complete (maxlen : Z) (l rest : list ascii) (h : SocketHandler) :
  LF ∉ l -> pull_buffer h = l ++ CRLF ++ rest ->
  read_line maxlen h = Got (strip (l ++ CRLF)) (set_buffer rest h).
Proof.
  intros Hl Hb. unfold read_line. rewrite Hb.
  replace (l ++ CRLF ++ rest) with ((l ++ [CR]) ++ LF :: rest)
    by (by rewrite <- app_assoc).
  rewrite readline_line.
  2:{ intros [Hin|Hin%list_elem_of_singleton]%elem_of_app; done. }
  rewrite <- app_assoc. change ([CR] ++ [LF]) with CRLF.
  destruct (length rest); simpl; rewrite ends_crlf_app, andb_false_r; simpl;
    by destruct l.
Qed.

(** *** Stripping *)

Lemma lstrip_keep (c : ascii) (s : list ascii) :
  isspace c = false -> lstrip (c :: s) = c :: s.
Proof. intros Hc. simpl. by rewrite Hc. Qed.

Lemma lstrip_spaces (w s : list ascii) :
  forallb isspace w = true -> lstrip (w ++ s) = lstrip s.
Proof.
  induction w as [|c w IH]; [done|]. simpl.
  intros [Hc Hw]%andb_true_iff. rewrite Hc. by apply IH.
Qed.

Lemma forallb_reverse {A} (f : A -> bool) (w : list A) :
  forallb f (reverse w) = forallb f w.
Proof.
  induction w as [|c w IH]; [done|].
  rewrite reverse_cons, forallb_app, IH. simpl.
  by rewrite andb_true_r, andb_comm.
Qed.

Lemma rstrip_spaces (s w : list ascii) :
  forallb isspace w = true -> rstrip (s ++ w) = rstrip s.
Proof.
  intros Hw. unfold rstrip. rewrite reverse_app, lstrip_spaces; [done|].
  by rewrite forallb_reverse.
Qed.

Lemma rstrip_keep (s : list ascii) (c : ascii) :
  isspace c = false -> rstrip (s ++ [c]) = s ++ [c].
Proof.
  intros Hc. unfold rstrip. rewrite reverse_snoc. cbn [lstrip]. rewrite Hc.
  by rewrite reverse_cons, reverse_involutive.
Qed.

Lemma rstrip_nil : rstrip [] = [].
Proof. done. Qed.

Lemma crlf_spaces : forallb isspace CRLF = true.
Proof. done. Qed.

Lemma lstrip_length (s : list ascii) : (length (lstrip s) <= length s)%nat.
Proof.
  induction s as [|c s IH]; simpl; [done|].
  destruct (isspace c); simpl; lia.
Qed.

Lemma lstrip_id_head (s : list ascii) :
  lstrip s = s -> match s with [] => True | c :: _ => isspace c = false end.
Proof.
  destruct s as [|c s]; [done|]. simpl.
  destruct (isspace c) eqn:Hc; [|done].
  intros Heq. pose proof (lstrip_length s) as Hlen.
  rewrite Heq in Hlen. simpl in Hlen. lia.
Qed.

Lemma rstrip_length (s : list ascii) : (length (rstrip s) <= length s)%nat.
Proof.
  unfold rstrip. rewrite length_reverse.
  etrans; [apply lstrip_length|]. by rewrite length_reverse.
Qed.

Lemma trimmed_ends (s : list ascii) :
  strip s = s -> lstrip s = s /\ rstrip s = s.
Proof.
  unfold strip. intros Hs.
  assert (length (lstrip s) = length s) as Hlen.
  { pose proof (lstrip_length s). pose proof (rstrip_length (lstrip s)).
    rewrite Hs in *. lia. }
  assert (lstrip s = s) as Hl.
  { clear Hs. induction s as [|c s IH]; [done|]. simpl in *.
    destruct (isspace c); [|done].
    pose proof (lstrip_length s). lia. }
  split; [done|]. by rewrite Hl in Hs.
Qed.

Lemma rstrip_id_last (s : list ascii) (c : ascii) :
  rstrip (s ++ [c]) = s ++ [c] -> isspace c = false.
Proof.
  unfold rstrip. rewrite reverse_snoc. cbn [lstrip].
  destruct (isspace c) eqn:Hc; [|done].
  intros Heq. apply (f_equal length) in Heq.
  rewrite length_reverse, length_app in Heq. simpl in Heq.
  pose proof (lstrip_length (reverse s)) as Hlen.
  rewrite length_reverse in Hlen. lia.
Qed.

(** *** Words *)

Lemma token_spec (t : list ascii) :
  token t = true <-> t <> [] /\ forallb (fun c => negb (isspace c)) t = true.
Proof. unfold token. by rewrite andb_true_iff, bool_decide_eq_true. Qed.

Lemma token_head (t : list ascii) :
  token t = true -> exists c t', t = c :: t' /\ isspace c = false.
Proof.
  intros [Hne Hall]%token_spec. destruct t as [|c t']; [done|].
  simpl in Hall. apply andb_true_iff in Hall as [Hc _].
  exists c, t'. split; [done|]. by apply negb_true_iff.
Qed.

Lemma token_last (t : list ascii) :
  token t = true -> exists t' c, t = t' ++ [c] /\ isspace c = false.
Proof.
  intros [Hne Hall]%token_spec.
  destruct (exists_last Hne) as (t' & c & ->).
  rewrite forallb_app in Hall. apply andb_true_iff in Hall as [_ Hc].
  simpl in Hc. rewrite andb_true_r in Hc.
  exists t', c. split; [done|]. by apply negb_true_iff.
Qed.

Lemma token_no_lf (t : list ascii) : token t = true -> LF ∉ t.
Proof.
  intros [_ Hall]%token_spec Hin. rewrite forallb_forall in Hall.
  apply list_elem_of_In in Hin. by specialize (Hall _ Hin).
Qed.

Lemma split_words_word (cur w s : list ascii) :
  forallb (fun c => negb (isspace c)) w = true ->
  split_words cur (w ++ s) = split_words (cur ++ w) s.
Proof.
  revert cur. induction w as [|c w IH]; intros cur Hw; simpl.
  - by rewrite app_nil_r.
  - simpl in Hw. apply andb_true_iff in Hw as [Hc Hw].
    apply negb_true_iff in Hc. rewrite Hc, IH by done.
    by rewrite <- app_assoc.
Qed.

Lemma split_words_blank (cur s : list ascii) (c : ascii) :
  cur <> [] -> isspace c = true ->
  split_words cur (c :: s) = cur :: split_words [] s.
Proof. intros Hne Hc. simpl. rewrite Hc. by destruct cur. Qed.

Lemma split_three (a b c : list ascii) :
  token a = true -> token b = true -> token c = true ->
  split (a ++ [SP] ++ b ++ [SP] ++ c) = [a; b; c].
Proof.
  intros [Ha1 Ha2]%token_spec [Hb1 Hb2]%token_spec [Hc1 Hc2]%token_spec.
  unfold split.
  rewrite split_words_word by done. cbn [app].
  rewrite split_words_blank by done.
  rewrite split_words_word by done. cbn [app].
  rewrite split_words_blank by done.
  rewrite <- (app_nil_r c) at 1. rewrite split_words_word by done. cbn [app].
  by destruct c.
Qed.

(** The text of a start line read back from the stream. *)
Lemma strip_start_line (a b c : list ascii) :
  token a = true -> token c = true ->
  strip ((a ++ [SP] ++ b ++ [SP] ++ c) ++ CRLF) = a ++ [SP] ++ b ++ [SP] ++ c.
Proof.
  intros (x & a' & -> & Hx)%token_head (c' & y & -> & Hy)%token_last.
  unfold strip. rewrite <- !app_comm_cons, lstrip_keep by done.
  rewrite !app_comm_cons, rstrip_spaces by done.
  rewrite !app_assoc. by apply rstrip_keep.
Qed.

(** *** Header lines *)

Lemma split_once_first (sep : ascii) (k r : list ascii) :
  sep ∉ k -> split_once sep (k ++ sep :: r) = Some (k, r).
Proof.
  induction k as [|c k IH]; intros Hk; simpl.
  - by rewrite decide_True.
  - apply not_elem_of_cons in Hk as [Hc Hk].
    rewrite decide_False by done. by rewrite IH.
Qed.

Lemma header_ok_spec (k : list ascii) (v : value) :
  header_ok (k, v) = true <->
  ((LF ∉ k) /\ (":"%char ∉ k) /\ lstrip k = k
   /\ (LF ∉ str v) /\ strip (str v) = str v).
Proof.
  unfold header_ok. rewrite !andb_true_iff, !bool_decide_eq_true.
  cbn [fst snd]. tauto.
Qed.

Lemma sep_text : txt ": " = [":"%char; SP].
Proof. done. Qed.

(** A formatted header line, once stripped, is the key, a colon, and a
    rest that strips to the value. *)
Lemma strip_header_line (k : list ascii) (val : value) :
  header_ok (k, val) = true ->
  exists rest, strip (format_header_line (k, val)) = k ++ ":"%char :: rest
               /\ strip rest = str val.
Proof.
  intros (Hk1 & Hk2 & Hk3 & Hv1 & Hv2)%header_ok_spec.
  unfold format_header_line. cbn [fst snd]. rewrite sep_text.
  revert Hv1 Hv2. generalize (str val). intros v Hv1 Hv2.
  assert (lstrip (k ++ [":"%char; SP] ++ v ++ CRLF)
          = k ++ [":"%char; SP] ++ v ++ CRLF) as Hl.
  { apply lstrip_id_head in Hk3. destruct k as [|c k]; [done|].
    cbn [app]. by apply lstrip_keep. }
  unfold strip at 1. rewrite Hl.
  destruct (trimmed_ends v Hv2) as [Hvl Hvr].
  destruct v as [|c v _] using rev_ind.
  - exists []. split; [|done].
    replace (k ++ [":"%char; SP] ++ [] ++ CRLF)
      with ((k ++ [":"%char]) ++ SP :: CRLF) by (by rewrite <- app_assoc).
    rewrite rstrip_spaces by done. by rewrite rstrip_keep.
  - exists (SP :: v ++ [c]).
    pose proof (rstrip_id_last _ _ Hvr) as Hc.
    split.
    + replace (k ++ [":"%char; SP] ++ (v ++ [c]) ++ CRLF)
        with (((k ++ [":"%char; SP] ++ v) ++ [c]) ++ CRLF)
        by (by rewrite <- !app_assoc).
      rewrite rstrip_spaces by done.
      rewrite rstrip_keep by done. by rewrite <- !app_assoc.
    + unfold strip. cbn [lstrip]. exact Hv2.
Qed.

Lemma header_line_no_lf (k : list ascii) (v : value) :
  header_ok (k, v) = true -> LF ∉ k ++ txt ": " ++ str v.
Proof.
  intros (Hk1 & Hk2 & Hk3 & Hv1 & Hv2)%header_ok_spec. rewrite sep_text.
  intros [Hin|[Hin|Hin]%elem_of_app]%elem_of_app; try done.
  by apply elem_of_cons in Hin as [Hin|[Hin|Hin%not_elem_of_nil]%elem_of_cons].
Qed.

(** *** The parsing steps on an encoded request *)

Lemma parse_request_line_loop_line fuel h line h' :
  read_line 256 h = Got line h' -> line <> [] ->
  parse_request_line_loop fuel h
  = match fill_request_line (split line) (request h') with
    | Filled r => Parsed (set_request r h')
    | Malformed => Rejected (shutdown h')
    | QueryError r => Rejected (shutdown (set_request r h'))
    end.
Proof.
  intros Hr Hne. destruct fuel; simpl; rewrite Hr; by destruct line.
Qed.

Lemma request_line_ok_cases (r : Request) :
  request_line_ok r = true ->
  (exists m p, method r = Some m /\ code r = None /\ message r = None
      /\ path r = Some p /\ token m = true /\ token p = true
      /\ token (version r) = true
      /\ startswith (txt "HTTP/") m = false /\ ("?"%char ∉ p))
  \/ (exists c msg, method r = None /\ code r = Some c /\ message r = Some msg
      /\ path r = None /\ truthy_val (Some c) = true
      /\ token (str c) = true /\ token msg = true
      /\ token (version r) = true
      /\ startswith (txt "HTTP/") (version r) = true).
Proof.
  unfold request_line_ok.
  destruct (method r) as [m|], (code r) as [c|]; try done.
  - destruct (path r) as [p|]; rewrite !andb_true_iff; [|intuition discriminate].
    rewrite negb_true_iff, !bool_decide_eq_true.
    intros ((((Hm & Hs) & Hp & Hq) & Hv) & Hmsg).
    left. exists m, p. by repeat split.
  - destruct (message r) as [msg|]; rewrite !andb_true_iff; [|intuition discriminate].
    rewrite bool_decide_eq_true.
    intros (((((Ht & Hc) & Hmsg) & Hv) & Hs) & Hp).
    right. exists c, msg. by repeat split.
Qed.

Lemma start_line_no_lf (a b c : list ascii) :
  token a = true -> token b = true -> token c = true ->
  LF ∉ a ++ [SP] ++ b ++ [SP] ++ c.
Proof.
  intros Ha%token_no_lf Hb%token_no_lf Hc%token_no_lf.
  intros [Hin|[Hin|[Hin|[Hin|Hin]%elem_of_app]%elem_of_app]%elem_of_app]%elem_of_app;
    try done; by apply list_elem_of_singleton in Hin.
Qed.

Lemma token_truthy (t : list ascii) : token t = true -> truthy (Some t) = true.
Proof. by intros (x & t' & -> & _)%token_head. Qed.

Lemma read_start_line maxlen (a b c rest : list ascii) (h : SocketHandler) :
  token a = true -> token b = true -> token c = true ->
  pull_buffer h = (a ++ [SP] ++ b ++ [SP] ++ c ++ CRLF) ++ rest ->
  read_line maxlen h = Got (a ++ [SP] ++ b ++ [SP] ++ c) (set_buffer rest h).
Proof.
  intros Ha Hb Hc Hbuf.
  rewrite <- (strip_start_line a b c) by done.
  apply read_line_complete; [by apply start_line_no_lf|].
  rewrite Hbuf. by rewrite <- !app_assoc.
Qed.

Lemma parse_request_line_encoded (r : Request) (h : SocketHandler) (rest : list ascii) :
  request_line_ok r = true -> request h = new_request ->
  pull_buffer h = format_request_line r ++ rest ->
  parse_request_line h = Parsed (set_request (started r) (set_buffer rest h)).
Proof.
  intros Hok Hreq Hbuf. unfold parse_request_line.
  unfold format_request_line in Hbuf. unfold started.
  destruct (request_line_ok_cases r Hok)
    as [(m & p & Hm & Hc & Hmsg & Hp & Tm & Tp & Tv & Hs & Hq)
       |(c & msg & Hm & Hc & Hmsg & Hp & Htc & Tc & Tmsg & Tv & Hs)].
  - rewrite Hm, Hc, Hmsg, Hp in *. rewrite (token_truthy m Tm) in Hbuf.
    cbn [fmt default] in Hbuf.
    erewrite parse_request_line_loop_line;
      [|eapply (read_start_line _ m p (version r)); [done..|exact Hbuf]
       |by destruct m].
    rewrite split_three by done.
    unfold fill_request_line. rewrite Hs.
    rewrite bool_decide_eq_false_2 by done.
    cbn. by rewrite Hreq.
  - rewrite Hm, Hc, Hmsg, Hp in *.
    rewrite Htc in Hbuf. cbn [truthy fmt fmt_val default] in Hbuf.
    erewrite parse_request_line_loop_line;
      [|eapply (read_start_line _ (version r) (str c) msg); [done..|exact Hbuf]
       |by apply token_head in Tv as (x & v' & -> & _)].
    rewrite split_three by done.
    unfold fill_request_line. rewrite Hs.
    cbn. by rewrite Hreq.
Qed.

Lemma set_header_same (r : Request) : set_header (header r) r = r.
Proof. by destruct r. Qed.

Lemma parse_header_loop_encoded (hs : list (list ascii * value)) :
  forall (n : nat) (h : SocketHandler) (rest : list ascii),
    forallb header_ok hs = true -> (length hs < n)%nat ->
    pull_buffer h = concat (format_header_line <$> hs) ++ CRLF ++ rest ->
    parse_header_loop n h
    = Parsed (set_request
                (set_header (foldl (fun d kv => dset (lower kv.1) (as_text kv.2) d)
                                   (header (request h)) hs) (request h))
                (set_buffer rest h)).
Proof.
  induction hs as [|[k v] hs IH]; intros n h rest Hok Hn Hbuf.
  - destruct n as [|n]; [simpl in Hn; lia|]. cbn [parse_header_loop].
    rewrite (read_line_complete 1024 [] rest h); [|apply not_elem_of_nil|done].
    cbn. by rewrite set_header_same.
  - destruct n as [|n]; [simpl in Hn; lia|]. cbn [parse_header_loop].
    cbn [forallb] in Hok. apply andb_true_iff in Hok as [Hkv Hok].
    destruct (strip_header_line k v Hkv) as (tl & Hstrip & Htl).
    pose proof (header_line_no_lf k v Hkv) as Hlf.
    pose proof Hkv as (_ & Hcolon & _)%header_ok_spec.
    rewrite fmap_cons, concat_cons in Hbuf.
    unfold format_header_line in Hbuf at 1. cbn [fst snd] in Hbuf.
    rewrite (read_line_complete 1024 (k ++ txt ": " ++ str v)
               (concat (format_header_line <$> hs) ++ CRLF ++ rest) h);
      [|done|by rewrite Hbuf, <- !app_assoc].
    replace ((k ++ txt ": " ++ str v) ++ CRLF) with (format_header_line (k, v))
      by (unfold format_header_line; cbn [fst snd]; by rewrite <- !app_assoc).
    rewrite Hstrip.
    destruct (k ++ ":"%char :: tl) as [|x line] eqn:Hline;
      [by destruct k|].
    rewrite <- Hline, split_once_first by done.
    rewrite IH with (rest := rest); [|done|simpl in Hn; lia|done].
    cbn. by rewrite Htl.
Qed.

Lemma parse_header_encoded (hs : list (list ascii * value))
    (h : SocketHandler) (rest : list ascii) :
  forallb header_ok hs = true -> (length hs <? 32)%nat = true ->
  header (request h) = [] ->
  pull_buffer h = concat (format_header_line <$> hs) ++ CRLF ++ rest ->
  parse_header h
  = Parsed (set_request (set_header (lowered hs) (request h)) (set_buffer rest h)).
Proof.
  intros Hok Hn%Nat.ltb_lt Hh Hbuf. unfold parse_header, lowered.
  rewrite (parse_header_loop_encoded hs 32 h rest) by done. by rewrite Hh.
Qed.

Lemma validate_allowed (h : SocketHandler) :
  banned (header (request h)) = false -> validate h = (true, h).
Proof. intros Hb. unfold validate. by rewrite Hb. Qed.

Lemma validate_banned (h : SocketHandler) :
  banned (header (request h)) = true -> validate h = (false, shutdown h).
Proof. intros Hb. unfold validate. by rewrite Hb. Qed.

Lemma read_exact_whole (c rest : list ascii) (h : SocketHandler) :
  c <> [] -> pull_buffer h = c ++ rest ->
  read_exact (Z.of_nat (length c)) h = Got c (set_buffer rest h).
Proof.
  intros Hc Hbuf. unfold read_exact.
  destruct (Z.ltb_spec (Z.of_nat (length c)) (-1)); [lia|].
  destruct (Z.eqb_spec (Z.of_nat (length c)) (-1)); [lia|].
  rewrite Hbuf, Nat2Z.id.
  rewrite take_app_length, drop_app_length.
  destruct (length c) eqn:Hlen; [by destruct c|].
  cbn [read_exact_loop]. rewrite Hlen, Z.ltb_irrefl, andb_false_r.
  by destruct c.
Qed.

Lemma int_truthy (o : option value) (n : Z) :
  o ≫= to_int = Some n -> n <> 0 -> truthy_val o = true.
Proof.
  destruct o as [[[|x t]|m]|]; try done.
  cbn. intros [= ->] Hn. by apply negb_true_iff, Z.eqb_neq.
Qed.

(** What follows the blank line after the headers of an encoded request. *)
Lemma get_data_layout (r : Request) :
  well_formed r = true ->
  get_data r
  = Some (format_request_line r
          ++ concat (format_header_line <$> header r) ++ CRLF
          ++ default [] (content r) ++ trailer r).
Proof.
  unfold well_formed. rewrite !andb_true_iff.
  intros (((((Hline & _) & _) & _) & _) & Hcontent).
  assert (verify r = true) as Hv.
  { unfold verify.
    destruct (request_line_ok_cases r Hline)
      as [(m & p & Hm & Hc & _ & _ & Tm & _)|(c & msg & Hm & Hc & _ & _ & Tc & _)];
      rewrite Hm, Hc.
    - by rewrite (token_truthy m Tm).
    - by rewrite Tc. }
  unfold get_data. rewrite Hv. cbn [negb]. f_equal. f_equal.
  unfold format_headers, trailer, content_ok, lowered in *.
  destruct (content r) as [c|], (header r) as [|kv hs]; cbn [default];
    rewrite <- ?app_assoc, ?app_nil_r; try done.
  cbn in Hcontent. by rewrite andb_false_r in Hcontent.
Qed.

Lemma parse_content_encoded (r : Request) (h : SocketHandler) (rest : list ascii) :
  content_ok r = true ->
  header (request h) = lowered (header r) ->
  pull_buffer h = default [] (content r) ++ rest ->
  parse_content h
  = Parsed (set_request (set_content (content r) (request h))
                        (set_buffer rest h))
    \/ (content r = None
        /\ parse_content h = Parsed h).
Proof.
  intros Hok Hh Hbuf. unfold content_ok in Hok. unfold parse_content.
  rewrite Hh. destruct (content r) as [c|].
  - left. apply andb_true_iff in Hok as [Hc%bool_decide_eq_true Hn%bool_decide_eq_true].
    rewrite (int_truthy _ _ Hn), Hn by (destruct c; [done|simpl; lia]).
    by rewrite (read_exact_whole c rest h).
  - right. apply negb_true_iff in Hok. by rewrite Hok.
Qed.

(** C3 (amended): every request accepted by [well_formed] is encoded, and
    parsing the encoding yields the same request with its header keys
    lowercased and its header values and response code as the text they
    print as, leaving in the stream only what the encoder put after the
    frame.  [well_formed] takes a request (method, path and version single
    words, the method not starting with [HTTP/], no [?] in the path, no
    code or message) or a response (version starting with [HTTP/], code
    and message single words, no method or path), with an empty query
    mapping, at most 31 headers whose keys have no colon, no line feed and
    no leading blank and whose values print without line feed and without
    blanks at either end, that pass the deny list, and whose content is
    absent (with no [content-length] that counts as true) or non-empty
    with a [content-length] that [int] reads as its length. *)
Theorem encode_decode_round_trip (r : Request) (rest : list ascii) :
  well_formed r = true ->
  exists bytes,
    get_data r = Some bytes
    /\ parse_request (listening (bytes ++ rest))
       = Dispatch (decoded r) (listening (trailer r ++ rest)).
Proof.
  intros Hwf. rewrite (get_data_layout r Hwf). eexists. split; [done|].
  unfold well_formed in Hwf. rewrite !andb_true_iff in Hwf.
  destruct Hwf as (((((Hline & Hq%bool_decide_eq_true) & Hhs) & Hn)
                    & Hban%negb_true_iff) & Hcontent).
  unfold parse_request.
  rewrite (parse_request_line_encoded r _
             (concat (format_header_line <$> header r) ++ CRLF
              ++ default [] (content r) ++ trailer r ++ rest));
    [|done|done|by unfold listening; cbn [pull_buffer]; rewrite <- !app_assoc].
  rewrite (parse_header_encoded (header r) _
             (default [] (content r) ++ trailer r ++ rest)) by done.
  rewrite validate_allowed by done.
  destruct (parse_content_encoded r
              (set_request (set_header (lowered (header r)) (started r))
                 (set_buffer (default [] (content r) ++ trailer r ++ rest)
                    (set_request (started r)
                       (set_buffer (concat (format_header_line <$> header r)
                                    ++ CRLF ++ default [] (content r)
                                    ++ trailer r ++ rest)
                          (listening ((format_request_line r
                                       ++ concat (format_header_line <$> header r)
                                       ++ CRLF ++ default [] (content r)
                                       ++ trailer r) ++ rest))))))
              (trailer r ++ rest) Hcontent eq_refl eq_refl)
    as [Hpc|[Hnone Hpc]].
  - cbn in Hpc. cbn. rewrite Hpc. cbn. f_equal.
    unfold decoded, set_header, set_content, started. cbn.
    destruct r; cbn in *. by subst.
  - cbn in Hpc. cbn. rewrite Hpc. cbn.
    unfold decoded, set_header, started. cbn.
    destruct r; cbn in *. subst. done.
Qed.

Lemma dset_fresh {V} (k : list ascii) (v : V) (d : list (list ascii * V)) :
  k ∉ d.*1 -> dset k v d = d ++ [(k, v)].
Proof.
  induction d as [|[k' v'] d IH]; intros Hk; simpl; [done|].
  simpl in Hk. apply not_elem_of_cons in Hk as [Hne Hk].
  rewrite decide_False by done. by rewrite IH.
Qed.

Lemma lowered_from (acc hs : list (list ascii * value)) :
  NoDup (acc.*1 ++ hs.*1) -> Forall (fun kv => lower kv.1 = kv.1) hs ->
  foldl (fun d kv => dset (lower kv.1) (as_text kv.2) d) acc hs
  = acc ++ (prod_map id as_text <$> hs).
Proof.
  revert acc. induction hs as [|[k v] hs IH]; intros acc Hnd Hlow.
  - by rewrite app_nil_r.
  - apply Forall_cons in Hlow as [Hk Hlow]. cbn [fst snd] in Hk.
    cbn [foldl fst snd]. rewrite Hk.
    rewrite fmap_cons in Hnd. cbn [fst] in Hnd.
    rewrite dset_fresh.
    + rewrite IH; [by rewrite <- app_assoc| |done].
      rewrite fmap_app. cbn. by rewrite <- app_assoc.
    + apply NoDup_app in Hnd as (_ & Hdis & _).
      intros Hin. apply (Hdis _ Hin). apply list_elem_of_here.
Qed.

(** With lowercase, pairwise different header keys the decoded request is
    the request itself, its values printed. *)
Lemma decoded_same (r : Request) :
  NoDup (header r).*1 -> Forall (fun kv => lower kv.1 = kv.1) (header r) ->
  decoded r
  = mkRequest (method r) (as_text <$> code r) (message r) (version r) (path r)
              (queries r) (prod_map id as_text <$> header r) (content r).
Proof.
  intros Hnd Hlow. unfold decoded, lowered.
  by rewrite (lowered_from [] (header r)).
Qed.

(** The amended C3 at a sign-on request with a mixed-case header key, a
    three-byte body and the length [add_content] stores for it. *)
Lemma encode_decode_round_trip_witness :
  exists bytes,
    get_data sign_on = Some bytes
    /\ parse_request (listening (bytes ++ txt "START / HTTP/1.1"))
       = Dispatch (decoded sign_on) (listening (txt "START / HTTP/1.1"))
    /\ dget (txt "name") (header (decoded sign_on)) = Some (Str (txt "sense-1"))
    /\ dget (txt "content-length") (header sign_on) = Some (Int 3)
    /\ dget (txt "content-length") (header (decoded sign_on))
       = Some (Str (txt "3")).
Proof.
  destruct (encode_decode_round_trip sign_on (txt "START / HTTP/1.1") eq_refl)
    as (bytes & Hb & Hp).
  exists bytes. split; [exact Hb|]. split; [exact Hp|]. by vm_compute.
Defined.

(** C3 as stated: the encoder never writes the query mapping, so it does
    not survive the round trip; and a header value stored as a number
    (the [content-length] of [add_content]) comes back as a string.  In
    both cases the parsed request differs from the request with its header
    keys lowercased. *)
Lemma query_mapping_lost :
  get_data get_with_query = Some (txt "GET /stream HTTP/1.1" ++ CRLF ++ CRLF)
  /\ (exists r h,
        parse_request (listening (txt "GET /stream HTTP/1.1" ++ CRLF ++ CRLF))
        = Dispatch r h
        /\ queries r = []
        /\ r <> lower_keys get_with_query)
  /\ queries (lower_keys get_with_query) = [(txt "id", txt "7")]
  /\ (exists bytes r h,
        get_data sign_on = Some bytes
        /\ parse_request (listening bytes) = Dispatch r h
        /\ dget (txt "content-length") (header r) = Some (Str (txt "3"))
        /\ dget (txt "content-length") (header (lower_keys sign_on))
           = Some (Int 3)
        /\ r <> lower_keys sign_on).
Proof.
  split; [reflexivity|]. split; [|split; [reflexivity|]].
  - eexists _, _. split; [by vm_compute|]. split; [reflexivity|]. discriminate.
  - eexists _, _, _. split; [by vm_compute|]. split; [by vm_compute|].
    split; [reflexivity|]. split; [reflexivity|]. discriminate.
Qed.

(** *** Line limits *)

(** C4 (code defect): a 2000-byte header line and a 316-byte start line,
    each ended by CRLF, are parsed and the request is dispatched; the
    handler is not shut down. *)
Theorem oversized_lines_are_accepted :
  length long_header_line = 2000%nat
  /\ length long_start_line = 316%nat
  /\ (exists r h,
        parse_request (listening (txt "GET / HTTP/1.1" ++ CRLF
                                  ++ long_header_line ++ CRLF))
        = Dispatch r h
        /\ dget (txt "x") (header r) = Some (Str (replicate 1995 "a"%char))
        /\ h_exit h = false /\ h_close h = false)
  /\ (exists r h,
        parse_request (listening (long_start_line ++ CRLF)) = Dispatch r h
        /\ path r = Some ("/"%char :: replicate 300 "a"%char)
        /\ h_exit h = false /\ h_close h = false).
Proof.
  split; [reflexivity|]. split; [reflexivity|].
  split; eexists _, _; (split; [vm_compute; reflexivity|]); by vm_compute.
Qed.

(** The count limit does hold: 32 header lines and no blank line within
    the first 32 reads end in "Too many headers" and a shutdown. *)
Lemma too_many_headers (hs : list (list ascii * value)) (h : SocketHandler)
    (rest : list ascii) :
  forallb header_ok hs = true -> length hs = 32%nat ->
  pull_buffer h = concat (format_header_line <$> hs) ++ rest ->
  exists h', parse_header h = Rejected h' /\ h_exit h' = true /\ h_close h' = true.
Proof.
  unfold parse_header. generalize 32%nat as n.
  intros n. revert n h. induction hs as [|[k v] hs IH]; intros n h Hok Hn Hbuf.
  - simpl in Hn. subst n. by eexists.
  - destruct n as [|n]; [done|]. cbn [parse_header_loop].
    cbn [forallb] in Hok. apply andb_true_iff in Hok as [Hkv Hok].
    destruct (strip_header_line k v Hkv) as (tl & Hstrip & Htl).
    pose proof (header_line_no_lf k v Hkv) as Hlf.
    pose proof Hkv as (_ & Hcolon & _)%header_ok_spec.
    rewrite fmap_cons, concat_cons in Hbuf.
    unfold format_header_line in Hbuf at 1. cbn [fst snd] in Hbuf.
    rewrite (read_line_complete 1024 (k ++ txt ": " ++ str v)
               (concat (format_header_line <$> hs) ++ rest) h);
      [|done|by rewrite Hbuf, <- !app_assoc].
    replace ((k ++ txt ": " ++ str v) ++ CRLF) with (format_header_line (k, v))
      by (unfold format_header_line; cbn [fst snd]; by rewrite <- !app_assoc).
    rewrite Hstrip.
    destruct (k ++ ":"%char :: tl) as [|x line] eqn:Hline;
      [by destruct k|].
    rewrite <- Hline, split_once_first by done.
    apply IH; [done|simpl in Hn; lia|done].
Qed.

(** *** The deny list *)

(** C5 (code defect): a host header that contains the deny-list word
    [webredirect] without being equal to it is not denied: the body is
    read and the request is dispatched. *)
Theorem host_substring_is_not_denied :
  contains (txt "webredirect") (txt "a.webredirect.org") = true
  /\ txt "webredirect" ∈ host_keywords
  /\ exists r h,
       parse_request (listening denied_host_frame) = Dispatch r h
       /\ dget (txt "host") (header r) = Some (Str (txt "a.webredirect.org"))
       /\ content r = Some (txt "abc")
       /\ pull_buffer h = []
       /\ h_exit h = false.
Proof.
  split; [reflexivity|]. split; [apply list_elem_of_here|].
  eexists _, _. split; [vm_compute; reflexivity|]. by vm_compute.
Qed.

Lemma existsb_elem {A} (f : A -> bool) (x : A) (l : list A) :
  x ∈ l -> f x = true -> existsb f l = true.
Proof.
  intros Hin Hf. apply existsb_exists. exists x. split; [|done].
  by apply list_elem_of_In.
Qed.

(** The user-agent half of the deny list works as a substring test. *)
Lemma agent_substring_is_banned (hdr : list (list ascii * value))
    (agent keyword : list ascii) :
  dget (txt "user-agent") hdr = Some (Str agent) ->
  keyword ∈ agent_keywords -> contains keyword agent = true ->
  banned hdr = true.
Proof.
  intros Ha Hk Hc. unfold banned. rewrite Ha.
  apply orb_true_iff. right. apply andb_true_iff. split.
  - destruct agent as [|x agent]; [|done]. unfold agent_keywords in Hk.
    repeat (apply elem_of_cons in Hk as [->|Hk]; [by vm_compute in Hc|]).
    by apply not_elem_of_nil in Hk.
  - apply (existsb_elem _ keyword); [done|exact Hc].
Qed.

(** A banned request is never dispatched, the handler is shut down, and
    the bytes after the headers stay unread. *)
Lemma banned_request_not_dispatched (h h1 h2 : SocketHandler) :
  parse_request_line h = Parsed h1 -> parse_header h1 = Parsed h2 ->
  banned (header (request h2)) = true ->
  parse_request h = NoRequest (shutdown h2)
  /\ pull_buffer (shutdown h2) = pull_buffer h2
  /\ h_exit (shutdown h2) = true.
Proof.
  intros H1 H2 Hb. unfold parse_request.
  by rewrite H1, H2, (validate_banned h2 Hb).
Qed.

End CodecFacts.

(** ** More facts about the ring buffer: writing, resizing and reading *)

Module RingRunFacts.
Import Py Ring RingFacts.

Lemma dget_is_Some_dset (c name : string) (v : list Z) (d : table) :
  is_Some (dget name d) -> is_Some (dget name (dset c v d)).
Proof.
  intros Hd. destruct (decide (c = name)) as [->|Hne].
  - by rewrite dget_dset_eq.
  - by rewrite dget_dset_ne.
Qed.

(** Row [i] can be stored when every named column exists on both sides,
    the batch has a value at [i], and [head] is a slot of the ring. *)
Lemma write_row_total i new h cols (n : Z) :
  forall d,
    Forall (fun c => exists src v, dget c new = Some src /\ getitem i src = Some v) cols ->
    Forall (fun c => is_Some (dget c d)) cols ->
    0 <= h < n ->
    Forall (fun nc : string * column => Z.of_nat (length nc.2) = n) d ->
    is_Some (write_row i new h cols d).
Proof.
  induction cols as [|c cols IH]; intros d Hnew Hd Hh Hlen; [by eexists|].
  apply Forall_cons in Hnew as [(src & v & Hsrc & Hv) Hnew].
  apply Forall_cons in Hd as [[dst Hdst] Hd].
  simpl. rewrite Hsrc. simpl. rewrite Hv. simpl. rewrite Hdst. simpl.
  pose proof (dget_Forall (fun c0 : column => Z.of_nat (length c0) = n)
                _ _ _ Hlen Hdst) as Hdl. simpl in Hdl.
  rewrite setitem_in_range by lia. simpl.
  apply IH; [done| |done|].
  - eapply Forall_impl; [exact Hd|]. intros name. apply dget_is_Some_dset.
  - apply (dset_Forall (fun c0 : column => Z.of_nat (length c0) = n)); [done|].
    rewrite length_insert. done.
Qed.

Lemma write_row_keeps i new h cols :
  forall d d' name,
    write_row i new h cols d = Some d' ->
    is_Some (dget name d) -> is_Some (dget name d').
Proof.
  induction cols as [|c cols IH]; intros d d' name Hw Hd; simpl in Hw.
  - by injection Hw as <-.
  - destruct (dget c new) as [src|]; [|done]. simpl in Hw.
    destruct (getitem i src) as [v|]; [|done]. simpl in Hw.
    destruct (dget c d) as [dst|]; [|done]. simpl in Hw.
    destruct (setitem h v dst) as [dst'|]; [|done]. simpl in Hw.
    eapply IH; [exact Hw|]. by apply dget_is_Some_dset.
Qed.

Lemma write_point_data i new r r' :
  write_point i new r = Some r' ->
  exists d, write_row i new (r_head r) (r_names r) (r_data r) = Some d
            /\ r_data r' = d
            /\ r_read_events r' = r_read_events r
            /\ r_head_data r' = r_head_data r
            /\ r_head_data_json r' = r_head_data_json r.
Proof.
  unfold write_point. destruct (write_row _ _ _ _ _) as [d|]; [|done]. simpl.
  unfold move_head, move_tail, pymod. simpl.
  destruct (r_size r =? 0); [done|]. simpl.
  destruct (r_size r =? r_length r); simpl.
  - destruct (r_size r =? 0); [done|]. simpl. intros [= <-]. by exists d.
  - intros [= <-]. by exists d.
Qed.

Lemma write_point_total i new r :
  inv r -> tail_in_range r = true ->
  Forall (fun c => exists src v, dget c new = Some src /\ getitem i src = Some v)
         (r_names r) ->
  Forall (fun c => is_Some (dget c (r_data r))) (r_names r) ->
  is_Some (write_point i new r).
Proof.
  intros Hinv Ht Hnew Hd. pose proof Hinv as [Hl Hc Hh].
  destruct (head_slot r Hinv Ht) as [Hhead _].
  pose proof Ht as Ht'%tail_in_range_spec.
  destruct (write_row_total i new (r_head r) (r_names r) (r_size r) (r_data r))
    as [d Hrow]; try done.
  unfold write_point. rewrite Hrow. simpl.
  unfold move_head, move_tail, pymod. simpl.
  assert ((r_size r =? 0) = false) as E by (apply Z.eqb_neq; lia).
  rewrite E. simpl. destruct (r_size r =? r_length r); simpl; [|by eexists].
  rewrite E. by eexists.
Qed.

Lemma write_points_total idxs new :
  forall r,
    inv r -> tail_in_range r = true ->
    Forall (fun i => Forall (fun c => exists src v,
                               dget c new = Some src /\ getitem i src = Some v)
                            (r_names r)) idxs ->
    Forall (fun c => is_Some (dget c (r_data r))) (r_names r) ->
    is_Some (write_points idxs new r).
Proof.
  induction idxs as [|i idxs IH]; intros r Hinv Ht Hnew Hd; [by eexists|].
  apply Forall_cons in Hnew as [Hi Hnew].
  destruct (write_point_total i new r Hinv Ht Hi Hd) as [r1 H1].
  simpl. rewrite H1. simpl.
  destruct (write_point_facts _ _ _ _ Hinv Ht H1) as [Hi1 Ht1 Hs1 Hn1 Hh1 Hl1].
  destruct (write_point_data _ _ _ _ H1) as (d & Hrow & Hdata & _).
  apply IH; [done|done| |].
  - by rewrite Hn1.
  - rewrite Hn1, Hdata. eapply Forall_impl; [exact Hd|].
    intros name. by apply write_row_keeps with (1 := Hrow).
Qed.

Lemma write_points_events idxs new :
  forall r r',
    write_points idxs new r = Some r' ->
    r_read_events r' = r_read_events r
    /\ r_head_data r' = r_head_data r
    /\ r_head_data_json r' = r_head_data_json r.
Proof.
  induction idxs as [|i idxs IH]; intros r r' Hw; simpl in Hw.
  - by injection Hw as <-.
  - destruct (write_point i new r) as [r1|] eqn:H1; [|done]. simpl in Hw.
    destruct (write_point_data _ _ _ _ H1) as (_ & _ & _ & He & Hh & Hj).
    destruct (IH _ _ Hw) as (He' & Hh' & Hj'). split; [|split]; congruence.
Qed.

Lemma getitem_in_range {A} (i : nat) (l : list A) :
  (i < length l)%nat -> exists v, getitem (Z.of_nat i) l = Some v.
Proof.
  intros Hi. unfold getitem.
  assert ((Z.of_nat i <? - Z.of_nat (length l)) = false) as -> by lia.
  assert ((Z.of_nat (length l) <=? Z.of_nat i) = false) as -> by lia.
  simpl. assert ((Z.of_nat i <? 0) = false) as -> by lia.
  rewrite Nat2Z.id. by apply lookup_lt_is_Some_2.
Qed.

(** X1.  [GraphRingBuffer.write] on a well-formed ring: when the ring and
    the batch both have a column for every name and every batch column is
    at least as long as the first one, the write goes through, the ring
    invariant still holds, [head] has advanced by the number of rows modulo
    [size], and [length] has grown by that number but never beyond [size]. *)
Theorem write_succeeds_and_keeps_invariant (new : table) (r : GraphRingBuffer)
    (first : column) :
  invariant r = true -> tail_in_range r = true ->
  Forall (fun c => is_Some (dget c (r_data r))) (r_names r) ->
  head (dvalues new) = Some first ->
  Forall (fun c => exists src, dget c new = Some src
                               /\ (length first <= length src)%nat) (r_names r) ->
  exists r',
    write new r = Some r'
    /\ invariant r' = true /\ tail_in_range r' = true
    /\ r_size r' = r_size r
    /\ r_head r' = (r_head r + Z.of_nat (length first)) mod r_size r
    /\ r_length r' = Z.min (r_size r) (r_length r + Z.of_nat (length first)).
Proof.
  intros Hinv%invariant_inv Ht Hd Hfirst Hnew.
  set (r0 := mkRing (r_size r) (r_length r) (r_tail r) (r_head r) (r_names r)
                    (r_data r) new (Some new) (r_read_events r)).
  assert (inv r0) as Hinv0 by (destruct Hinv; by split).
  destruct (write_points_total (Z.of_nat <$> seq 0 (length first)) new r0)
    as [r1 H1]; try done.
  { apply Forall_fmap, Forall_forall. intros i Hi%elem_of_seq. simpl.
    eapply Forall_impl; [exact Hnew|]. intros c (src & Hsrc & Hlen).
    destruct (getitem_in_range i src) as [v Hv]; [lia|]. by exists src, v. }
  assert (write new r = Some (set_events ((fun _ => true) <$> r_read_events r1) r1))
    as Hw.
  { unfold write. rewrite Hfirst. simpl. fold r0. by rewrite H1. }
  eexists. split; [exact Hw|].
  destruct (write_facts new r _ first Hinv Ht Hw Hfirst)
    as (Hi & Ht' & Hs & Hh & Hl & _).
  split; [by apply invariant_inv|]. done.
Qed.

Lemma write_succeeds_and_keeps_invariant_witness :
  exists r',
    write [("x"%string, [7; 8; 9; 10])] ring_two_of_five = Some r'
    /\ invariant r' = true /\ tail_in_range r' = true
    /\ r_size r' = 5
    /\ r_head r' = 1
    /\ r_length r' = 5.
Proof.
  destruct (write_succeeds_and_keeps_invariant
              [("x"%string, [7; 8; 9; 10])] ring_two_of_five [7; 8; 9; 10])
    as (r' & H); [reflexivity|reflexivity| | reflexivity | |].
  - repeat constructor; by eexists.
  - repeat constructor. eexists. split; [reflexivity|simpl; lia].
  - exists r'. exact H.
Defined.

(** X2.  First in, first out: after [write], the points a named column
    holds, oldest first, are the points it held before followed by the rows
    of the batch, cut to the last [size] of them; so a batch longer than
    the free space overwrites the oldest points and nothing else. *)
Theorem write_appends_and_drops_oldest (new : table) (r r' : GraphRingBuffer)
    (first : column) (name : string) (col src : column) :
  invariant r = true -> tail_in_range r = true -> write new r = Some r' ->
  head (dvalues new) = Some first ->
  name ∈ r_names r -> dget name (r_data r) = Some col ->
  dget name new = Some src ->
  exists col',
    dget name (r_data r') = Some col'
    /\ chrono r' col' = newest (r_size r) (chrono r col ++ take (length first) src).
Proof.
  intros Hinv%invariant_inv Ht Hw Hfirst Hin Hcol Hsrc.
  by apply (write_chrono new r r' first name col src).
Qed.

Lemma write_appends_and_drops_oldest_witness :
  exists r' col',
    write [("x"%string, [7; 8; 9; 10])] ring_two_of_five = Some r'
    /\ dget "x"%string (r_data r') = Some col'
    /\ chrono r' col' = [2; 7; 8; 9; 10].
Proof.
  set (new := [("x"%string, [7; 8; 9; 10])]).
  set (r' := mkRing 5 5 1 1 ["x"%string] [("x"%string, [10; 2; 7; 8; 9])]
                    new (Some new) []).
  assert (write new ring_two_of_five = Some r') as Hw by (vm_compute; reflexivity).
  destruct (write_appends_and_drops_oldest new ring_two_of_five r' [7; 8; 9; 10]
              "x"%string [1; 2; 0; 0; 0] [7; 8; 9; 10])
    as (col' & Hc & Hch); [reflexivity|reflexivity|exact Hw|reflexivity| |
                           reflexivity|reflexivity|].
  - apply list_elem_of_In. simpl. by left.
  - exists r', col'. split; [exact Hw|]. split; [exact Hc|exact Hch].
Defined.

(** X3.  [set_size] re-establishes the ring invariant whenever the new
    size is positive and no larger than the number of points held, or is at
    least the old size: afterwards every column has exactly the new number
    of slots, [tail] is 0 and [length] is the smaller of the old length and
    the new size. *)
Theorem set_size_keeps_invariant (r : GraphRingBuffer) (k : Z) :
  invariant r = true -> tail_in_range r = true ->
  0 < k <= r_length r \/ r_size r <= k ->
  invariant (set_size k r) = true
  /\ tail_in_range (set_size k r) = true
  /\ r_size (set_size k r) = k
  /\ r_length (set_size k r) = Z.min k (r_length r)
  /\ (k <> r_size r -> r_tail (set_size k r) = 0).
Proof.
  intros Hinv%invariant_inv Ht Hk.
  destruct (set_size_inv r k Hinv Ht Hk) as [Hi Ht'].
  split; [by apply invariant_inv|]. split; [done|].
  pose proof Hinv as [Hl Hc Hh]. pose proof Ht as Hs%tail_in_range_spec.
  destruct (decide (k = r_size r)) as [->|Hne].
  { unfold set_size. rewrite Z.eqb_refl. repeat split; [lia|done]. }
  destruct Hk as [Hk|Hk].
  - rewrite set_size_shrink by (done || lia). simpl. repeat split; lia.
  - rewrite set_size_grow by (done || lia). simpl. repeat split; lia.
Qed.

Lemma set_size_keeps_invariant_witness :
  invariant (set_size 2 ring_full3) = true
  /\ tail_in_range (set_size 2 ring_full3) = true
  /\ r_size (set_size 2 ring_full3) = 2
  /\ r_length (set_size 2 ring_full3) = Z.min 2 (r_length ring_full3)
  /\ (2 <> r_size ring_full3 -> r_tail (set_size 2 ring_full3) = 0).
Proof.
  apply (set_size_keeps_invariant ring_full3 2); [reflexivity|reflexivity|].
  left. simpl. lia.
Defined.

(** X4.  [read_all] hands out the ring rotated so that the oldest point of
    every column sits at index 0, without losing or reordering a point: the
    invariant still holds, [tail] is 0, size and length are unchanged, and
    another reader calling [read_all] right after gets the same table. *)
Theorem read_all_rotates_in_place (r r' : GraphRingBuffer) (ev ev' : nat)
    (block : bool) (t : table) :
  invariant r = true -> tail_in_range r = true ->
  read_all ev block r = Ret (Some t) r' ->
  t = prod_map id (sort_col (r_tail r)) <$> r_data r
  /\ r_data r' = t
  /\ prod_map id (chrono r') <$> t = prod_map id (chrono r) <$> r_data r
  /\ invariant r' = true
  /\ r_tail r' = 0 /\ r_size r' = r_size r /\ r_length r' = r_length r
  /\ (is_set ev' r' = true ->
      exists r'', read_all ev' block r' = Ret (Some t) r'').
Proof.
  intros Hinv%invariant_inv Ht Hread.
  destruct (read_all_inv ev block r _ r' Hinv Ht Hread) as [Hi' Ht'].
  pose proof Hinv as [Hl Hc Hh]. pose proof Ht as Hs%tail_in_range_spec.
  unfold read_all in Hread.
  destruct (is_set ev r); [|by destruct block].
  injection Hread as Ht0 <-. subst t.
  assert (r_data (update (sort (clear_event ev r)))
          = prod_map id (sort_col (r_tail r)) <$> r_data r) as Hdata.
  { unfold update, sort, clear_event. simpl. by destruct (r_length r <? r_size r). }
  assert (r_tail (update (sort (clear_event ev r))) = 0) as Htail.
  { unfold update. by destruct (_ <? _). }
  assert (r_size (update (sort (clear_event ev r))) = r_size r) as Hsize.
  { unfold update. by destruct (_ <? _). }
  assert (r_length (update (sort (clear_event ev r))) = r_length r) as Hlen.
  { unfold update, sort, clear_event. simpl.
    destruct (Z.ltb_spec (r_length r) (r_size r)); simpl; lia. }
  rewrite Hdata. split; [done|]. split; [done|]. split.
  { rewrite fmap_cols_compose.
    apply (fmap_cols_ext _ _ _ (fun c => Z.of_nat (length c) = r_size r)); [done|].
    intros c Hc0. unfold compose, chrono. rewrite Htail, Hlen.
    rewrite sort_col_0. done. }
  split; [by apply invariant_inv|]. do 3 (split; [done|]).
  intros Hev'. eexists. rewrite read_all_sorted by done. by rewrite Hdata.
Qed.

Lemma read_all_rotates_in_place_witness :
  exists r',
    read_all 0 true ring_full3 = Ret (Some [("x"%string, [2; 3; 4])]) r'
    /\ r_data r' = [("x"%string, [2; 3; 4])]
    /\ r_tail r' = 0.
Proof.
  destruct (read_all 0 true ring_full3) as [[t|] r'|] eqn:Hr;
    [|discriminate Hr|discriminate Hr].
  destruct (read_all_rotates_in_place ring_full3 r' 0%nat 0%nat true t
              eq_refl eq_refl Hr) as (Ht & Hd & _ & _ & Htail & _).
  exists r'. subst t. rewrite Hd. repeat split. exact Htail.
Defined.

(** X5.  [GraphRingBuffer.read] after a [write]: every registered reader,
    blocking or not, gets the batch just written (as the dictionary, or as
    its JSON text), once; the same reader's next non-blocking read returns
    [None] and its next blocking read waits for another write. *)
Theorem read_returns_the_last_batch (new : table) (r r' : GraphRingBuffer)
    (ev : nat) (block : bool) :
  write new r = Some r' -> (ev < length (r_read_events r))%nat ->
  read ev false block r' = Ret (Some (Dict new)) (clear_event ev r')
  /\ read ev true block r' = Ret (Some (Json (Some new))) (clear_event ev r')
  /\ (forall json, read ev json false (clear_event ev r') = Ret None (clear_event ev r'))
  /\ (forall json, read ev json true (clear_event ev r') = Blocked).
Proof.
  intros Hw Hev. unfold write in Hw.
  destruct (head (dvalues new)) as [first|]; [|done]. simpl in Hw.
  destruct (write_points _ _ _) as [r1|] eqn:H1; [|done]. simpl in Hw.
  injection Hw as <-.
  destruct (write_points_events _ _ _ _ H1) as (He & Hh & Hj). simpl in *.
  assert (is_set ev (set_events ((fun _ => true) <$> r_read_events r1) r1) = true)
    as Hset.
  { unfold is_set. simpl. rewrite He, list_lookup_fmap.
    by destruct (lookup_lt_is_Some_2 _ _ Hev) as [x ->]. }
  assert (forall r2, is_set ev (clear_event ev r2) = false) as Hclr.
  { intros r2. unfold is_set, clear_event. simpl.
    destruct (decide (ev < length (r_read_events r2))%nat).
    - by rewrite list_lookup_insert_eq.
    - rewrite list_insert_ge by lia. by rewrite lookup_ge_None_2 by lia. }
  unfold read. rewrite Hset, Hclr. simpl. rewrite Hh, Hj. done.
Qed.

Lemma read_returns_the_last_batch_witness :
  read 0 false true ring_full3
  = Ret (Some (Dict [("x"%string, [3; 4])])) (clear_event 0 ring_full3).
Proof.
  set (r1 := mkRing 3 2 0 2 ["x"%string] [("x"%string, [1; 2; 0])]
                    [("x"%string, [1; 2])] (Some [("x"%string, [1; 2])]) [true]).
  assert (write [("x"%string, [3; 4])] r1 = Some ring_full3) as Hw
    by (vm_compute; reflexivity).
  destruct (read_returns_the_last_batch [("x"%string, [3; 4])] r1 ring_full3
              0%nat true Hw) as [H _]; [simpl; lia|].
  exact H.
Defined.

End RingRunFacts.

Module BufferFacts.
Import Buffers.

Section DataBuffer.
Context {D : Type}.

Lemma write_all_snoc (ws : list D) (w : D) (b : DataBuffer D) :
  write_all (ws ++ [w]) b = write w (write_all ws b).
Proof. unfold write_all. by rewrite foldl_app. Qed.

Lemma write_all_events (ws : list D) (b : DataBuffer D) :
  length (read_events (write_all ws b)) = length (read_events b).
Proof.
  revert b. induction ws as [|w ws IH]; intros b; [done|].
  unfold write_all in *. simpl. rewrite IH. simpl. by rewrite length_fmap.
Qed.

Lemma is_set_write (w : D) (b : DataBuffer D) (ev : nat) :
  (ev < length (read_events b))%nat -> is_set ev (write w b) = true.
Proof.
  intros Hev. unfold is_set, write. simpl. rewrite list_lookup_fmap.
  destruct (lookup_lt_is_Some_2 _ _ Hev) as [x ->]. done.
Qed.

Lemma is_set_clear_eq (b : DataBuffer D) (ev : nat) : is_set ev (clear ev b) = false.
Proof.
  unfold is_set, clear. simpl.
  destruct (decide (ev < length (read_events b))%nat) as [Hlt|Hge].
  - by rewrite list_lookup_insert_eq.
  - rewrite list_insert_ge by lia. rewrite lookup_ge_None_2 by lia. done.
Qed.

Lemma is_set_clear_ne (b : DataBuffer D) (ev ev' : nat) :
  ev <> ev' -> is_set ev' (clear ev b) = is_set ev' b.
Proof.
  intros Hne. unfold is_set, clear. simpl. by rewrite list_lookup_insert_ne.
Qed.

(** X6.  Latest-slot coalescing in [DataBuffer]: after any run of writes
    that ends with [w], a registered reader's next [read] (blocking or not)
    returns [w], whatever was written before it; the read uses up that
    reader's token only, so its next non-blocking read returns [None], its
    next blocking read waits, and every other registered reader still gets
    [w]. *)
Theorem read_returns_last_write (b : DataBuffer D) (ws : list D) (w : D)
    (ev : nat) (block : bool) :
  (ev < length (read_events b))%nat ->
  let b1 := write_all (ws ++ [w]) b in
  read ev block b1 = Ret (Some w) (clear ev b1)
  /\ read ev false (clear ev b1) = Ret None (clear ev b1)
  /\ read ev true (clear ev b1) = Blocked
  /\ forall ev', ev' <> ev -> (ev' < length (read_events b))%nat ->
       read ev' block (clear ev b1) = Ret (Some w) (clear ev' (clear ev b1)).
Proof.
  intros Hev b1.
  assert (is_set ev b1 = true) as Hset.
  { unfold b1. rewrite write_all_snoc. apply is_set_write.
    by rewrite write_all_events. }
  assert (data b1 = w) as Hdata by (unfold b1; by rewrite write_all_snoc).
  split; [|split; [|split]].
  - unfold read. rewrite Hset, Hdata. by destruct block.
  - unfold read. by rewrite is_set_clear_eq.
  - unfold read. by rewrite is_set_clear_eq.
  - intros ev' Hne Hev'. unfold read.
    rewrite is_set_clear_ne by done.
    assert (is_set ev' b1 = true) as ->.
    { unfold b1. rewrite write_all_snoc. apply is_set_write.
      by rewrite write_all_events. }
    simpl. rewrite Hdata. by destruct block.
Qed.

(** X7.  A token handed out by [get_read_lock] starts out set: the new
    reader's first [read] returns at once with whatever the buffer holds
    (the empty bytes on a buffer nobody has written to), and the tokens of
    the readers registered before are left as they were. *)
Theorem new_reader_reads_at_once (b : DataBuffer D) (block : bool) :
  let ev := (get_read_lock b).1 in
  let b1 := (get_read_lock b).2 in
  read ev block b1 = Ret (Some (data b)) (clear ev b1)
  /\ read_events (clear ev b1) = read_events b ++ [false].
Proof.
  simpl. unfold read, is_set, clear. simpl.
  rewrite lookup_app_r by lia. rewrite Nat.sub_diag. simpl.
  split; [by destruct block|].
  rewrite insert_app_r_alt by lia. by rewrite Nat.sub_diag.
Qed.
End DataBuffer.

Lemma read_returns_last_write_witness :
  read 1 true (write_all ([5; 6] ++ [7]) two_waiting_readers)
  = Ret (Some 7) (mkBuffer 7 [true; false]).
Proof.
  destruct (read_returns_last_write two_waiting_readers [5; 6] 7 1%nat true)
    as [H _]; [simpl; lia|]. exact H.
Defined.

End BufferFacts.

(** ** Facts about building, framing and streaming requests *)

Module WireFacts.
Import Py Codec CodecFacts Wire.

(** *** Characters, by enumeration *)

Lemma ascii_forall (P : ascii -> bool) :
  forallb P all_ascii = true -> forall c, P c = true.
Proof.
  intros Hall c. rewrite forallb_forall in Hall. apply Hall.
  apply list_elem_of_In. unfold all_ascii. apply list_elem_of_fmap.
  exists (nat_of_ascii c). split; [by rewrite ascii_nat_embedding|].
  apply elem_of_seq. pose proof (nat_ascii_bounded c). lia.
Qed.

Lemma ascii_decide (P : ascii -> Prop) `{!forall c, Decision (P c)} :
  forallb (fun c => bool_decide (P c)) all_ascii = true -> forall c, P c.
Proof.
  intros Hall c. eapply bool_decide_eq_true_1.
  apply (ascii_forall (fun c => bool_decide (P c)) Hall).
Qed.

Lemma lower_char_idem (c : ascii) : lower_char (lower_char c) = lower_char c.
Proof.
  revert c. apply (ascii_decide (fun c => lower_char (lower_char c) = lower_char c)).
  by vm_compute.
Qed.

Lemma lower_idem (s : list ascii) : lower (lower s) = lower s.
Proof.
  unfold lower. rewrite <- list_fmap_compose. apply list_fmap_ext.
  intros _ c _. apply lower_char_idem.
Qed.

Lemma isspace_lower_char (c : ascii) : isspace (lower_char c) = isspace c.
Proof.
  revert c. apply (ascii_decide (fun c => isspace (lower_char c) = isspace c)).
  by vm_compute.
Qed.

Lemma lower_char_keeps (x c : ascii) :
  x = LF \/ x = ":"%char -> lower_char c = x -> c = x.
Proof.
  intros [->| ->]; revert c.
  - apply (ascii_decide (fun c => lower_char c = LF -> c = LF)). by vm_compute.
  - apply (ascii_decide (fun c => lower_char c = ":"%char -> c = ":"%char)).
    by vm_compute.
Qed.

Lemma lower_no_char (x : ascii) (s : list ascii) :
  x = LF \/ x = ":"%char -> x ∉ s -> x ∉ lower s.
Proof.
  intros Hx Hs (c & Hc & Hin)%list_elem_of_fmap. apply Hs.
  symmetry in Hc. apply (lower_char_keeps x c Hx) in Hc. by subst.
Qed.

Lemma lstrip_lower (s : list ascii) : lstrip s = s -> lstrip (lower s) = lower s.
Proof.
  intros Hs%lstrip_id_head. destruct s as [|c s]; [done|].
  cbn. by rewrite isspace_lower_char, Hs.
Qed.

(** *** Decimal text *)

Lemma digit_char (m : Z) :
  0 <= m < 10 ->
  digit (ascii_of_N (Z.to_N (48 + m))) = Some m
  /\ isdigit (ascii_of_N (Z.to_N (48 + m))) = true.
Proof.
  intros Hm.
  assert (m = 0 \/ m = 1 \/ m = 2 \/ m = 3 \/ m = 4 \/ m = 5 \/ m = 6 \/ m = 7
          \/ m = 8 \/ m = 9) as H by lia.
  repeat (destruct H as [->|H]; [by vm_compute|]). subst. by vm_compute.
Qed.

Lemma isdigit_plain (c : ascii) :
  isdigit c = true -> isspace c = false /\ c <> LF /\ c <> ":"%char.
Proof.
  revert c.
  apply (ascii_decide (fun c => isdigit c = true ->
                         isspace c = false /\ c <> LF /\ c <> ":"%char)).
  by vm_compute.
Qed.

Lemma isdigit_int (c : ascii) :
  isdigit c = true ->
  int_space c = false /\ c <> "_"%char /\ c <> "+"%char /\ c <> "-"%char.
Proof.
  revert c.
  apply (ascii_decide (fun c => isdigit c = true ->
                         int_space c = false /\ c <> "_"%char /\ c <> "+"%char
                         /\ c <> "-"%char)).
  by vm_compute.
Qed.

Lemma isdigit_digit (c : ascii) : isdigit c = true -> exists v, digit c = Some v.
Proof. intros Hc%bool_decide_eq_true. by destruct Hc as [v Hv]; exists v. Qed.

Lemma int_from_digit (c : ascii) (v acc : Z) (s : list ascii) :
  digit c = Some v -> int_from acc (c :: s) = int_from (10 * acc + v) s.
Proof.
  intros Hd. cbn [int_from].
  destruct (decide (c = "_"%char)) as [->|_]; [by vm_compute in Hd|].
  by rewrite Hd.
Qed.

Lemma digits_int (fuel : nat) :
  forall (n : Z) (acc : list ascii),
    0 <= n <= Z.of_nat fuel ->
    int_from 0 (digits fuel n acc) = int_from n acc.
Proof.
  induction fuel as [|fuel IH]; intros n acc Hn.
  - assert (n = 0) as -> by lia. done.
  - cbn [digits]. pose proof (Z.mod_pos_bound n 10 ltac:(lia)) as Hm.
    destruct (digit_char (n mod 10) Hm) as [Hd _].
    destruct (Z.ltb_spec n 10).
    + rewrite (int_from_digit _ _ _ _ Hd). f_equal. rewrite Z.mod_small; lia.
    + rewrite IH.
      2:{ split; [apply Z.div_pos; lia|].
          assert (n / 10 < n) by (apply Z.div_lt; lia). lia. }
      rewrite (int_from_digit _ _ _ _ Hd). f_equal.
      pose proof (Z.div_mod n 10). lia.
Qed.

(** On a run of digits [int] has no blank to skip and no sign to read. *)
Lemma int_plain (s : list ascii) :
  forallb isdigit s = true -> s <> [] -> int s = int_from 0 s.
Proof.
  intros Hs Hne. unfold int.
  assert (forall t, forallb isdigit t = true -> int_skip t = t) as Hskip.
  { intros [|c t]; [done|]. cbn [forallb int_skip].
    intros [Hc _]%andb_true_iff. by destruct (isdigit_int c Hc) as [-> _]. }
  rewrite (Hskip s Hs), (Hskip (reverse s)), reverse_involutive
    by (by rewrite forallb_reverse).
  destruct s as [|c ds]; [done|]. cbn [forallb] in Hs.
  apply andb_true_iff in Hs as [Hc _].
  destruct (isdigit_int c Hc) as (_ & _ & Hplus & Hminus).
  rewrite !decide_False by done.
  destruct (isdigit_digit c Hc) as [v Hv].
  rewrite (int_from_digit _ _ _ _ Hv). cbn [int_unsigned]. rewrite Hv. done.
Qed.

Lemma digits_all (fuel : nat) :
  forall (n : Z) (acc : list ascii),
    0 <= n -> forallb isdigit acc = true ->
    forallb isdigit (digits fuel n acc) = true /\ digits fuel n acc <> [].
Proof.
  induction fuel as [|fuel IH]; intros n acc Hn Hacc;
    pose proof (Z.mod_pos_bound n 10 ltac:(lia)) as Hm;
    destruct (digit_char (n mod 10) Hm) as [_ Hd]; cbn [digits].
  - cbn [forallb]. by rewrite Hd, Hacc.
  - destruct (n <? 10).
    + cbn [forallb]. by rewrite Hd, Hacc.
    + apply IH; [apply Z.div_pos; lia|]. cbn [forallb]. by rewrite Hd, Hacc.
Qed.

(** [int(str(n)) == n] for a length. *)
Lemma int_str_of_int (n : Z) : 0 <= n -> int (str_of_int n) = Some n.
Proof.
  intros Hn. unfold str_of_int. assert ((n <? 0) = false) as -> by lia.
  destruct (digits_all (Z.to_nat n) n [] Hn eq_refl) as [Hd Hne].
  rewrite int_plain by done. rewrite digits_int by lia. done.
Qed.

Lemma str_of_int_digits (n : Z) :
  0 <= n -> forallb isdigit (str_of_int n) = true /\ str_of_int n <> [].
Proof.
  intros Hn. unfold str_of_int. assert ((n <? 0) = false) as -> by lia.
  by apply digits_all.
Qed.

Lemma digits_token (s : list ascii) :
  forallb isdigit s = true -> s <> [] ->
  token s = true /\ (LF ∉ s) /\ (":"%char ∉ s).
Proof.
  intros Hs Hne. rewrite forallb_forall in Hs.
  split; [|split].
  - apply token_spec. split; [done|]. apply forallb_forall. intros c Hc.
    destruct (isdigit_plain c (Hs c Hc)) as [-> _]. done.
  - intros Hin%list_elem_of_In. destruct (isdigit_plain _ (Hs _ Hin)) as (_ & Hlf & _). done.
  - intros Hin%list_elem_of_In. destruct (isdigit_plain _ (Hs _ Hin)) as (_ & _ & Hc). done.
Qed.

(** A word keeps its text when stripped, with or without the line end. *)
Lemma strip_token (t : list ascii) : token t = true -> strip t = t.
Proof.
  intros Ht. destruct (token_head t Ht) as (x & t' & -> & Hx).
  unfold strip. rewrite lstrip_keep by done.
  destruct (token_last _ Ht) as (s & y & -> & Hy). by apply rstrip_keep.
Qed.

Lemma strip_token_crlf (t : list ascii) : token t = true -> strip (t ++ CRLF) = t.
Proof.
  intros Ht. destruct (token_head t Ht) as (x & t' & -> & Hx).
  unfold strip. rewrite <- app_comm_cons, lstrip_keep by done.
  rewrite app_comm_cons, rstrip_spaces by done.
  destruct (token_last _ Ht) as (s & y & -> & Hy). by apply rstrip_keep.
Qed.

(** *** Frames *)

Lemma read_blank_line maxlen (rest : list ascii) (h : SocketHandler) :
  pull_buffer h = CRLF ++ rest -> read_line maxlen h = Got [] (set_buffer rest h).
Proof.
  intros Hb. by rewrite (read_line_complete maxlen [] rest h) by (done || set_solver).
Qed.

Lemma parse_request_line_loop_encoded (r : Request) (fuel : nat) (h : SocketHandler)
    (rest : list ascii) :
  request_line_ok r = true -> request h = new_request ->
  pull_buffer h = format_request_line r ++ rest ->
  parse_request_line_loop fuel h
  = Parsed (set_request (started r) (set_buffer rest h)).
Proof.
  intros Hok Hreq Hbuf.
  unfold format_request_line in Hbuf. unfold started.
  destruct (request_line_ok_cases r Hok)
    as [(m & p & Hm & Hc & Hmsg & Hp & Tm & Tp & Tv & Hs & Hq)
       |(c & msg & Hm & Hc & Hmsg & Hp & Htc & Tc & Tmsg & Tv & Hs)].
  - rewrite Hm, Hc, Hmsg, Hp in *. rewrite (token_truthy m Tm) in Hbuf.
    cbn [fmt default] in Hbuf.
    erewrite parse_request_line_loop_line;
      [|eapply (read_start_line _ m p (version r)); [done..|exact Hbuf]
       |by destruct m].
    rewrite split_three by done.
    unfold fill_request_line. rewrite Hs.
    rewrite bool_decide_eq_false_2 by done.
    cbn. by rewrite Hreq.
  - rewrite Hm, Hc, Hmsg, Hp in *.
    rewrite Htc in Hbuf. cbn [truthy fmt fmt_val default] in Hbuf.
    erewrite parse_request_line_loop_line;
      [|eapply (read_start_line _ (version r) (str c) msg); [done..|exact Hbuf]
       |by apply token_head in Tv as (x & v' & -> & _)].
    rewrite split_three by done.
    unfold fill_request_line. rewrite Hs.
    cbn. by rewrite Hreq.
Qed.

Lemma length_blanks (k : nat) : length (concat (replicate k CRLF)) = (2 * k)%nat.
Proof. induction k as [|k IH]; [done|]. cbn [replicate concat]. rewrite length_app, IH. simpl. lia. Qed.

(** Blank lines before a start line are skipped, one turn each. *)
Lemma parse_request_line_loop_blanks (k : nat) :
  forall (fuel : nat) (h : SocketHandler) (rest : list ascii),
    (k <= fuel)%nat ->
    pull_buffer h = concat (replicate k CRLF) ++ rest ->
    parse_request_line_loop fuel h
    = parse_request_line_loop (fuel - k) (set_buffer rest h).
Proof.
  induction k as [|k IH]; intros fuel h rest Hk Hbuf.
  - simpl in Hbuf. rewrite Nat.sub_0_r. f_equal. destruct h; simpl in *. by subst.
  - destruct fuel as [|fuel]; [lia|].
    cbn [replicate concat] in Hbuf. rewrite <- app_assoc in Hbuf.
    cbn [parse_request_line_loop].
    rewrite (read_blank_line _ _ _ Hbuf).
    rewrite (IH fuel _ rest) by (done || lia). done.
Qed.

(** Parsing a frame, after any number of blank lines, on any handler whose
    request slot is fresh. *)
Lemma parse_frame (r : Request) (h : SocketHandler) (k : nat) (rest : list ascii) :
  well_formed r = true -> request h = new_request ->
  pull_buffer h = concat (replicate k CRLF) ++ frame r ++ rest ->
  parse_request h
  = Dispatch (decoded r) (set_request new_request (set_buffer rest h)).
Proof.
  intros Hwf Hreq Hbuf.
  unfold well_formed in Hwf. rewrite !andb_true_iff in Hwf.
  destruct Hwf as (((((Hline & Hq%bool_decide_eq_true) & Hhs) & Hn)
                    & Hban%negb_true_iff) & Hcontent).
  unfold parse_request, parse_request_line.
  rewrite (parse_request_line_loop_blanks k _ h (frame r ++ rest));
    [|rewrite Hbuf, length_app, length_blanks; lia|done].
  unfold frame. rewrite <- !app_assoc.
  rewrite (parse_request_line_loop_encoded r _ _
             (concat (format_header_line <$> header r) ++ CRLF
              ++ default [] (content r) ++ rest)); [|done|done|done].
  rewrite (parse_header_encoded (header r) _ (default [] (content r) ++ rest))
    by done.
  rewrite validate_allowed by done.
  match goal with
  | |- context [parse_content ?h0] =>
      destruct (parse_content_encoded r h0 rest Hcontent eq_refl eq_refl)
        as [Hpc|[Hnone Hpc]]
  end.
  - rewrite Hpc. cbn. f_equal.
    unfold decoded, set_header, set_content, started. cbn.
    destruct r; cbn in *. by subst.
  - rewrite Hpc. cbn. rewrite Hnone in *. cbn. f_equal.
    unfold decoded, set_header, started. cbn.
    destruct r; cbn in *. by subst.
Qed.

(** Parsing up to the body: what is left is the deny-list test and the
    body read. *)
Lemma parse_head (r : Request) (h : SocketHandler) (k : nat) (rest : list ascii) :
  request_line_ok r = true -> forallb header_ok (header r) = true ->
  (length (header r) <? 32)%nat = true -> request h = new_request ->
  pull_buffer h
  = concat (replicate k CRLF) ++ format_request_line r
    ++ concat (format_header_line <$> header r) ++ CRLF ++ rest ->
  parse_request h
  = match validate (at_body r rest h) with
    | (false, h3) => NoRequest h3
    | (true, h3) =>
        match parse_content h3 with
        | Hangs => Stuck
        | Rejected h4 => NoRequest h4
        | Parsed h4 => Dispatch (request h4) (set_request new_request h4)
        end
    end.
Proof.
  intros Hline Hhs Hn Hreq Hbuf.
  unfold parse_request, parse_request_line.
  rewrite (parse_request_line_loop_blanks k _ h
             (format_request_line r ++ concat (format_header_line <$> header r)
              ++ CRLF ++ rest));
    [|rewrite Hbuf, length_app, length_blanks; lia|done].
  rewrite (parse_request_line_loop_encoded r _ _
             (concat (format_header_line <$> header r) ++ CRLF ++ rest));
    [|done|done|done].
  rewrite (parse_header_encoded (header r) _ rest) by done.
  by destruct h.
Qed.

Lemma split_once_none (sep : ascii) (s : list ascii) :
  sep ∉ s -> split_once sep s = None.
Proof.
  induction s as [|c s IH]; [done|]. intros [Hc Hs]%not_elem_of_cons.
  cbn. rewrite decide_False by done. by rewrite IH.
Qed.



(** X8.  Requests sent back to back on one connection are parsed one
    after the other: parsing the bytes of [r1] followed by the bytes of [r2]
    dispatches [r1] (header keys lowercased), and the next call dispatches
    [r2]; the blank line that ends a body-less frame is skipped as a blank
    line before the next start line. *)
Theorem pipelined_requests (r1 r2 : Request) (rest : list ascii) :
  well_formed r1 = true -> well_formed r2 = true ->
  exists b1 b2 h1,
    get_data r1 = Some b1 /\ get_data r2 = Some b2
    /\ parse_request (listening (b1 ++ b2 ++ rest)) = Dispatch (decoded r1) h1
    /\ parse_request h1 = Dispatch (decoded r2) (listening (trailer r2 ++ rest)).
Proof.
  intros H1 H2. rewrite (get_data_layout r1 H1), (get_data_layout r2 H2).
  eexists _, _, (listening (trailer r1 ++ _ ++ rest)).
  split; [done|]. split; [done|]. split.
  - rewrite (parse_frame r1 _ 0 (trailer r1 ++
               (format_request_line r2 ++ concat (format_header_line <$> header r2)
                ++ CRLF ++ default [] (content r2) ++ trailer r2) ++ rest));
      [done|done|done|].
    unfold listening, frame. cbn [pull_buffer replicate concat app].
    by rewrite <- !app_assoc.
  - assert (exists k, trailer r1 = concat (replicate k CRLF)) as [k Hk].
    { unfold trailer. destruct (content r1), (header r1);
        first [by exists 0%nat | exists 1%nat; reflexivity]. }
    rewrite (parse_frame r2 _ k (trailer r2 ++ rest)); [done|done|done|].
    unfold listening, frame. cbn [pull_buffer]. rewrite Hk.
    by rewrite <- !app_assoc.
Qed.

Lemma pipelined_requests_witness :
  exists b1 b2 h1,
    get_data hello = Some b1 /\ get_data sign_on = Some b2
    /\ parse_request (listening (b1 ++ b2 ++ [])) = Dispatch (decoded hello) h1
    /\ parse_request h1 = Dispatch (decoded sign_on) (listening (trailer sign_on ++ [])).
Proof. exact (pipelined_requests hello sign_on [] eq_refl eq_refl). Defined.

(** *** Requests put together with the [add_] methods *)

Section DictPairs.
Context {V : Type}.
Implicit Types d : list (list ascii * V).

Lemma dset_Forall_pair (P : list ascii * V -> Prop) k v d :
  Forall P d -> P (k, v) -> Forall P (dset k v d).
Proof.
  intros Hd Hkv. induction d as [|[k' v'] d IH]; simpl.
  - by constructor.
  - apply Forall_cons in Hd as [Hd1 Hd2]. destruct (decide (k = k')) as [->|].
    + by constructor.
    + constructor; [done|]. by apply IH.
Qed.

Lemma dset_keys k v d :
  (dset k v d).*1 = if bool_decide (k ∈ d.*1) then d.*1 else d.*1 ++ [k].
Proof.
  induction d as [|[k' v'] d IH]; [done|]. cbn [dset].
  destruct (decide (k = k')) as [->|Hne]; rewrite !fmap_cons; cbn [fst].
  - rewrite bool_decide_eq_true_2 by (apply elem_of_cons; by left). done.
  - rewrite IH. destruct (bool_decide (k ∈ d.*1)) eqn:E.
    + apply bool_decide_eq_true in E.
      rewrite bool_decide_eq_true_2 by (apply elem_of_cons; by right). done.
    + apply bool_decide_eq_false in E.
      rewrite bool_decide_eq_false_2 by (by apply not_elem_of_cons). done.
Qed.

Lemma dset_NoDup k v d : NoDup d.*1 -> NoDup (dset k v d).*1.
Proof.
  intros Hd. rewrite dset_keys. destruct (bool_decide (k ∈ d.*1)) eqn:E; [done|].
  apply bool_decide_eq_false in E. apply NoDup_app. split; [done|].
  split; [|apply NoDup_singleton]. intros x Hx ->%list_elem_of_singleton. done.
Qed.

Lemma dset_length k v d : (length (dset k v d) <= S (length d))%nat.
Proof.
  induction d as [|[k' v'] d IH]; simpl; [lia|].
  destruct (decide (k = k')); simpl; lia.
Qed.
End DictPairs.

Lemma tidy_nil : tidy [].
Proof. split; [apply NoDup_nil_2|constructor|constructor]. Qed.

Lemma header_ok_lower (k : list ascii) (v : value) :
  header_ok (k, v) = true -> header_ok (lower k, v) = true.
Proof.
  intros (H1 & H2 & H3 & H4 & H5)%header_ok_spec. apply header_ok_spec.
  split; [apply lower_no_char; auto|]. split; [apply lower_no_char; auto|].
  split; [by apply lstrip_lower|]. done.
Qed.

Lemma tidy_dset (k : list ascii) (v : value) (d : list (list ascii * value)) :
  tidy d -> header_ok (k, v) = true -> tidy (dset (lower k) v d).
Proof.
  intros [H1 H2 H3] Hok. split.
  - by apply dset_NoDup.
  - apply dset_Forall_pair; [done|]. apply lower_idem.
  - apply dset_Forall_pair; [done|]. by apply header_ok_lower.
Qed.

Lemma tidy_fold (hs acc : list (list ascii * value)) :
  tidy acc -> forallb header_ok hs = true ->
  tidy (foldl (fun d kv => dset (lower kv.1) kv.2 d) acc hs)
  /\ (length (foldl (fun d kv => dset (lower kv.1) kv.2 d) acc hs)
       <= length acc + length hs)%nat.
Proof.
  revert acc. induction hs as [|[k v] hs IH]; intros acc Hacc Hhs; simpl.
  - split; [done|lia].
  - simpl in Hhs. apply andb_true_iff in Hhs as [Hkv Hhs].
    destruct (IH (dset (lower k) v acc)) as [Ht Hl];
      [by apply tidy_dset|done|].
    split; [done|]. pose proof (dset_length (lower k) v acc). lia.
Qed.

(** On a tidy mapping the parser's view changes the values only. *)
Lemma tidy_lowered (d : list (list ascii * value)) :
  tidy d -> lowered d = prod_map id as_text <$> d.
Proof.
  intros [H1 H2 _]. unfold lowered. by rewrite (lowered_from [] d).
Qed.

Lemma fmap_dset {V W} (f : V -> W) (k : list ascii) (v : V)
    (d : list (list ascii * V)) :
  prod_map id f <$> dset k v d = dset k (f v) (prod_map id f <$> d).
Proof.
  induction d as [|[k' v'] d IH]; [done|]. cbn [dset fmap list_fmap prod_map fst snd id].
  destruct (decide (k = k')); cbn [fmap list_fmap prod_map fst snd id]; [done|].
  by rewrite <- IH.
Qed.

(** Printing the values after the headers were added gives the mapping the
    parser builds from the header lines. *)
Lemma printed_fold (hs acc : list (list ascii * value)) :
  prod_map id as_text <$> foldl (fun d kv => dset (lower kv.1) kv.2 d) acc hs
  = foldl (fun d kv => dset (lower kv.1) (as_text kv.2) d)
          (prod_map id as_text <$> acc) hs.
Proof.
  revert acc. induction hs as [|[k v] hs IH]; intros acc; [done|].
  cbn [foldl fst snd]. by rewrite IH, fmap_dset.
Qed.

Lemma foldl_add_header (hs : list (list ascii * value)) (r : Request) :
  foldl (fun r kv => add_header kv.1 kv.2 r) r hs
  = set_header (foldl (fun d kv => dset (lower kv.1) kv.2 d) (header r) hs) r.
Proof.
  revert r. induction hs as [|[k v] hs IH]; intros r; simpl.
  - by destruct r.
  - rewrite IH. by destruct r.
Qed.

Lemma banned_content_length (v : value) (d : list (list ascii * value)) :
  banned (dset (txt "content-length") v d) = banned d.
Proof.
  unfold banned. by rewrite !RingFacts.dget_dset_ne by done.
Qed.

(** X9.  A request put together with [add_request], [add_header] and
    [add_content] (a non-empty body) is sent and parsed back as built, its
    values as text: the method, path and version being single words (the
    method not starting with [HTTP/], the path without [?]), with fewer
    than 31 headers whose keys have no colon, no line feed and no leading
    blank and whose values print without line feed and without blanks at
    either end, and which pass the deny list, the parser returns the same
    start line, the same header mapping (the keys were lowercased when
    added) with every value as the text it prints as, and the same body,
    with nothing of the frame left in the stream.  The body length, which
    [add_content] stores as an integer, comes back as its decimal text. *)
Theorem built_request_round_trip (m p v : list ascii)
    (hs : list (list ascii * value)) (c rest : list ascii) :
  token m = true -> startswith (txt "HTTP/") m = false ->
  token p = true -> ("?"%char ∉ p) -> token v = true ->
  forallb header_ok hs = true -> (length hs < 31)%nat ->
  banned (lowered hs) = false -> c <> [] ->
  exists bytes,
    get_data (build m p v hs c) = Some bytes
    /\ parse_request (listening (bytes ++ rest))
       = Dispatch (printed (build m p v hs c)) (listening rest)
    /\ dget (txt "content-length") (header (build m p v hs c))
       = Some (Int (Z.of_nat (length c)))
    /\ dget (txt "content-length") (header (printed (build m p v hs c)))
       = Some (Str (str_of_int (Z.of_nat (length c))))
    /\ content (build m p v hs c) = Some c.
Proof.
  intros Tm Hm Tp Hp Tv Hhs Hn Hban Hc.
  set (n := Z.of_nat (length c)).
  destruct (str_of_int_digits n ltac:(lia)) as [Hd Hne].
  destruct (digits_token _ Hd Hne) as (Tn & Hlf & Hcolon).
  destruct (tidy_fold hs [] tidy_nil Hhs) as [Hl Hlen].
  set (added := foldl (fun d kv => dset (lower kv.1) kv.2 d) [] hs) in *.
  assert (header_ok (txt "content-length", Int n) = true) as Hok.
  { apply header_ok_spec. cbn [str]. split; [|split; [|split; [|split]]].
    - compute_done.
    - compute_done.
    - done.
    - done.
    - by apply strip_token. }
  pose proof (tidy_dset (txt "content-length") (Int n) _ Hl Hok) as Ht.
  change (lower (txt "content-length")) with (txt "content-length") in Ht.
  assert (build m p v hs c
          = mkRequest (Some m) None None v (Some p) []
              (dset (txt "content-length") (Int n) added) (Some c)) as Hb.
  { unfold build, add_content. rewrite foldl_add_header.
    destruct c as [|x c]; [done|]. done. }
  rewrite Hb.
  set (r := mkRequest _ _ _ _ _ _ _ _).
  assert (lowered (header r)
          = dset (txt "content-length") (Str (str_of_int n)) (lowered hs)) as Hlow.
  { unfold r. cbn [header]. rewrite (tidy_lowered _ Ht), fmap_dset.
    unfold added. by rewrite printed_fold. }
  assert (well_formed r = true) as Hwf.
  { unfold well_formed. rewrite !andb_true_iff. repeat split.
    - unfold request_line_ok, r. cbn [method code path version message].
      rewrite Tm, Hm, Tp, Tv.
      by rewrite !bool_decide_eq_true_2 by done.
    - apply forallb_forall. intros x Hx%list_elem_of_In.
      destruct Ht as [_ _ Hall]. by apply (proj1 (Forall_forall _ _) Hall).
    - apply Nat.ltb_lt. unfold r. cbn [header].
      pose proof (dset_length (txt "content-length") (Int n) added).
      simpl in Hlen. lia.
    - by rewrite Hlow, banned_content_length, Hban.
    - unfold content_ok. rewrite Hlow, RingFacts.dget_dset_eq.
      unfold r. cbn [content mbind option_bind to_int].
      rewrite int_str_of_int by lia.
      by rewrite !bool_decide_eq_true_2 by done. }
  rewrite (get_data_layout r Hwf). eexists. split; [done|].
  assert (decoded r = printed r) as Hdec.
  { rewrite decoded_same by (by destruct Ht). done. }
  split; [|split; [|split]].
  - rewrite (parse_frame r _ 0 rest); [by rewrite Hdec|done|done|].
    unfold listening, frame, trailer, r.
    cbn [pull_buffer content header replicate concat app].
    by rewrite <- ?app_assoc, ?app_nil_r.
  - unfold r. cbn [header]. by rewrite RingFacts.dget_dset_eq.
  - unfold printed, r. cbn [header]. by rewrite fmap_dset, RingFacts.dget_dset_eq.
  - done.
Qed.

Lemma built_request_round_trip_witness :
  exists bytes,
    get_data ingest = Some bytes
    /\ parse_request (listening (bytes ++ [])) = Dispatch (printed ingest) (listening [])
    /\ dget (txt "content-length") (header ingest) = Some (Int 7)
    /\ dget (txt "content-length") (header (printed ingest)) = Some (Str (txt "7"))
    /\ dget (txt "name") (header (printed ingest)) = Some (Str (txt "cam-2")).
Proof.
  destruct (built_request_round_trip (txt "INGEST") (txt "/") (txt "HTTP/1.1")
              [(txt "Name", Str (txt "cam-1")); (txt "NAME", Str (txt "cam-2"))]
              (txt "payload") [])
    as (bytes & H1 & H2 & H3 & H4 & _);
    [reflexivity|reflexivity|reflexivity|compute_done|reflexivity|reflexivity
    |simpl; lia|reflexivity|discriminate|].
  exists bytes. split; [exact H1|]. split; [exact H2|]. split; [exact H3|].
  split; [exact H4|]. reflexivity.
Defined.

(** X10.  [Request(method)] loses the path: [__init__] calls [add_request]
    first and assigns the defaults afterwards, so the path is [None] again
    when the constructor returns; the request is sent with the word
    [None] where the path goes, and the peer parses that word as the
    path. *)
Theorem request_with_method_has_no_path (m rest : list ascii) :
  token m = true -> startswith (txt "HTTP/") m = false ->
  method (init (Some m)) = Some m
  /\ path (init (Some m)) = None
  /\ get_data (init (Some m)) = Some (m ++ txt " None HTTP/1.1" ++ CRLF ++ CRLF)
  /\ parse_request (listening ((m ++ txt " None HTTP/1.1" ++ CRLF ++ CRLF) ++ rest))
     = Dispatch (add_request m (txt "None") (txt "HTTP/1.1") new_request)
                (listening rest).
Proof.
  intros Tm Hm. pose proof (token_truthy m Tm) as Htr.
  unfold init. rewrite Htr. cbn [add_request method default id].
  split; [done|]. split; [done|]. split.
  - unfold get_data, verify, format_request_line, format_headers.
    cbn [method code header content path version]. rewrite Htr.
    cbn [andb negb fmt default id]. f_equal. by rewrite <- !app_assoc.
  - set (r := add_request m (txt "None") (txt "HTTP/1.1") new_request).
    assert (well_formed r = true) as Hwf.
    { unfold well_formed, request_line_ok, r, add_request.
      cbn [method code path version message queries header content new_request].
      rewrite Tm, Hm. reflexivity. }
    rewrite (parse_frame r _ 0 rest Hwf); [done|done|].
    unfold listening, frame, r, add_request, format_request_line.
    cbn [pull_buffer method code path version message header content new_request].
    rewrite Htr. cbn [fmt default replicate concat app fmap list_fmap].
    by rewrite <- !app_assoc.
Qed.

Lemma request_with_method_has_no_path_witness :
  path (init (Some (txt "START"))) = None
  /\ get_data (init (Some (txt "START")))
     = Some (txt "START None HTTP/1.1" ++ CRLF ++ CRLF).
Proof.
  destruct (request_with_method_has_no_path (txt "START") [] eq_refl eq_refl)
    as (_ & H1 & H2 & _).
  split; [exact H1|exact H2].
Defined.

(** X11.  A request with an empty body and no header is not delimited:
    [add_content] with empty bytes adds no [content-length], and [get_data]
    then writes neither the blank line nor the end-of-transmission line,
    so the frame is the start line alone (method, path and version being
    single words, the method not starting with [HTTP/], the path without
    [?]).  When the start line holds no colon, two such frames in a row
    make the peer read the second start line as a header line of the
    first, one without a colon, and it shuts the connection down. *)
Theorem empty_body_frame_is_not_delimited (m p v rest : list ascii) :
  token m = true -> startswith (txt "HTTP/") m = false ->
  token p = true -> ("?"%char ∉ p) -> token v = true ->
  (":"%char ∉ m ++ [SP] ++ p ++ [SP] ++ v) ->
  let line := m ++ [SP] ++ p ++ [SP] ++ v ++ CRLF in
  get_data (build m p v [] []) = Some line
  /\ exists h,
       parse_request (listening (line ++ line ++ rest)) = NoRequest h
       /\ h_exit h = true /\ h_close h = true /\ pull_buffer h = rest.
Proof.
  intros Tm Hm Tp Hp Tv Hcolon line. pose proof (token_truthy m Tm) as Htr.
  set (r := build m p v [] []).
  assert (format_request_line r = line) as Hline.
  { unfold r, build, add_content. cbn [truthy].
    unfold format_request_line, add_request.
    cbn [foldl set_content method path version]. by rewrite Htr. }
  split.
  - unfold get_data, verify, format_headers. rewrite Hline.
    unfold r, build, add_content. cbn [truthy]. unfold add_request.
    cbn [foldl set_content method code header content new_request].
    rewrite Htr. cbn [andb negb]. by rewrite ?app_nil_r.
  - unfold parse_request, parse_request_line.
    rewrite (parse_request_line_loop_encoded r _ _ (line ++ rest));
      [| |done|by rewrite Hline].
    2:{ unfold r, build, add_content. cbn [truthy].
        unfold request_line_ok, add_request.
        cbn [foldl set_content method code path version message new_request].
        rewrite Tm, Hm, Tp, Tv. by rewrite !bool_decide_eq_true_2 by done. }
    unfold parse_header. cbn [parse_header_loop].
    rewrite (read_start_line 1024 m p v rest); [|done|done|done|].
    2:{ unfold set_request, set_buffer, line. cbn [pull_buffer].
        by rewrite <- !app_assoc. }
    rewrite split_once_none by done.
    destruct (m ++ [SP] ++ p ++ [SP] ++ v) eqn:E.
    { by destruct m. }
    eexists. split; [done|]. done.
Qed.

Lemma empty_body_frame_is_not_delimited_witness :
  get_data (build (txt "INGEST") (txt "/") (txt "HTTP/1.1") [] [])
  = Some (txt "INGEST / HTTP/1.1" ++ CRLF)
  /\ exists h,
       parse_request (listening ((txt "INGEST / HTTP/1.1" ++ CRLF)
                                 ++ (txt "INGEST / HTTP/1.1" ++ CRLF) ++ []))
       = NoRequest h
       /\ h_exit h = true.
Proof.
  destruct (empty_body_frame_is_not_delimited (txt "INGEST") (txt "/")
              (txt "HTTP/1.1") [])
    as (H1 & h & H2 & H3 & _);
    [reflexivity|reflexivity|reflexivity|compute_done|reflexivity|compute_done|].
  split; [exact H1|]. exists h. split; [exact H2|exact H3].
Defined.



(** X13.  The deny list on the user agent works end to end: a request
    whose [user-agent] header contains one of the agent keywords is not
    dispatched; the handler is shut down right after the headers, and
    whatever follows them (the body) is left unread. *)
Theorem banned_agent_is_cut_off (r : Request) (agent keyword rest : list ascii) :
  request_line_ok r = true -> forallb header_ok (header r) = true ->
  (length (header r) <? 32)%nat = true ->
  dget (txt "user-agent") (lowered (header r)) = Some (Str agent) ->
  keyword ∈ agent_keywords -> contains keyword agent = true ->
  exists h,
    parse_request
      (listening (format_request_line r ++ concat (format_header_line <$> header r)
                  ++ CRLF ++ rest))
    = NoRequest h
    /\ h_exit h = true /\ h_close h = true /\ pull_buffer h = rest.
Proof.
  intros Hline Hhs Hn Hagent Hk Hc.
  rewrite (parse_head r _ 0 rest); [|done..].
  rewrite validate_banned.
  - eexists. split; [done|]. done.
  - by apply (agent_substring_is_banned _ agent keyword).
Qed.

Lemma banned_agent_is_cut_off_witness :
  exists h,
    parse_request
      (listening (format_request_line crawler
                  ++ concat (format_header_line <$> header crawler)
                  ++ CRLF ++ txt "GET / HTTP/1.1"))
    = NoRequest h
    /\ h_exit h = true /\ h_close h = true
    /\ pull_buffer h = txt "GET / HTTP/1.1".
Proof.
  apply (banned_agent_is_cut_off crawler
           (txt "Mozilla/5.0 (compatible; examplebot/2.1)") (txt "bot"));
    [reflexivity|reflexivity|reflexivity|reflexivity|compute_done|reflexivity].
Defined.

(** X14.  The header limit: a frame with 32 or more header lines is
    rejected at the 32nd, whatever follows, and the handler is shut down;
    the loop of 32 turns needs one of them for the blank line, so 31
    headers are the most a request can carry. *)
Theorem thirty_two_headers_are_too_many (r : Request) (rest : list ascii) :
  request_line_ok r = true -> forallb header_ok (header r) = true ->
  (32 <= length (header r))%nat ->
  exists h,
    parse_request
      (listening (format_request_line r ++ concat (format_header_line <$> header r)
                  ++ rest))
    = NoRequest h
    /\ h_exit h = true /\ h_close h = true.
Proof.
  intros Hline Hhs Hn.
  unfold parse_request, parse_request_line.
  rewrite (parse_request_line_loop_encoded r _ _
             (concat (format_header_line <$> header r) ++ rest));
    [|done|done|done].
  rewrite <- (take_drop 32 (header r)), fmap_app, concat_app, <- app_assoc.
  match goal with
  | |- context [parse_header ?h0] =>
      destruct (too_many_headers (take 32 (header r)) h0
                  (concat (format_header_line <$> drop 32 (header r)) ++ rest))
        as (h' & Hp & He & Hc)
  end.
  - rewrite <- (take_drop 32 (header r)), forallb_app in Hhs.
    by apply andb_true_iff in Hhs as [? _].
  - rewrite length_take. lia.
  - done.
  - rewrite Hp. by exists h'.
Qed.

Lemma thirty_two_headers_are_too_many_witness :
  exists h,
    parse_request
      (listening (format_request_line
                    (mkRequest (Some (txt "GET")) None None (txt "HTTP/1.1")
                               (Some (txt "/")) [] thirty_two_headers None)
                  ++ concat (format_header_line <$> thirty_two_headers) ++ CRLF))
    = NoRequest h
    /\ h_exit h = true /\ h_close h = true.
Proof.
  apply (thirty_two_headers_are_too_many
           (mkRequest (Some (txt "GET")) None None (txt "HTTP/1.1")
                      (Some (txt "/")) [] thirty_two_headers None) CRLF);
    [reflexivity|reflexivity|simpl; lia].
Defined.

(** X15.  Responses: [add_response] knows seven codes and raises
    [KeyError] on any other, and on no one of the seven; it stores the
    code as the integer it was given.  With a date that is a well-formed
    header value, a 200 response is sent and parsed back with its values
    as text (the code comes back as the string [200]).  The messages of
    the six other codes are made of several words, so the start line of
    such a response has more than three words: the parser of this very
    library rejects it and shuts the connection down. *)
Theorem only_ok_responses_parse (code : Z) (date rest : list ascii) :
  header_ok (txt "date", Str date) = true ->
  (add_response code date new_request = None
   <-> code ∉ [200; 204; 301; 304; 308; 404; 405])
  /\ forall r,
       add_response code date new_request = Some r ->
       Codec.code r = Some (Int code)
       /\ exists bytes,
            get_data r = Some bytes
            /\ if decide (code = 200)
               then parse_request (listening (bytes ++ rest))
                    = Dispatch (printed r) (listening (CRLF ++ rest))
                    /\ Codec.code (printed r) = Some (Str (txt "200"))
               else exists h, parse_request (listening (bytes ++ rest)) = NoRequest h
                              /\ h_exit h = true /\ h_close h = true.
Proof.
  intros Hdate.
  assert (forall cd msg,
            cd <> 0 -> cd <> 200 -> (1 < length (split msg))%nat ->
            (LF ∉ txt "HTTP/1.1" ++ [SP] ++ str_of_int cd ++ [SP] ++ msg) ->
            strip ((txt "HTTP/1.1" ++ [SP] ++ str_of_int cd ++ [SP] ++ msg) ++ CRLF)
            = txt "HTTP/1.1" ++ [SP] ++ str_of_int cd ++ [SP] ++ msg ->
            split (txt "HTTP/1.1" ++ [SP] ++ str_of_int cd ++ [SP] ++ msg)
            = txt "HTTP/1.1" :: str_of_int cd :: split msg ->
            let r := add_header (txt "Date") (Str date)
                       (add_header (txt "Server")
                          (Str (txt "StreamingServer Python/3.7.3"))
                          (mkRequest None (Some (Int cd)) (Some msg) (txt "HTTP/1.1")
                                     None [] [] None)) in
            Codec.code r = Some (Int cd)
            /\ exists bytes,
                 get_data r = Some bytes
                 /\ if decide (cd = 200)
                    then parse_request (listening (bytes ++ rest))
                         = Dispatch (printed r) (listening (CRLF ++ rest))
                         /\ Codec.code (printed r) = Some (Str (txt "200"))
                    else exists h,
                           parse_request (listening (bytes ++ rest)) = NoRequest h
                           /\ h_exit h = true /\ h_close h = true) as Hbad.
  { intros cd msg Hcd H200 Hwords Hlf Hstrip Hsplit r.
    assert (truthy_val (Some (Int cd)) = true) as Htr
      by (by apply negb_true_iff, Z.eqb_neq).
    split; [done|]. eexists. split.
    - unfold get_data, verify, r, add_header. cbn [method Codec.code header set_header].
      rewrite Htr. cbn [truthy andb negb]. done.
    - rewrite decide_False by done.
      unfold format_request_line, r, add_header.
      cbn [method Codec.code message version set_header]. rewrite Htr.
      cbn [truthy fmt fmt_val str default id].
      unfold parse_request, parse_request_line.
      erewrite parse_request_line_loop_line;
        [|apply (read_line_complete 256
                   (txt "HTTP/1.1" ++ [SP] ++ str_of_int cd ++ [SP] ++ msg));
          [done|unfold listening; cbn [pull_buffer]; by rewrite <- !app_assoc]
         |rewrite Hstrip; discriminate].
      rewrite Hstrip, Hsplit. unfold fill_request_line.
      destruct (split msg) as [|w1 [|w2 ws]]; simpl in Hwords; try lia.
      destruct ws; (eexists; split; [done|done]). }
  unfold add_response, messages.
  destruct (Z.eqb_spec code 200) as [->|H200].
  { cbn [mbind option_bind]. split.
    { split; [done|]. intros Hn. exfalso. apply Hn. apply list_elem_of_here. }
    intros r0 [= <-].
    set (r := add_header _ _ _).
    assert (well_formed r = true) as Hwf.
    { unfold well_formed. rewrite !andb_true_iff. repeat split.
      unfold r, add_header. cbn [header set_header].
      change (forallb header_ok
                [(txt "server", Str (txt "StreamingServer Python/3.7.3"));
                 (txt "date", Str date)] = true).
      cbn [forallb]. by rewrite Hdate. }
    split; [done|].
    rewrite (get_data_layout r Hwf). eexists. split; [done|].
    rewrite decide_True by done. split; [|done].
    rewrite (parse_frame r _ 0 (CRLF ++ rest) Hwf); [|done|].
    - reflexivity.
    - unfold listening, frame, trailer. cbn [pull_buffer replicate concat app].
      unfold r at 3 4. unfold add_header. cbn [content header set_header default].
      by rewrite <- !app_assoc. }
  destruct (Z.eqb_spec code 204) as [->|H204].
  { cbn [mbind option_bind]. split.
    { split; [done|]. intros Hn. exfalso. apply Hn. apply list_elem_of_In. simpl. tauto. }
    intros r0 [= <-].
    exact (Hbad 204 (txt "No Content") ltac:(done) ltac:(done) ltac:(simpl; lia)
                ltac:(compute_done) eq_refl eq_refl). }
  destruct (Z.eqb_spec code 301) as [->|H301].
  { cbn [mbind option_bind]. split.
    { split; [done|]. intros Hn. exfalso. apply Hn. apply list_elem_of_In. simpl. tauto. }
    intros r0 [= <-].
    exact (Hbad 301 (txt "Moved Permanently") ltac:(done) ltac:(done)
                ltac:(simpl; lia) ltac:(compute_done) eq_refl eq_refl). }
  destruct (Z.eqb_spec code 304) as [->|H304].
  { cbn [mbind option_bind]. split.
    { split; [done|]. intros Hn. exfalso. apply Hn. apply list_elem_of_In. simpl. tauto. }
    intros r0 [= <-].
    exact (Hbad 304 (txt "Not Modified") ltac:(done) ltac:(done)
                ltac:(simpl; lia) ltac:(compute_done) eq_refl eq_refl). }
  destruct (Z.eqb_spec code 308) as [->|H308].
  { cbn [mbind option_bind]. split.
    { split; [done|]. intros Hn. exfalso. apply Hn. apply list_elem_of_In. simpl. tauto. }
    intros r0 [= <-].
    exact (Hbad 308 (txt "Permanent Redirect") ltac:(done) ltac:(done)
                ltac:(simpl; lia) ltac:(compute_done) eq_refl eq_refl). }
  destruct (Z.eqb_spec code 404) as [->|H404].
  { cbn [mbind option_bind]. split.
    { split; [done|]. intros Hn. exfalso. apply Hn. apply list_elem_of_In. simpl. tauto. }
    intros r0 [= <-].
    exact (Hbad 404 (txt "Not Found") ltac:(done) ltac:(done)
                ltac:(simpl; lia) ltac:(compute_done) eq_refl eq_refl). }
  destruct (Z.eqb_spec code 405) as [->|H405].
  { cbn [mbind option_bind]. split.
    { split; [done|]. intros Hn. exfalso. apply Hn. apply list_elem_of_In. simpl. tauto. }
    intros r0 [= <-].
    exact (Hbad 405 (txt "Method Not Allowed") ltac:(done) ltac:(done)
                ltac:(simpl; lia) ltac:(compute_done) eq_refl eq_refl). }
  cbn [mbind option_bind]. split; [|done].
  split; [|done]. intros _.
  rewrite !not_elem_of_cons. repeat split; try done. apply not_elem_of_nil.
Qed.

Lemma only_ok_responses_parse_witness :
  exists r bytes h,
    add_response 404 (txt "Tue, 03 Nov 2026 10:00:00 GMT") new_request = Some r
    /\ Codec.code r = Some (Int 404)
    /\ get_data r = Some bytes
    /\ parse_request (listening (bytes ++ [])) = NoRequest h
    /\ h_exit h = true.
Proof.
  destruct (only_ok_responses_parse 404 (txt "Tue, 03 Nov 2026 10:00:00 GMT") []
              eq_refl) as [_ H].
  destruct (add_response 404 (txt "Tue, 03 Nov 2026 10:00:00 GMT") new_request)
    as [r|] eqn:E; [|discriminate E].
  destruct (H r eq_refl) as (Hc & bytes & H1 & H2).
  rewrite decide_False in H2 by done.
  destruct H2 as (h & H2 & H3 & _).
  exists r, bytes, h. split; [reflexivity|]. split; [exact Hc|].
  split; [exact H1|]. split; [exact H2|exact H3].
Defined.

(** *** Query strings *)

Lemma split_on_from_word (sep : ascii) (a : list ascii) :
  forall cur s, sep ∉ a ->
    split_on_from sep cur (a ++ s) = split_on_from sep (cur ++ a) s.
Proof.
  induction a as [|c a IH]; intros cur s Ha.
  - by rewrite app_nil_r.
  - apply not_elem_of_cons in Ha as [Hc Ha]. cbn.
    rewrite decide_False by done. rewrite IH by done.
    by rewrite <- app_assoc.
Qed.

Lemma split_on_sep (sep : ascii) (a s : list ascii) :
  sep ∉ a -> split_on sep (a ++ sep :: s) = a :: split_on sep s.
Proof.
  intros Ha. unfold split_on. rewrite split_on_from_word by done.
  cbn. by rewrite decide_True.
Qed.

Lemma split_on_last (sep : ascii) (a : list ascii) :
  sep ∉ a -> split_on sep a = [a].
Proof.
  intros Ha. unfold split_on. rewrite <- (app_nil_r a) at 1.
  by rewrite split_on_from_word.
Qed.

Lemma query_char_spec (c : ascii) :
  query_char c = true ->
  isspace c = false /\ c <> "?"%char /\ c <> "&"%char /\ c <> "="%char.
Proof.
  unfold query_char. intros [Hs%negb_true_iff Hc%negb_true_iff]%andb_true_iff.
  apply bool_decide_eq_false in Hc. split; [done|].
  repeat split; intros ->; apply Hc; compute_done.
Qed.

Lemma query_chars (s : list ascii) :
  forallb query_char s = true ->
  forallb (fun c => negb (isspace c)) s = true
  /\ ("?"%char ∉ s) /\ ("&"%char ∉ s) /\ ("="%char ∉ s).
Proof.
  intros Hs. rewrite forallb_forall in Hs.
  split; [|split; [|split]].
  - apply forallb_forall. intros c Hc.
    by destruct (query_char_spec c (Hs c Hc)) as [-> _].
  - intros Hin%list_elem_of_In. by destruct (query_char_spec _ (Hs _ Hin)) as (_ & ? & _).
  - intros Hin%list_elem_of_In.
    by destruct (query_char_spec _ (Hs _ Hin)) as (_ & _ & ? & _).
  - intros Hin%list_elem_of_In.
    by destruct (query_char_spec _ (Hs _ Hin)) as (_ & _ & _ & ?).
Qed.

Lemma query_string_chars (kvs : list (list ascii * list ascii)) :
  query_ok kvs = true ->
  forallb (fun c => negb (isspace c)) (query_string kvs) = true
  /\ ("?"%char ∉ query_string kvs).
Proof.
  induction kvs as [|[k v] kvs IH]; [by split; [|apply not_elem_of_nil]|].
  intros [[Hk Hv]%andb_true_iff Hkvs]%andb_true_iff. cbn [fst snd] in *.
  destruct (query_chars k Hk) as (Hk1 & Hk2 & _).
  destruct (query_chars v Hv) as (Hv1 & Hv2 & _).
  destruct (IH Hkvs) as [IH1 IH2].
  destruct kvs as [|kv kvs].
  - cbn [query_string]. split.
    + rewrite forallb_app. cbn [forallb]. by rewrite Hk1, Hv1.
    + rewrite elem_of_app, elem_of_cons. intros [?|[?|?]]; done.
  - change (query_string ((k, v) :: kv :: kvs))
      with (k ++ "="%char :: v ++ "&"%char :: query_string (kv :: kvs)).
    split.
    + rewrite forallb_app. cbn [forallb]. rewrite forallb_app. cbn [forallb].
      by rewrite Hk1, Hv1, IH1.
    + rewrite elem_of_app, elem_of_cons, elem_of_app, elem_of_cons.
      intros [?|[?|[?|[?|?]]]]; done.
Qed.

Lemma split_query_string (kvs : list (list ascii * list ascii)) :
  query_ok kvs = true -> kvs <> [] ->
  split_on "&"%char (query_string kvs)
  = (fun kv => kv.1 ++ "="%char :: kv.2) <$> kvs.
Proof.
  induction kvs as [|[k v] kvs IH]; [done|]. intros Hok _.
  apply andb_true_iff in Hok as [[Hk Hv]%andb_true_iff Hkvs]. cbn [fst snd] in *.
  destruct (query_chars k Hk) as (_ & _ & Hk3 & _).
  destruct (query_chars v Hv) as (_ & _ & Hv3 & _).
  assert ("&"%char ∉ k ++ "="%char :: v) as Hkv.
  { rewrite elem_of_app, elem_of_cons. intros [?|[?|?]]; done. }
  destruct kvs as [|kv kvs].
  - cbn [query_string fmap list_fmap fst snd]. by apply split_on_last.
  - change (query_string ((k, v) :: kv :: kvs))
      with (k ++ "="%char :: v ++ "&"%char :: query_string (kv :: kvs)).
    replace (k ++ "="%char :: v ++ "&"%char :: query_string (kv :: kvs))
      with ((k ++ "="%char :: v) ++ "&"%char :: query_string (kv :: kvs))
      by (by rewrite <- app_assoc).
    rewrite split_on_sep by done. rewrite IH by done. done.
Qed.

Lemma parse_pairs (kvs : list (list ascii * list ascii)) :
  forall acc, query_ok kvs = true ->
    foldl add_pair (Some acc) ((fun kv => kv.1 ++ "="%char :: kv.2) <$> kvs)
    = Some (foldl (fun d kv => dset kv.1 kv.2 d) acc kvs).
Proof.
  induction kvs as [|[k v] kvs IH]; intros acc Hok; [done|].
  apply andb_true_iff in Hok as [[Hk Hv]%andb_true_iff Hkvs]. cbn [fst snd] in *.
  destruct (query_chars k Hk) as (_ & _ & _ & Hk4).
  destruct (query_chars v Hv) as (_ & _ & _ & Hv4).
  cbn [fmap list_fmap foldl fst snd]. unfold add_pair at 2. cbn [mbind option_bind].
  rewrite split_on_sep, split_on_last by done. by apply IH.
Qed.

(** X16.  Query strings: a request line whose path carries [?k1=v1&k2=v2...]
    is parsed into the path before the [?] and the mapping of the pairs (a
    later pair replacing an earlier one with the same key).  A path that
    ends in a bare [?] is not accepted: the empty query does not split
    into a pair, and the handler is shut down. *)
Theorem query_string_is_decoded (m p v : list ascii)
    (kvs : list (list ascii * list ascii)) (rest : list ascii) :
  token m = true -> startswith (txt "HTTP/") m = false ->
  token p = true -> ("?"%char ∉ p) -> token v = true ->
  query_ok kvs = true ->
  let line := m ++ [SP] ++ (p ++ "?"%char :: query_string kvs) ++ [SP] ++ v ++ CRLF in
  (kvs <> [] ->
   parse_request (listening (line ++ CRLF ++ rest))
   = Dispatch (mkRequest (Some m) None None v (Some p)
                         (foldl (fun d kv => dset kv.1 kv.2 d) [] kvs) [] None)
              (listening rest))
  /\ (kvs = [] ->
      exists h, parse_request (listening (line ++ CRLF ++ rest)) = NoRequest h
                /\ h_exit h = true /\ h_close h = true).
Proof.
  intros Tm Hm Tp Hp Tv Hok line.
  destruct (query_string_chars kvs Hok) as [Hq1 Hq2].
  assert (token (p ++ "?"%char :: query_string kvs) = true) as Tw.
  { apply token_spec in Tp as [Hp1 Hp2]. apply token_spec. split; [by destruct p|].
    rewrite forallb_app. cbn [forallb]. by rewrite Hp2, Hq1. }
  assert (read_line 256 (listening (line ++ CRLF ++ rest))
          = Got (m ++ [SP] ++ (p ++ "?"%char :: query_string kvs) ++ [SP] ++ v)
                (set_buffer (CRLF ++ rest) (listening (line ++ CRLF ++ rest))))
    as Hread.
  { apply read_start_line; [done..|]. unfold listening, line. cbn [pull_buffer].
    by rewrite <- !app_assoc. }
  assert (fill_request_line
            (split (m ++ [SP] ++ (p ++ "?"%char :: query_string kvs) ++ [SP] ++ v))
            new_request
          = match parse_query (query_string kvs) with
            | Some qs => Filled (mkRequest (Some m) None None v (Some p) qs [] None)
            | None =>
                QueryError (mkRequest (Some m) None None v (Some p) [] [] None)
            end) as Hfill.
  { rewrite split_three by done. unfold fill_request_line. rewrite Hm.
    rewrite bool_decide_eq_true_2
      by (rewrite elem_of_app, elem_of_cons; right; by left).
    by rewrite split_on_sep, split_on_last by done. }
  unfold parse_request, parse_request_line.
  erewrite parse_request_line_loop_line; [|exact Hread|by destruct m].
  cbn [request set_buffer listening]. rewrite Hfill. split.
  - intros Hne. unfold parse_query. rewrite split_query_string by done.
    rewrite parse_pairs by done.
    unfold parse_header. cbn [parse_header_loop].
    rewrite (read_blank_line 1024 rest) by done.
    rewrite validate_allowed by done.
    unfold parse_content. done.
  - intros ->. cbn. eexists. split; [done|]. done.
Qed.

Lemma query_string_is_decoded_witness :
  parse_request
    (listening ((txt "GET" ++ [SP] ++ (txt "/plot" ++ "?"%char :: txt "id=7&w=640&id=9")
                 ++ [SP] ++ txt "HTTP/1.1" ++ CRLF) ++ CRLF ++ []))
  = Dispatch (mkRequest (Some (txt "GET")) None None (txt "HTTP/1.1")
                        (Some (txt "/plot"))
                        [(txt "id", txt "9"); (txt "w", txt "640")] [] None)
             (listening []).
Proof.
  destruct (query_string_is_decoded (txt "GET") (txt "/plot") (txt "HTTP/1.1")
              [(txt "id", txt "7"); (txt "w", txt "640"); (txt "id", txt "9")] [])
    as [H _];
    [reflexivity|reflexivity|reflexivity|compute_done|reflexivity|reflexivity|].
  apply H. discriminate.
Defined.

(** *** Multipart streams *)

Lemma chunk_header_loop_line (n : nat) (len : option Z) (h h' : SocketHandler)
    (line : list ascii) :
  read_line 256 h = Got line h' -> line <> [] ->
  chunk_header_loop (S n) len h
  = match split_once ":"%char line with
    | None => Bad (shutdown h')
    | Some (key, val) =>
        if decide (lower key = txt "content-length") then
          match int val with
          | None => Bad (shutdown h')
          | Some l => chunk_header_loop n (Some l) h'
          end
        else chunk_header_loop n len h'
    end.
Proof. intros Hr Hl. cbn [chunk_header_loop]. rewrite Hr. by destruct line. Qed.

Lemma read_word_line maxlen (w rest : list ascii) (h : SocketHandler) :
  token w = true -> pull_buffer h = w ++ CRLF ++ rest ->
  read_line maxlen h = Got w (set_buffer rest h).
Proof.
  intros Tw Hb. rewrite (read_line_complete maxlen w rest h); [|by apply token_no_lf|done].
  by rewrite strip_token_crlf.
Qed.

(** The header lines of one chunk. *)
Lemma chunk_headers_read (browser : bool) (n : Z) (len : option Z)
    (rest : list ascii) (h : SocketHandler) :
  0 <= n ->
  pull_buffer h
  = (if browser then txt "content-type:image/jpeg" ++ CRLF else [])
    ++ (txt "Content-Length:" ++ str_of_int n ++ CRLF) ++ CRLF ++ rest ->
  chunk_header_loop 5 len h = HeadersDone (Some n) (set_buffer rest h).
Proof.
  intros Hn Hbuf.
  destruct (str_of_int_digits n Hn) as [Hd Hne].
  destruct (digits_token _ Hd Hne) as (Tn & Hlf & Hcolon).
  assert (token (txt "Content-Length:" ++ str_of_int n) = true) as Tl.
  { apply token_spec. split; [done|]. rewrite forallb_app.
    apply token_spec in Tn as [_ ->]. done. }
  assert (forall k len0 h0,
            pull_buffer h0
            = (txt "Content-Length:" ++ str_of_int n ++ CRLF) ++ CRLF ++ rest ->
            chunk_header_loop (S (S k)) len0 h0
            = HeadersDone (Some n) (set_buffer rest h0)) as Hlen.
  { intros k len0 h0 Hb.
    erewrite chunk_header_loop_line;
      [|apply (read_word_line 256 (txt "Content-Length:" ++ str_of_int n)
                 (CRLF ++ rest)); [done|by rewrite Hb, <- !app_assoc]
       |done].
    change (txt "Content-Length:" ++ str_of_int n)
      with (txt "Content-Length" ++ ":"%char :: str_of_int n).
    rewrite split_once_first by compute_done.
    rewrite decide_True by (by vm_compute).
    rewrite int_str_of_int by done.
    cbn [chunk_header_loop]. by rewrite (read_blank_line 256 rest). }
  destruct browser.
  - erewrite chunk_header_loop_line;
      [|apply (read_word_line 256 (txt "content-type:image/jpeg")
                 ((txt "Content-Length:" ++ str_of_int n ++ CRLF) ++ CRLF ++ rest));
        [done|by rewrite Hbuf, <- !app_assoc]
       |done].
    change (txt "content-type:image/jpeg")
      with (txt "content-type" ++ ":"%char :: txt "image/jpeg").
    rewrite split_once_first by compute_done.
    rewrite decide_False by (by vm_compute).
    by rewrite Hlen.
  - by rewrite Hlen.
Qed.

(** The first two turns of the loop on a packet: boundary line, then
    headers. *)
Lemma parse_packet_head (browser : bool) (d rest : list ascii) (fuel : nat)
    (h : SocketHandler) (b : Buffers.DataBuffer (option (list ascii))) :
  h_exit h = false -> pull_buffer h = packet browser d ++ rest ->
  parse_multipart_loop (S (S fuel)) no_chunk h b
  = parse_multipart_loop fuel
      (mkChunk true true (Some (Z.of_nat (length d))))
      (set_buffer (d ++ CRLF ++ rest) h) b.
Proof.
  intros He Hbuf. cbn [parse_multipart_loop]. rewrite He.
  cbn [no_chunk boundary headers chunk_length negb].
  rewrite (read_word_line 32 (txt "--DATA")
             ((if browser then txt "content-type:image/jpeg" ++ CRLF else [])
              ++ (txt "Content-Length:" ++ str_of_int (Z.of_nat (length d)) ++ CRLF)
              ++ CRLF ++ d ++ CRLF ++ rest)); [|done|].
  2:{ rewrite Hbuf. unfold packet, chunk_header. by rewrite <- !app_assoc. }
  cbn [txt String.list_ascii_of_string set_buffer h_exit].
  rewrite He.
  rewrite (chunk_headers_read browser (Z.of_nat (length d)) None
             (d ++ CRLF ++ rest)); [done|lia|done].
Qed.

Lemma parse_one_packet (browser : bool) (d rest : list ascii) (fuel : nat)
    (h : SocketHandler) (b : Buffers.DataBuffer (option (list ascii))) :
  d <> [] -> h_exit h = false -> pull_buffer h = packet browser d ++ rest ->
  parse_multipart_loop (4 + fuel) no_chunk h b
  = parse_multipart_loop fuel no_chunk (set_buffer rest h)
      (Buffers.write (Some d) b).
Proof.
  intros Hd He Hbuf.
  change (4 + fuel)%nat with (S (S (S (S fuel)))).
  rewrite (parse_packet_head browser d rest) by done.
  cbn [parse_multipart_loop set_buffer h_exit]. rewrite He.
  cbn [boundary headers chunk_length negb].
  assert ((Z.of_nat (length d) =? 0) = false) as ->.
  { apply Z.eqb_neq. destruct d; [done|simpl; lia]. }
  rewrite (read_exact_whole d (CRLF ++ rest)) by done.
  cbn [set_buffer h_exit]. rewrite He.
  cbn [no_chunk boundary negb].
  by rewrite (read_blank_line 32 rest).
Qed.

Lemma parse_packets (browser : bool) (ds : list (list ascii)) :
  forall (fuel : nat) (h : SocketHandler)
         (b : Buffers.DataBuffer (option (list ascii))),
    Forall (fun d => d <> []) ds -> h_exit h = false ->
    pull_buffer h = concat (packet browser <$> ds) ->
    (4 * length ds + 1 <= fuel)%nat ->
    parse_multipart_loop fuel no_chunk h b
    = Ended (shutdown (set_buffer [] h)) (Buffers.write_all (Some <$> ds) b).
Proof.
  induction ds as [|d ds IH]; intros fuel h b Hds He Hbuf Hf.
  - destruct fuel as [|fuel]; [simpl in Hf; lia|].
    cbn [parse_multipart_loop]. rewrite He. cbn [no_chunk boundary negb].
    unfold read_line. rewrite Hbuf. cbn.
    by destruct fuel.
  - apply Forall_cons in Hds as [Hd Hds].
    cbn [fmap list_fmap concat] in Hbuf.
    replace fuel with (4 + (fuel - 4))%nat by (simpl in Hf; lia).
    rewrite (parse_one_packet browser d (concat (packet browser <$> ds))) by done.
    rewrite (IH _ _ _ Hds); [done|done|done|simpl in Hf; lia].
Qed.

Lemma packet_length (browser : bool) (d : list ascii) :
  (4 <= length (packet browser d))%nat.
Proof. unfold packet, chunk_header. rewrite !length_app. simpl. lia. Qed.

(** X17.  A multipart stream survives the wire: for any sequence of
    non-empty chunks, with or without the browser content type,
    [parse_multipart] run on the packets that [send_multipart] pushes for
    them writes every chunk to the buffer, in order, so that the buffer
    ends up holding the last one with every reader's event set; at the end
    of the stream the handler is shut down and nothing is left unread. *)
Theorem multipart_stream_round_trip (browser : bool) (ds : list (list ascii))
    (b : Buffers.DataBuffer (option (list ascii))) :
  Forall (fun d => d <> []) ds ->
  parse_multipart (listening (concat (packet browser <$> ds))) b
  = Ended (shutdown (listening [])) (Buffers.write_all (Some <$> ds) b).
Proof.
  intros Hds. unfold parse_multipart.
  rewrite (parse_packets browser ds _ _ b Hds); [done|done|done|].
  cbn [listening pull_buffer].
  assert (4 * length ds <= length (concat (packet browser <$> ds)))%nat; [|lia].
  clear. induction ds as [|d ds IH]; [simpl; lia|].
  cbn [fmap list_fmap concat]. rewrite length_app.
  pose proof (packet_length browser d). simpl length. lia.
Qed.

Lemma multipart_stream_round_trip_witness :
  parse_multipart (listening (concat (packet true <$> two_frames)))
                  (Buffers.mkBuffer None [false; false])
  = Ended (shutdown (listening []))
          (Buffers.mkBuffer (Some (txt "JPEG-22")) [true; true]).
Proof.
  apply (multipart_stream_round_trip true two_frames
           (Buffers.mkBuffer None [false; false])).
  repeat constructor; discriminate.
Defined.

(** X18.  An empty chunk ends the stream.  [send_multipart] takes a read
    token whose event starts out set, so on a buffer nobody has written to
    its first turn does not wait and pushes a packet for the empty bytes,
    announced as [Content-Length:0].  [parse_multipart] takes length 0 for
    a missing length: it throws, shuts the handler down and returns
    without touching the buffer, leaving the rest of the stream unread. *)
Theorem empty_chunk_stops_the_receiver (browser : bool) (out rest : list ascii)
    (b : Buffers.DataBuffer (option (list ascii))) :
  send_turn browser (Buffers.get_read_lock (Buffers.init (D := list ascii) [])).1
            (Buffers.get_read_lock (Buffers.init (D := list ascii) [])).2 out
  = Some (Buffers.mkBuffer [] [false], out ++ packet browser [])
  /\ packet browser []
     = chunk_header browser ++ txt "Content-Length:0" ++ CRLF ++ CRLF ++ CRLF
  /\ parse_multipart (listening (packet browser [] ++ rest)) b
     = Ended (shutdown (listening (CRLF ++ rest))) b.
Proof.
  split; [done|]. split; [done|].
  unfold parse_multipart.
  cbn [listening pull_buffer].
  destruct (length (packet browser [] ++ rest)) as [|fuel] eqn:E.
  { pose proof (packet_length browser []) as Hl.
    rewrite length_app in E. lia. }
  rewrite (parse_packet_head browser [] rest) by done.
  cbn [parse_multipart_loop listening set_buffer h_exit boundary headers
       chunk_length negb length].
  done.
Qed.

End WireFacts.

(** ** Facts about host and worker nodes *)

Module HostFacts.
Import Nodes NodeFacts Hosts.

(** X19.  Registering a handler and removing it again: [add_socket] makes
    the handler the one found under its id, and [remove_socket] of a
    handler that has been halted gives back the Node as it was before the
    handler was added, flags included. *)
Theorem add_then_remove_socket (prefix id : string) (h : SocketHandler)
    (n : Node) (c : Console) :
  sockets n !! id = None -> h_exit h = true ->
  sockets (add_socket id h n) !! id = Some h
  /\ (remove_socket prefix id (add_socket id h n) c).1 = n.
Proof.
  intros Hfresh Hexit. split.
  - unfold add_socket. simpl. apply lookup_insert_eq.
  - rewrite (remove_socket_halted prefix id (add_socket id h n) c h);
      [|by apply lookup_insert_eq|done].
    unfold add_socket. simpl. rewrite delete_insert_eq, delete_id by done.
    by destruct n.
Qed.

Lemma add_then_remove_socket_witness :
  sockets (add_socket "s2" (mkHandler "REQUESTER" true) node_with_live_socket)
    !! "s2"%string = Some (mkHandler "REQUESTER" true)
  /\ (remove_socket stamp "s2"
        (add_socket "s2" (mkHandler "REQUESTER" true) node_with_live_socket)
        quiet_console).1
     = node_with_live_socket.
Proof.
  apply (add_then_remove_socket stamp "s2" (mkHandler "REQUESTER" true)
           node_with_live_socket quiet_console); reflexivity.
Defined.

Section Logging.
Variable say : option Z -> Console -> Console.

(** X20.  [WorkerNode.remove_socket] on the data source: whatever the
    state of the source handler, the worker is shut down (exit and close
    flags set) and the registry is left as it is, the source included;
    when no handler is registered under the source id the call raises.
    Every other id is handled by [Node.remove_socket]. *)
Theorem worker_source_removal_shuts_down (prefix id : string) (w : WorkerNode)
    (c : Console) :
  source_id w = Some id ->
  (sockets (worker_node w) !! id = None -> worker_remove_socket say prefix id w c = None)
  /\ (forall h, sockets (worker_node w) !! id = Some h ->
        exists w' c',
          worker_remove_socket say prefix id w c = Some (w', c')
          /\ sockets (worker_node w') = sockets (worker_node w)
          /\ n_exit (worker_node w') = true /\ n_close (worker_node w') = true
          /\ source_id w' = Some id)
  /\ (forall other, other <> id ->
        worker_remove_socket say prefix other w c
        = Some (mkWorker (remove_socket prefix other (worker_node w) c).1
                         (source_id w),
                (remove_socket prefix other (worker_node w) c).2)).
Proof.
  intros Hsrc. unfold worker_remove_socket. rewrite Hsrc. split; [|split].
  - intros ->. by rewrite decide_True.
  - intros h ->. rewrite decide_True by done. eexists _, _. split; [done|].
    simpl. destruct (shutdown_flags (worker_node w)) as [He Hc].
    split; [|done]. unfold shutdown, halt.
    by destruct (n_close (worker_node w) && n_exit (worker_node w)).
  - intros other Hne. rewrite decide_False by congruence.
    by destruct (remove_socket prefix other (worker_node w) c).
Qed.

(** X21.  [HostNode.remove_worker]: removing a worker that is in the index
    takes it out; the host is shut down exactly when automatic shutdown is
    on and that worker was the last one, otherwise its flags do not
    change.  For an id that is not in the index the call raises (the log
    line reads the name of a pipe that is [None]). *)
Theorem remove_worker_spec (pipe_id : string) (h : HostNode) (c : Console) :
  (pipes h !! pipe_id = None -> remove_worker say pipe_id h c = None)
  /\ (forall name, pipes h !! pipe_id = Some name ->
        exists h' c',
          remove_worker say pipe_id h c = Some (h', c')
          /\ pipes h' = delete pipe_id (pipes h)
          /\ automatic_shutdown h' = automatic_shutdown h
          /\ host_node h'
             = if automatic_shutdown h
                  && bool_decide (pipes h = {[ pipe_id := name ]})
               then shutdown (host_node h) else host_node h).
Proof.
  unfold remove_worker. split.
  - by intros ->.
  - intros name Hp. rewrite Hp.
    assert (bool_decide (delete pipe_id (pipes h) = ∅)
            = bool_decide (pipes h = {[ pipe_id := name ]})) as ->.
    { apply bool_decide_ext. split.
      - intros He. apply map_eq. intros k.
        destruct (decide (k = pipe_id)) as [->|Hne].
        + by rewrite lookup_singleton_eq.
        + rewrite lookup_singleton_ne by done.
          rewrite <- (lookup_delete_ne (pipes h) pipe_id k) by done.
          by rewrite He.
      - intros ->. apply delete_singleton_eq. }
    destruct (automatic_shutdown h && bool_decide (pipes h = {[pipe_id := name]}));
      by eexists _, _.
Qed.

Lemma halt_socket_lookup (id : string) (n : Node) (h : SocketHandler) :
  sockets n !! id = Some h ->
  sockets (halt_socket id n) !! id = Some (mkHandler (h_name h) true).
Proof. intros Hh. unfold halt_socket. simpl. by rewrite lookup_alter_eq, Hh. Qed.

(** X22.  Handing a socket to another process: [transfer_socket] halts
    the origin before it removes it, so for a registered origin the removal
    never runs into a live handler: the origin leaves the sender's
    registry, the sender's flags do not change, and one package goes down
    the pipe.  [receive_socket] on that package registers a running
    handler under the same id, named [DATA-SOURCE] for a [SIGN_ON] request
    and [REQUESTER] otherwise, and starts the request.  Without a request
    neither side works: [transfer_socket] raises before it does anything,
    and a package made without a request cannot be unpacked. *)
Theorem socket_hand_over (prefix id fresh : string) (req : Codec.Request)
    (sender receiver : Node) (c c' : Console) (h : SocketHandler) :
  sockets sender !! id = Some h -> id <> ""%string ->
  Codec.truthy (Codec.method req) = true ->
  (exists sender' c1 pkg,
      transfer_socket say prefix (Some id) (Some (id, req)) sender c [] = Some (sender', c1, [pkg])
      /\ sockets sender' = delete id (sockets sender)
      /\ n_exit sender' = n_exit sender /\ n_close sender' = n_close sender
      /\ exists receiver' c2,
           receive_socket say fresh pkg receiver c' []
           = Some (receiver', c2, [req])
           /\ sockets receiver'
              = <[id := mkHandler
                          (if decide (Codec.method req = Some (Codec.txt "SIGN_ON"))
                           then "DATA-SOURCE"%string else "REQUESTER"%string)
                          false]> (sockets receiver)
           /\ n_exit receiver' = n_exit receiver
           /\ n_close receiver' = n_close receiver)
  /\ transfer_socket say prefix (Some id) None sender c [] = None
  /\ receive_socket say fresh (pack (Some id) None) receiver c' [] = None.
Proof.
  intros Hh Hid Hm. split; [|done].
  unfold transfer_socket.
  pose proof (halt_socket_lookup id sender h Hh) as Hhalted.
  pose proof (remove_socket_halted prefix id (halt_socket id sender) c _ Hhalted
                eq_refl)
    as Hrm.
  destruct (remove_socket prefix id (halt_socket id sender) c) as [n2 c2] eqn:E.
  simpl in Hrm. subst n2.
  eexists _, _, _. split; [done|]. simpl.
  split; [by rewrite delete_alter_eq|]. do 2 (split; [done|]).
  unfold receive_socket, unpack, pack. simpl.
  assert (String.eqb id "" = false) as -> by (by apply String.eqb_neq).
  unfold HANDLE. rewrite Hm. simpl.
  eexists _, _. split; [done|]. done.
Qed.
End Logging.

Lemma worker_source_removal_shuts_down_witness :
  exists w' c',
    worker_remove_socket silent stamp "s1" worker_with_source quiet_console = Some (w', c')
    /\ sockets (worker_node w') = sockets (worker_node worker_with_source)
    /\ n_exit (worker_node w') = true /\ n_close (worker_node w') = true.
Proof.
  destruct (worker_source_removal_shuts_down silent stamp "s1" worker_with_source
              quiet_console eq_refl) as (_ & H & _).
  destruct (H (mkHandler "SOCKET" false) eq_refl) as (w' & c' & H1 & H2 & H3 & H4 & _).
  exists w', c'. repeat split; assumption.
Defined.

Lemma remove_worker_spec_witness :
  remove_worker silent "w3" host_of_two quiet_console = None
  /\ exists h' c',
       remove_worker silent "w1" host_of_two quiet_console = Some (h', c')
       /\ pipes h' = delete "w1"%string (pipes host_of_two)
       /\ host_node h' = host_node host_of_two.
Proof.
  destruct (remove_worker_spec silent "w3" host_of_two quiet_console) as [H1 _].
  destruct (remove_worker_spec silent "w1" host_of_two quiet_console) as [_ H2].
  split; [apply H1; reflexivity|].
  destruct (H2 "WORKER-1"%string eq_refl) as (h' & c' & Ha & Hb & _ & Hc).
  exists h', c'. split; [exact Ha|]. split; [exact Hb|]. exact Hc.
Defined.

Lemma socket_hand_over_witness :
  exists sender' c1 pkg,
    transfer_socket silent stamp (Some "s1"%string) (Some ("s1"%string, Codec.sign_on))
                    node_with_live_socket quiet_console []
    = Some (sender', c1, [pkg])
    /\ sockets sender' = delete "s1"%string (sockets node_with_live_socket)
    /\ n_exit sender' = false.
Proof.
  destruct (socket_hand_over silent stamp "s1" "fresh" Codec.sign_on
              node_with_live_socket
              node_with_live_socket quiet_console quiet_console
              (mkHandler "SOCKET" false) eq_refl)
    as [(s' & c1 & pkg & H1 & H2 & H3 & _) _]; [discriminate|reflexivity|].
  exists s', c1, pkg. split; [exact H1|]. split; [exact H2|exact H3].
Defined.

End HostFacts.

(** ** Facts about binding sessions to stores *)

Module PortFacts.
Import Controller ControllerFacts Ports.

Lemma size_on_port_delete (p : Z) (ID : string) (m : gmap string Database) :
  (size (filter (fun kv => bound_to p kv.2 = true) (delete ID m))
   + weight p (m !! ID))%nat
  = size (filter (fun kv : string * Database => bound_to p kv.2 = true) m).
Proof.
  rewrite map_filter_delete, map_size_delete. unfold weight.
  destruct (m !! ID) as [db|] eqn:E.
  - destruct (bound_to p db) eqn:B.
    + rewrite (map_lookup_filter_Some_2 _ m ID db E B).
      assert (size (filter (fun kv : string * Database => bound_to p kv.2 = true) m)
              <> 0%nat) as Hne.
      { apply (map_size_ne_0_lookup_2 _ ID).
        eexists. by apply map_lookup_filter_Some_2. }
      simpl. lia.
    + rewrite map_lookup_filter_None_2; [simpl; lia|].
      right. intros x Hx. simpl. congruence.
  - rewrite map_lookup_filter_None_2 by (by left). simpl. lia.
Qed.

Lemma size_on_port_insert (p : Z) (ID : string) (db : Database)
    (m : gmap string Database) :
  size (filter (fun kv => bound_to p kv.2 = true) (<[ID := db]> m))
  = (size (filter (fun kv : string * Database => bound_to p kv.2 = true)
                  (delete ID m))
     + weight p (Some db))%nat.
Proof.
  unfold weight. destruct (bound_to p db) eqn:B.
  - rewrite <- insert_delete_eq, map_filter_insert_True by done.
    rewrite map_size_insert_None; [lia|].
    apply map_lookup_filter_None_2. left. apply lookup_delete_eq.
  - rewrite map_filter_insert_False by (simpl; congruence). lia.
Qed.

Lemma on_port_member (p : Z) (ID : string) (f : string) (c : DatabaseController) :
  sessions c !! ID = Some (PlaybackDatabase p f) -> (0 < size (on_port p c))%nat.
Proof.
  intros E. unfold on_port.
  pose proof (size_on_port_delete p ID (sessions c)) as H.
  rewrite E in H. simpl in H. rewrite bool_decide_eq_true_2 in H by done. lia.
Qed.

Lemma has_file_eq (i j : port_info) : file i = file j -> has_file i = has_file j.
Proof. unfold has_file. by intros ->. Qed.

(** The flag of [find_port] tells whether a listed port serves the
    file. *)
Lemma find_port_found (wanted : string) (table : gmap Z port_info)
    (ports : list Z) :
  forall acc,
    (find_port wanted ports table acc).2
    = existsb (fun p => match table !! p with
                        | Some info => has_file info
                                       && bool_decide (file info = Some wanted)
                        | None => false
                        end) ports.
Proof.
  induction ports as [|p ports IH]; intros acc; [done|]. cbn [find_port existsb].
  destruct (table !! p) as [info|]; [|by rewrite IH].
  destruct (has_file info); cbn [negb andb]; [|by rewrite IH].
  destruct (decide (file info = Some wanted)) as [Hf|Hf].
  - by rewrite bool_decide_eq_true_2.
  - rewrite bool_decide_eq_false_2 by done. by rewrite IH.
Qed.

Lemma find_port_some (wanted : string) (table : gmap Z port_info) (ports : list Z) :
  forall acc p b,
    find_port wanted ports table acc = (Some p, b) ->
    (acc = Some p /\ b = false)
    \/ exists info, table !! p = Some info
                    /\ if b then has_file info = true /\ file info = Some wanted
                       else has_file info = false.
Proof.
  induction ports as [|q ports IH]; intros acc p b; cbn [find_port].
  - intros [= -> <-]. by left.
  - destruct (table !! q) as [info|] eqn:E; [|apply IH].
    destruct (has_file info) eqn:Hh; cbn [negb].
    + destruct (decide (file info = Some wanted)) as [Hf|Hf]; [|apply IH].
      intros [= <- <-]. right. by exists info.
    + intros [[[= <-] ->]|H]%IH; [|by right]. right. by exists info.
Qed.

Lemma find_port_none (wanted : string) (table : gmap Z port_info) (ports : list Z) :
  forall acc b,
    find_port wanted ports table acc = (None, b) ->
    acc = None /\ b = false
    /\ forall q info, q ∈ ports -> table !! q = Some info ->
          has_file info = true /\ file info <> Some wanted.
Proof.
  induction ports as [|q ports IH]; intros acc b; cbn [find_port].
  - intros [= -> <-]. split; [done|]. split; [done|]. by intros q info ?%elem_of_nil.
  - destruct (table !! q) as [info|] eqn:E.
    + destruct (has_file info) eqn:Hh; cbn [negb].
      * destruct (decide (file info = Some wanted)) as [Hf|Hf]; [done|].
        intros (-> & -> & Hall)%IH. split; [done|]. split; [done|].
        intros q' info' [->|Hin]%elem_of_cons Hq'; [|by eapply Hall].
        rewrite E in Hq'. by injection Hq' as <-.
      * by intros (? & _)%IH.
    + intros (-> & -> & Hall)%IH. split; [done|]. split; [done|].
      intros q' info' [->|Hin]%elem_of_cons Hq'; [congruence|by eapply Hall].
Qed.

Section Ports.
Variable backend_stops : Z -> bool.
Hypothesis stops : forall p, backend_stops p = true.

(** [remove] on a controller whose counts are exact. *)
Lemma remove_counted (pending : option Z) (ID : string) (c : DatabaseController) :
  counted_plus pending c ->
  exists c',
    remove backend_stops ID c = Done c'
    /\ counted_plus pending c'
    /\ (forall p, weight p (sessions c' !! ID) = 0%nat)
    /\ (forall p info, pending = Some p -> playback_ports c !! p = Some info ->
          exists info', playback_ports c' !! p = Some info'
                        /\ file info' = file info)
    /\ sessions c'
       = match sessions c !! ID with
         | Some (PlaybackDatabase _ _) => delete ID (sessions c)
         | _ => sessions c
         end
    /\ shut_down c'
       = match sessions c !! ID with
         | Some (PlaybackDatabase p _) =>
             if decide (default 0 (count <$> playback_ports c !! p) = 1)
             then shut_down c ++ [p] else shut_down c
         | _ => shut_down c
         end.
Proof.
  intros Hc. pose proof Hc as [Hk Hs Hu Hf]. unfold remove.
  destruct (sessions c !! ID) as [[|port f]|] eqn:E.
  - exists c. rewrite E. do 3 (split; [done|]). split; [|done].
    intros p info _ Hi. by exists info.
  - destruct (Hf ID port f E) as (info & Hi & Hfile). rewrite Hi.
    pose proof (Hs port info Hi) as Hsz.
    pose proof (on_port_member port ID f c E) as Hmem.
    assert (0 < count info) as Hpos by (destruct (decide (pending = Some port)); lia).
    rewrite (Hu port info Hi Hpos). cbn [andb].
    pose proof (size_on_port_delete port ID (sessions c)) as Hdel.
    rewrite E in Hdel. cbn [weight bound_to] in Hdel.
    rewrite bool_decide_eq_true_2 in Hdel by done.
    assert (forall p, p <> port ->
              size (filter (fun kv : string * Database => bound_to p kv.2 = true)
                           (delete ID (sessions c)))
              = size (on_port p c)) as Hother.
    { intros p Hp. pose proof (size_on_port_delete p ID (sessions c)) as H.
      rewrite E in H. cbn [weight bound_to] in H.
      rewrite bool_decide_eq_false_2 in H by done. unfold on_port. lia. }
    assert (port ∈ port_order) as Hport by (apply Hk; by eexists).
    cbn [fmap option_fmap option_map default id].
    destruct (Z.ltb_spec 1 (count info)) as [Hmany|Hlast].
    + eexists. split; [done|]. cbn [sessions playback_ports shut_down].
      rewrite lookup_delete_eq. rewrite decide_False by lia.
      split; [|split; [done|split; [|done]]].
      * split; cbn [sessions playback_ports].
        -- intros p. rewrite lookup_insert_is_Some. rewrite Hk.
           split; [intros [<-|[_ ?]]; done|].
           intros Hp. destruct (decide (port = p)); [by left|by right].
        -- intros p info0. unfold on_port. cbn [sessions].
           destruct (decide (port = p)) as [<-|Hne].
           ++ rewrite lookup_insert_eq. intros [= <-]. cbn [count].
              unfold on_port in Hsz. lia.
           ++ rewrite lookup_insert_ne by done. intros H0.
              rewrite Hother by done. by apply Hs.
        -- intros p info0. destruct (decide (port = p)) as [<-|Hne].
           ++ rewrite lookup_insert_eq. intros [= <-] _.
              rewrite <- (Hu port info Hi Hpos). by apply has_file_eq.
           ++ rewrite lookup_insert_ne by done. apply Hu.
        -- intros ID' p f' [Hne HID']%lookup_delete_Some.
           destruct (Hf ID' p f' HID') as (info' & Hi' & Hf').
           destruct (decide (port = p)) as [<-|Hnp].
           ++ rewrite lookup_insert_eq. eexists. split; [done|].
              cbn [file]. congruence.
           ++ rewrite lookup_insert_ne by done. by eauto.
      * intros p info0 -> Hi0. destruct (decide (port = p)) as [<-|Hnp].
        -- rewrite lookup_insert_eq. eexists. split; [done|]. cbn [file]. congruence.
        -- rewrite lookup_insert_ne by done. by eauto.
    + assert ((count info <=? 1) = true) as -> by lia. rewrite stops.
      assert (pending <> Some port /\ size (on_port port c) = 1%nat) as [Hpend Hone].
      { unfold on_port in *.
        destruct (decide (pending = Some port)); split; first [done|lia]. }
      eexists. split; [done|]. cbn [sessions playback_ports shut_down].
      rewrite lookup_delete_eq.
      rewrite decide_True by (destruct (decide (pending = Some port)); lia).
      assert (size (filter (fun kv : string * Database => bound_to port kv.2 = true)
                           (delete ID (sessions c))) = 0%nat) as Hzero
        by (unfold on_port in Hone; lia).
      split; [|split; [done|split; [|done]]].
      * split; cbn [sessions playback_ports].
        -- intros p. rewrite lookup_insert_is_Some. rewrite Hk.
           split; [intros [<-|[_ ?]]; done|].
           intros Hp. destruct (decide (port = p)); [by left|by right].
        -- intros p info0. unfold on_port. cbn [sessions].
           destruct (decide (port = p)) as [<-|Hne].
           ++ rewrite lookup_insert_eq. intros [= <-]. cbn [count].
              rewrite Hzero. by rewrite decide_False.
           ++ rewrite lookup_insert_ne by done. intros H0.
              rewrite Hother by done. by apply Hs.
        -- intros p info0. destruct (decide (port = p)) as [<-|Hne].
           ++ rewrite lookup_insert_eq. intros [= <-]. cbn [count]. lia.
           ++ rewrite lookup_insert_ne by done. apply Hu.
        -- intros ID' p f' HID'. pose proof HID' as [Hne HID]%lookup_delete_Some.
           destruct (Hf ID' p f' HID) as (info' & Hi' & Hf').
           destruct (decide (port = p)) as [<-|Hnp].
           ++ exfalso.
              assert (size (filter (fun kv : string * Database =>
                                      bound_to port kv.2 = true)
                                   (delete ID (sessions c))) <> 0%nat); [|done].
              apply (map_size_ne_0_lookup_2 _ ID'). eexists.
              apply map_lookup_filter_Some_2; [exact HID'|].
              cbn. by apply bool_decide_eq_true_2.
           ++ rewrite lookup_insert_ne by done. by eauto.
      * intros p info0 -> Hi0. rewrite lookup_insert_ne by congruence. by eauto.
  - exists c. rewrite E. do 3 (split; [done|]). split; [|done].
    intros p info _ Hi. by exists info.
Qed.
(** X23.  [remove] keeps the reference counts exact (when the backend
    obeys the shutdown): on a controller where every port counts the
    sessions bound to it, the call returns, the counts are exact again,
    and a backend is told to shut down exactly when the session removed
    was the only one bound to its port. *)
Theorem remove_keeps_counts_exact (ID : string) (c : DatabaseController) :
  counted c ->
  exists c',
    remove backend_stops ID c = Done c'
    /\ counted c'
    /\ shut_down c'
       = match sessions c !! ID with
         | Some (PlaybackDatabase p _) =>
             if decide (size (on_port p c) = 1%nat)
             then shut_down c ++ [p] else shut_down c
         | _ => shut_down c
         end.
Proof.
  intros Hc. destruct (remove_counted None ID c Hc) as (c' & Hr & Hc' & _ & _ & _ & Hsd).
  exists c'. split; [done|]. split; [done|]. rewrite Hsd.
  destruct (sessions c !! ID) as [[|p f]|] eqn:E; try done.
  destruct Hc as [_ Hs _ Hf]. destruct (Hf ID p f E) as (info & Hi & _).
  rewrite Hi. cbn [fmap option_fmap option_map default id].
  pose proof (Hs p info Hi) as Hsz. rewrite decide_False in Hsz by done.
  destruct (decide (count info  = 1)),
           (decide (size (on_port p c) = 1%nat)); first [done|lia].
Qed.

(** [new_playback] on a controller whose counts are exact. *)
Lemma new_playback_counted (wanted ID : string) (c : DatabaseController) :
  counted c -> wanted <> ""%string ->
  match new_playback backend_stops wanted ID c with
  | (Done c', servers) =>
      counted c'
      /\ exists port,
           get ID c' = Some (PlaybackDatabase port wanted)
           /\ servers = if serves wanted c then [] else [(wanted, port)]
  | (Raised c', servers) =>
      c' = c /\ servers = []
      /\ forall p, p ∈ port_order ->
           exists info, playback_ports c !! p = Some info
                        /\ has_file info = true /\ file info <> Some wanted
  end.
Proof.
  intros Hc Hw. pose proof Hc as [Hk Hs Hu Hf]. unfold new_playback.
  pose proof (find_port_found wanted (playback_ports c) port_order None) as Hfound.
  fold (serves wanted c) in Hfound.
  destruct (find_port wanted port_order (playback_ports c) None)
    as [[port|] found] eqn:E; cbn [snd] in Hfound.
  - apply find_port_some in E as [[? _]|(info & Hi & Hb)]; [done|].
    rewrite Hi. pose proof (Hs port info Hi) as Hsz.
    rewrite decide_False in Hsz by done.
    assert ((count info + 1 <=? 0) = false) as -> by lia.
    set (c1 := mkController _ _ _).
    assert (counted_plus (Some port) c1) as Hc1.
    { split; unfold c1; cbn [sessions playback_ports].
      - intros p. rewrite lookup_insert_is_Some, Hk.
        split; [intros [<-|[_ ?]]; [apply Hk; by eexists|done]|].
        intros Hp. destruct (decide (port = p)); [by left|by right].
      - intros p info0. unfold on_port. cbn [sessions].
        destruct (decide (port = p)) as [<-|Hne].
        + rewrite lookup_insert_eq. intros [= <-]. cbn [count].
          rewrite decide_True by done. unfold on_port in Hsz. lia.
        + rewrite lookup_insert_ne by done. intros H0.
          rewrite decide_False by congruence.
          pose proof (Hs p info0 H0) as H1. rewrite decide_False in H1 by done.
          unfold on_port in H1. lia.
      - intros p info0. destruct (decide (port = p)) as [<-|Hne].
        + rewrite lookup_insert_eq. intros [= <-] _. unfold has_file. cbn.
          apply negb_true_iff. by apply String.eqb_neq.
        + rewrite lookup_insert_ne by done. apply Hu.
      - intros ID' p f' HID'. destruct (Hf ID' p f' HID') as (info' & Hi' & Hf').
        destruct (decide (port = p)) as [<-|Hnp].
        + rewrite lookup_insert_eq. eexists. split; [done|]. cbn [file].
          assert (info' = info) as -> by congruence.
          destruct found; [destruct Hb; congruence|].
          pose proof (on_port_member port ID' f' c HID').
          assert (has_file info = true) by (apply (Hu port); [done|lia]).
          congruence.
        + rewrite lookup_insert_ne by done. by eauto. }
    destruct (remove_counted (Some port) ID c1 Hc1)
      as (c2 & Hr & Hc2 & Hw0 & Hkeep & _).
    rewrite Hr. destruct Hc2 as [Hk2 Hs2 Hu2 Hf2].
    destruct (Hkeep port (mkInfo (Some wanted) (count info + 1)) eq_refl)
      as (info2 & Hi2 & Hfile2); [apply lookup_insert_eq|].
    split.
    + split; cbn [sessions playback_ports].
      * done.
      * intros p info0 H0. unfold on_port. cbn [sessions].
        rewrite size_on_port_insert.
        pose proof (size_on_port_delete p ID (sessions c2)) as Hd.
        rewrite Hw0 in Hd. pose proof (Hs2 p info0 H0) as H2.
        unfold on_port in H2. cbn [weight bound_to].
        rewrite (decide_False (P := None = Some p)) by done.
        destruct (decide (Some port = Some p)) as [[= ->]|Hne].
        -- rewrite bool_decide_eq_true_2 by done. lia.
        -- rewrite bool_decide_eq_false_2 by congruence. lia.
      * done.
      * intros ID' p f' [[<- [= <- <-]]|[Hne HID']]%lookup_insert_Some.
        -- exists info2. by split.
        -- by apply (Hf2 ID').
    + exists port. split; [apply lookup_insert_eq|]. by rewrite <- Hfound.
  - apply find_port_none in E as (_ & -> & Hall).
    split; [done|]. split; [done|]. intros p Hp.
    destruct (proj2 (Hk p) Hp) as [info Hi]. exists info. split; [done|].
    by apply (Hall p).
Qed.

(** X24.  [new_playback] keeps the reference counts exact and shares
    backends, when the backend obeys the shutdown: on a controller with
    exact counts and for a file name that is not empty, either every port
    serves another file, and the call raises without changing anything; or
    the session ends up bound to a playback store for the file, the counts
    are exact again (also when the session was bound before, to this file
    or to another store), and a server is started only when no port served
    the file yet. *)
Theorem new_playback_keeps_counts_exact (wanted ID : string)
    (c : DatabaseController) :
  counted c -> wanted <> ""%string ->
  match new_playback backend_stops wanted ID c with
  | (Done c', servers) =>
      counted c'
      /\ exists port,
           get ID c' = Some (PlaybackDatabase port wanted)
           /\ servers = if serves wanted c then [] else [(wanted, port)]
  | (Raised c', servers) =>
      c' = c /\ servers = []
      /\ forall p, p ∈ port_order ->
           exists info, playback_ports c !! p = Some info
                        /\ has_file info = true /\ file info <> Some wanted
  end.
Proof. exact (new_playback_counted wanted ID c). Qed.

(** X25.  [new_live] keeps the reference counts exact, when the playback
    backend obeys the shutdown: on a controller with exact counts the
    session ends up bound to the live store, and if it was bound to a
    playback store before, that binding is given up as [remove] does it
    (the backend is shut down when it was the last one).  When the live
    backend does not answer, the call raises after the old binding is
    gone. *)
Theorem new_live_keeps_counts_exact (live_answers : bool) (ID : string)
    (c : DatabaseController) :
  counted c ->
  match new_live backend_stops live_answers ID c with
  | Done c' =>
      live_answers = true /\ counted c' /\ get ID c' = Some LiveDatabase
  | Raised c' =>
      live_answers = false /\ counted c'
      /\ remove backend_stops ID c = Done c'
  end.
Proof.
  intros Hc. unfold new_live.
  destruct (remove_counted None ID c Hc)
    as (c1 & Hr & Hc1 & Hw0 & _).
  rewrite Hr. destruct live_answers; [|done].
  split; [done|]. split; [|apply lookup_insert_eq].
  destruct Hc1 as [Hk Hs Hu Hf]. split; cbn [sessions playback_ports].
  - done.
  - intros p info0 H0. unfold on_port. cbn [sessions].
    rewrite size_on_port_insert.
    pose proof (size_on_port_delete p ID (sessions c1)) as Hd.
    rewrite Hw0 in Hd. pose proof (Hs p info0 H0) as H2.
    unfold on_port in H2. cbn [weight bound_to]. lia.
  - done.
  - intros ID' p f' [[_ [=]]|[Hne HID']]%lookup_insert_Some. by apply (Hf ID').
Qed.
End Ports.

Lemma counted_init : counted init.
Proof.
  assert (forall p info, playback_ports init !! p = Some info ->
            p ∈ port_order /\ info = mkInfo None 0) as Hinit.
  { intros p info H. apply elem_of_list_to_map_2 in H.
    cbn [fmap list_fmap] in H.
    repeat (apply elem_of_cons in H as [[= -> ->]|H]);
      [split; [compute_done|done]..|by apply elem_of_nil in H]. }
  split.
  - intros p. split; [intros [info H]; by apply (Hinit p info)|].
    intros H. unfold port_order in H.
    repeat (apply elem_of_cons in H as [->|H]); [by eexists..|].
    by apply elem_of_nil in H.
  - intros p info [_ ->]%Hinit. done.
  - intros p info [_ ->]%Hinit. cbn. lia.
  - intros ID p f H. unfold init in H. cbn [sessions] in H.
    by rewrite lookup_empty in H.
Qed.

Lemma counted_one_viewer : counted one_viewer.
Proof.
  pose proof (new_playback_counted obedient (fun _ => eq_refl) "run.rdb" "a" init
                counted_init ltac:(discriminate)) as H.
  assert (new_playback obedient "run.rdb" "a" init
          = (Done one_viewer, [("run.rdb"%string, 7002)])) as E
    by (vm_compute; reflexivity).
  rewrite E in H. by destruct H.
Qed.

Lemma counted_two_viewers : counted two_viewers.
Proof.
  pose proof (new_playback_counted obedient (fun _ => eq_refl) "run.rdb" "b"
                one_viewer counted_one_viewer ltac:(discriminate)) as H.
  assert (new_playback obedient "run.rdb" "b" one_viewer = (Done two_viewers, []))
    as E by (vm_compute; reflexivity).
  rewrite E in H. by destruct H.
Qed.

Lemma remove_keeps_counts_exact_witness :
  remove obedient "b" two_viewers = Done one_viewer
  /\ counted one_viewer
  /\ exists c', remove obedient "a" one_viewer = Done c'
                /\ counted c' /\ shut_down c' = [7002].
Proof.
  destruct (remove_keeps_counts_exact obedient (fun _ => eq_refl) "b" two_viewers
              counted_two_viewers) as (c1 & H1 & H2 & _).
  assert (remove obedient "b" two_viewers = Done one_viewer) as E1
    by (vm_compute; reflexivity).
  rewrite E1 in H1. injection H1 as <-.
  destruct (remove_keeps_counts_exact obedient (fun _ => eq_refl) "a" one_viewer H2)
    as (c2 & H3 & H4 & H5).
  split; [exact E1|]. split; [exact H2|]. exists c2.
  split; [exact H3|]. split; [exact H4|].
  rewrite H5. vm_compute. reflexivity.
Defined.

Lemma new_playback_keeps_counts_exact_witness :
  counted two_viewers
  /\ get "b" two_viewers = Some (PlaybackDatabase 7002 "run.rdb").
Proof.
  pose proof (new_playback_keeps_counts_exact obedient (fun _ => eq_refl) "run.rdb"
                "b" one_viewer counted_one_viewer ltac:(discriminate)) as H.
  assert (new_playback obedient "run.rdb" "b" one_viewer = (Done two_viewers, []))
    as E by (vm_compute; reflexivity).
  rewrite E in H. destruct H as [H _]. split; [exact H|reflexivity].
Defined.

Lemma new_live_keeps_counts_exact_witness :
  exists c',
    new_live obedient true "a" one_viewer = Done c'
    /\ counted c' /\ get "a" c' = Some LiveDatabase /\ shut_down c' = [7002].
Proof.
  pose proof (new_live_keeps_counts_exact obedient (fun _ => eq_refl) true "a"
                one_viewer counted_one_viewer) as H.
  destruct (new_live obedient true "a" one_viewer) as [c'|c'] eqn:E.
  - destruct H as (_ & H1 & H2). exists c'. split; [reflexivity|].
    split; [exact H1|]. split; [exact H2|].
    assert (shut_down <$> (match new_live obedient true "a" one_viewer with
                           | Done x => Some x | Raised _ => None end)
            = Some [7002]) as Hs by (vm_compute; reflexivity).
    rewrite E in Hs. by injection Hs.
  - destruct H as [H _]. discriminate H.
Defined.

End PortFacts.

(** ** Facts about writing batches *)

Module BatchFacts.
Import Store StoreFacts Batches.

Section Writes.
Context {F : Type} `{FloatOps F}.
Implicit Types (bs : gmap string (Bookmark (F := F))).

Lemma row_at_total (n i : nat) (data : list (string * cell)) :
  Forall (fun kc : string * cell => exists xs, kc.2 = Seq xs /\ length xs = n) data ->
  (i < n)%nat ->
  exists row : list (string * F), row_at i data = Some row /\ row_of i data row.
Proof.
  intros Hdata Hi. induction data as [|[k c] data IH].
  - exists []. split; [done|constructor].
  - apply Forall_cons in Hdata as [(xs & Hc & Hlen) Hdata]. simpl in Hc. subst c.
    destruct (IH Hdata) as (row & Hrow & Hof).
    destruct (lookup_lt_is_Some_2 xs i ltac:(lia)) as [v Hv].
    exists ((k, v) :: row). cbn [row_at]. rewrite Hv, Hrow.
    split; [done|]. constructor; [|done]. split; [done|]. by exists xs.
Qed.

Lemma write_rows_total (stream : string) (data : list (string * cell))
    (times : list F) (idxs : list nat) :
  forall bs,
    Forall (fun kc : string * cell =>
              exists xs, kc.2 = Seq xs /\ length xs = length times) data ->
    Forall (fun i => (i < length times)%nat) idxs ->
    never_written stream bs ->
    exists cmds bs',
      write_rows stream data times idxs bs = Some (cmds, bs')
      /\ never_written stream bs'
      /\ Forall2 (fun i c => x_key c = "stream:" +:+ stream
                             /\ time_to_redis <$> times !! i = Some (x_id c)
                             /\ row_of i data (x_row c))
                 idxs cmds.
Proof.
  induction idxs as [|i idxs IH]; intros bs Hdata Hidx Hn.
  - exists [], bs. by repeat constructor.
  - apply Forall_cons in Hidx as [Hi Hidx].
    destruct (row_at_total _ i data Hdata Hi) as (row & Hrow & Hof).
    destruct (lookup_lt_is_Some_2 times i Hi) as [t Ht].
    pose proof (never_written_get stream bs Hn) as [_ Hn1].
    destruct (IH _ Hdata Hidx Hn1) as (cmds & bs' & Hw & Hn' & Hall).
    eexists _, bs'. cbn [write_rows]. rewrite Hrow, Ht. simpl.
    rewrite validate_never_written by done. simpl. rewrite Hw. simpl.
    split; [done|]. split; [done|]. constructor; [|done].
    simpl. by rewrite Ht.
Qed.

(** X26.  [write_data] on a well-shaped batch: when every column is a
    sequence as long as the [time] column (and no write has been recorded
    for the stream, which is the case for every store, as the write
    bookmark is never set), the call raises none of its own errors and
    hands the backend one XADD per row, in row order, on
    [stream:<stream>].  The command of row [i] carries, for every column
    of the batch in order, the [i]-th value of that column under the
    column's key, and as its id what [time_to_redis] makes of the [i]-th
    time stamp, with no sequence number.  What the backend answers to the
    commands is not part of this. *)
Theorem write_data_queues_one_row_per_time (stream : string)
    (data : list (string * cell)) (times : list F) bs :
  Py.dget "time"%string data = Some (Seq times) ->
  Forall (fun kc : string * cell =>
            exists xs, kc.2 = Seq xs /\ length xs = length times) data ->
  never_written stream bs ->
  exists cmds bs',
    write_data stream data bs = Some (cmds, bs')
    /\ length cmds = length times
    /\ (forall i c, cmds !! i = Some c ->
          x_key c = "stream:" +:+ stream
          /\ time_to_redis <$> times !! i = Some (x_id c)
          /\ row_of i data (x_row c))
    /\ never_written stream bs'.
Proof.
  intros Htime Hdata Hn. unfold write_data. rewrite Htime.
  destruct data as [|[k0 c0] rest]; [done|].
  pose proof Hdata as [(xs0 & Hc0 & Hl0) Hrest]%Forall_cons.
  cbn [snd] in Hc0. subst c0.
  assert (all_same_size ((k0, Seq xs0) :: rest) = true) as ->.
  { cbn [all_same_size]. apply forallb_forall. intros [k c] Hin%list_elem_of_In.
    apply bool_decide_eq_true_2.
    destruct (proj1 (Forall_forall _ _) Hrest _ Hin) as (xs & Hc & Hl).
    cbn [snd] in *. subst c. cbn [cell_size]. congruence. }
  cbn [negb Py.dvalues fmap list_fmap head snd].
  destruct (write_rows_total stream ((k0, Seq xs0) :: rest) times
              (List.seq 0 (length xs0)) bs Hdata) as (cmds & bs' & Hw & Hn' & Hall);
    [|done|].
  { apply Forall_forall. intros i Hi%elem_of_seq. lia. }
  exists cmds, bs'. split; [done|].
  pose proof (Forall2_length _ _ _ Hall) as Hlen. rewrite length_seq in Hlen.
  split; [lia|]. split; [|done].
  intros i c Hc.
  destruct (Forall2_lookup_r _ _ _ _ _ Hall Hc) as (j & Hj & Hjc).
  apply lookup_seq in Hj as [-> _]. exact Hjc.
Qed.

(** X27.  [write_data] rejects a malformed batch before it touches the
    backend: a batch without a [time] column raises, and so does a batch
    with two columns of different sizes (a single value counting as a size
    of its own, so that single values and sequences cannot be mixed). *)
Theorem write_data_rejects_malformed (stream : string)
    (data : list (string * cell)) bs :
  (Py.dget "time"%string data = None -> write_data stream data bs = None)
  /\ (forall k1 c1 k2 c2,
        (k1, c1) ∈ data -> (k2, c2) ∈ data -> cell_size c1 <> cell_size c2 ->
        write_data stream data bs = None).
Proof.
  split.
  - intros Htime. unfold write_data. by rewrite Htime.
  - intros k1 c1 k2 c2 H1 H2 Hne. unfold write_data.
    destruct (Py.dget "time"%string data) as [time_col|]; [|done].
    assert (all_same_size data = false) as ->; [|done].
    destruct data as [|[k0 c0] rest]; [done|]. cbn [all_same_size].
    apply not_true_iff_false. intros Hall. rewrite forallb_forall in Hall.
    assert (forall k c, (k, c) ∈ (k0, c0) :: rest -> cell_size c = cell_size c0)
      as Hsame.
    { intros k c [[= ? ?]|Hin]%elem_of_cons; [by subst|].
      apply list_elem_of_In in Hin. apply Hall in Hin.
      by apply bool_decide_eq_true in Hin. }
    apply Hne. by rewrite (Hsame k1 c1 H1), (Hsame k2 c2 H2).
Qed.
End Writes.

Lemma write_data_queues_one_row_per_time_witness :
  exists cmds bs',
    write_data "s" three_rows ∅ = Some (cmds, bs')
    /\ length cmds = 3%nat
    /\ forall c, cmds !! 1%nat = Some c ->
         x_key c = "stream:s"%string
         /\ x_id c = mkId 2000 None
         /\ row_of 1 three_rows (x_row c).
Proof.
  destruct (write_data_queues_one_row_per_time (F := Q) "s" three_rows
              [tenths 10002; tenths 20007; tenths 30000] ∅)
    as (cmds & bs' & H1 & H2 & H3 & _); [reflexivity| |done|].
  - repeat constructor; eexists; (split; [reflexivity|reflexivity]).
  - exists cmds, bs'. split; [exact H1|]. split; [exact H2|].
    intros c Hc. destruct (H3 1%nat c Hc) as (Ha & Hb & Hd).
    split; [exact Ha|]. split; [|exact Hd].
    injection Hb as Hb. rewrite <- Hb. reflexivity.
Defined.

Lemma write_data_rejects_malformed_witness :
  write_data "s" ragged ∅ = None.
Proof.
  destruct (write_data_rejects_malformed (F := Q) "s" ragged ∅) as [_ H].
  apply (H "time"%string (Seq [tenths 10002; tenths 10007])
           "x"%string (Seq [1%Q])).
  - apply elem_of_cons. by left.
  - apply elem_of_cons. right. apply elem_of_cons. by left.
  - discriminate.
Defined.

End BatchFacts.
